(** * The crawler agents of midscene: [CrawlerAgent] and [AIEnhancedAgent]

    A shallow embedding of [packages/crawler/src/agent]: the action agent
    that wraps a [BrowserInterface] driver, and the AI-enhanced agent that
    adds element location, planning and plan execution on top of it.

    Conventions of the embedding.
    - An [async] method is a state transformer that either returns a value
      or throws a message: [M A := State -> Outcome A * State].  [await] is
      sequencing, [try ... catch] is [try_catch].
    - The driver is the interface [BrowserInterface] of [types.d.ts], a type
      class over the driver's own state; every call the agent makes to it is
      also appended to the agent's [calls] log, so that "no driver method is
      invoked" is a statement about that log.
    - The in-page scripts the agent hands to [browser.evaluate] are part of
      the program: each one is a function of the [Page] it runs against.
    - JavaScript numbers are IEEE-754 doubles: coordinates and the timeouts
      a caller gives are [float]; counters, the time that passes and clock
      readings, which stay integral, are [N] and [Z].
    - The options object given to [new AIEnhancedAgent] is a record of
      keys, each of them [absent], given as [undefined], or [given] a
      value: the object spread tells the first two apart.
    - [path] is the POSIX flavour of the module.
    - JavaScript strings are [string]; a character is one code unit in the
      range 0..255. *)

From Stdlib Require Import ZArith NArith String Ascii Bool List.
From Stdlib Require Import PrimFloat.
From Stdlib Require FloatOps SpecFloat.
From stdpp Require Import base strings gmap list pretty.

Local Open Scope string_scope.
Local Open Scope N_scope.

(** ** JavaScript values used by the agents *)

Module JS.

(** [WhiteSpace] and [LineTerminator] code units below 256, the characters
    [String.prototype.trim] removes. *)
Definition isWhiteSpace (c : ascii) : bool :=
  match c with
  | "009" | "010" | "011" | "012" | "013" | " " | "160" => true
  | _ => false
  end%char.

Fixpoint trimStart (s : string) : string :=
  match s with
  | String c s' => if isWhiteSpace c then trimStart s' else s
  | EmptyString => EmptyString
  end.

Definition trimEnd (s : string) : string :=
  String.rev (trimStart (String.rev s)).

Definition trim (s : string) : string := trimEnd (trimStart s).

(** Upper-case letters below 256 are A-Z, and U+00C0..U+00DE without the
    multiplication sign U+00D7. *)
Definition toLowerCaseChar (c : ascii) : ascii :=
  let n := N_of_ascii c in
  if ((65 <=? n) && (n <=? 90)) || ((192 <=? n) && (n <=? 222) && negb (n =? 215))
  then ascii_of_N (n + 32) else c.

Fixpoint toLowerCase (s : string) : string :=
  match s with
  | String c s' => String (toLowerCaseChar c) (toLowerCase s')
  | EmptyString => EmptyString
  end.

(** [s.includes(sub)] *)
Fixpoint includes (s sub : string) : bool :=
  if String.prefix sub s then true
  else match s with
       | String _ s' => includes s' sub
       | EmptyString => false
       end.

(** Truthiness of a string: every string but the empty one. *)
Definition truthy (s : string) : bool :=
  match s with EmptyString => false | _ => true end.

(** Truthiness of [string | undefined]. *)
Definition truthy_opt (s : option string) : bool :=
  match s with Some s => truthy s | None => false end.

(** Truthiness of a number: every number but [0], [-0] and [NaN]. *)
Definition truthy_number (n : float) : bool :=
  match FloatOps.Prim2SF n with
  | SpecFloat.S754_zero _ | SpecFloat.S754_nan => false
  | _ => true
  end.

(** [a || b] on [number | undefined]. *)
Definition or_number (a b : option float) : option float :=
  match a with
  | Some n => if truthy_number n then a else b
  | None => b
  end.

(** The integral part of a finite number, rounded towards zero; [0] for
    [NaN] and the infinities. *)
Definition truncate (n : float) : Z :=
  match FloatOps.Prim2SF n with
  | SpecFloat.S754_finite sign m e =>
      let magnitude :=
        if (0 <=? e)%Z then (Z.pos m * 2 ^ e)%Z else (Z.pos m / 2 ^ (- e))%Z in
      if sign then (- magnitude)%Z else magnitude
  | _ => 0%Z
  end.

(** [ToInt32]: the integral part modulo 2^32, read as a signed integer. *)
Definition toInt32 (n : float) : Z :=
  let k := (truncate n mod 2 ^ 32)%Z in
  if (k <? 2 ^ 31)%Z then k else (k - 2 ^ 32)%Z.

(** [a || b] on [string | undefined] with a string default. *)
Definition or_string (a : option string) (b : string) : string :=
  match a with
  | Some s => if truthy s then s else b
  | None => b
  end.

(** [a ?? b] on [boolean | undefined]. *)
Definition nullish_bool (a : option bool) (b : bool) : bool :=
  match a with Some x => x | None => b end.

(** Truthiness of [boolean | undefined]. *)
Definition truthy_bool (a : option bool) : bool :=
  match a with Some true => true | _ => false end.

(** The properties a plain object inherits from [Object.prototype]. *)
Definition inherited : list string :=
  ["constructor"; "hasOwnProperty"; "isPrototypeOf"; "propertyIsEnumerable";
   "toLocaleString"; "toString"; "valueOf"; "__proto__";
   "__defineGetter__"; "__defineSetter__"; "__lookupGetter__"; "__lookupSetter__"].

Definition isInherited (key : string) : bool :=
  existsb (String.eqb key) inherited.

(** A key of an object literal: absent, given as [undefined], or given a
    value. *)
Inductive Key (A : Type) :=
| absent
| undefined
| given (a : A).
Arguments absent {A}.
Arguments undefined {A}.
Arguments given {A} _.

(** [options.key] *)
Definition read {A} (k : Key A) : option A :=
  match k with
  | given a => Some a
  | _ => None
  end.

(** [{ key: value, ...options }.key]: a key of [options] wins, also when it
    is given as [undefined]. *)
Definition spread {A} (value : option A) (k : Key A) : option A :=
  match k with
  | absent => value
  | undefined => None
  | given a => Some a
  end.

(** The double quote, for messages that quote a selector or a description. *)
Definition dq : string := String "034"%char EmptyString.

Definition quoted (s : string) : string := dq +:+ s +:+ dq.

(** A template literal applied to [string | undefined]. *)
Definition show (s : option string) : string :=
  match s with Some s => s | None => "undefined" end.

End JS.

(** ** Data model *)

(** [Buffer]: the bytes of a screenshot. *)
Definition Buffer := list Byte.byte.

(** [DOMRect], as [getBoundingClientRect] returns it. *)
Record Rect := mkRect {
  rect_left : float;
  rect_top : float;
  rect_width : float;
  rect_height : float
}.

(** [interface Position] *)
Record Position := mkPosition { x : float; y : float }.

Record Dimensions := mkDimensions { width : float; height : float }.

(** The centre of a bounding box, as every script and method computes it:
    [rect.left + rect.width / 2], [rect.top + rect.height / 2]. *)
Definition center (r : Rect) : Position :=
  {| x := (rect_left r + rect_width r / 2)%float;
     y := (rect_top r + rect_height r / 2)%float |}.

Local Unset Elimination Schemes.

(** A DOM element, with what the scripts read of it.  [textContent] of an
    [Element] is always a string, so the scripts' [?.] never short-cuts. *)
Inductive Element :=
  mkElement (tagName id className textContent : string)
            (boundingClientRect : Rect) (children : list Element).

Definition tagName (e : Element) : string :=
  match e with mkElement t _ _ _ _ _ => t end.
Definition id (e : Element) : string :=
  match e with mkElement _ i _ _ _ _ => i end.
Definition className (e : Element) : string :=
  match e with mkElement _ _ c _ _ _ => c end.
Definition textContent (e : Element) : string :=
  match e with mkElement _ _ _ t _ _ => t end.
Definition getBoundingClientRect (e : Element) : Rect :=
  match e with mkElement _ _ _ _ r _ => r end.
Definition children (e : Element) : list Element :=
  match e with mkElement _ _ _ _ _ c => c end.

Local Set Elimination Schemes.

Inductive ReadyState := loading | interactive | complete.

(** The document a script runs against.  [readyEvents] are the
    [readystatechange] events still to come, each with the delay in
    milliseconds since the previous one (or since the script started) and
    the ready-state the document has when it fires. *)
Record Page := mkPage {
  querySelectorAll : string -> list Element;
  title : string;
  location_href : string;
  body : Element;
  readyState : ReadyState;
  readyEvents : list (N * ReadyState)
}.

(** [document.querySelector]: the first match, if any. *)
Definition querySelector (pg : Page) (selector : string) : option Element :=
  head (querySelectorAll pg selector).

(** [interface CrawlerAgentOptions] *)
Inductive BrowserKind := playwright | puppeteer.

Record CrawlerAgentOptions := mkCrawlerAgentOptions {
  opt_browser : option BrowserKind;
  opt_headless : option bool;
  opt_timeout : option float;
  opt_userAgent : option string
}.

(** The value of [result[key]] in [extractData]: [string | string[] | null]. *)
Inductive Extracted :=
| ex_null
| ex_string (s : string)
| ex_array (l : list string).

Local Unset Elimination Schemes.

(** The node [getBasicDOMStructure] builds. *)
Inductive DomNode :=
  mkDomNode (tag : string) (node_id node_className node_text : option string)
            (node_children : option (list DomNode)).

Local Set Elimination Schemes.

(** The context object handed to the reasoning service. *)
Record PageContext := mkPageContext {
  screenshotBase64 : string;
  size : Dimensions;
  tree : option DomNode;
  ctx_title : string;
  ctx_url : string
}.

(** A step of a plan.  The plan is [any] in the source; a step carries the
    fields [executePlan] reads ([type], [params] and, in [params], [element],
    [text], [selector] and [optional]) and the step-level [optional] that the
    plan format of the specification lists, which [executePlan] never reads. *)
Record Params := mkParams {
  element : option string;
  text : option string;
  selector : option string;
  optional : option bool
}.

Record PlanStep := mkPlanStep {
  type : string;
  params : option Params;
  step_optional : option bool
}.

Record Plan := mkPlan { actions : option (list PlanStep) }.

(** The record the fall-back script of [locateElement] builds per match. *)
Record Queried := mkQueried {
  el_tagName : string;
  el_text : string;
  el_rect : Rect
}.

(** What [locateElement] returns as [element]: the record of the fall-back
    script, or the service's own descriptor. *)
Inductive ElementInfo :=
| queried (q : Queried)
| recognised (descriptor : string).

(** The [data] of an action result, one constructor per shape the agents
    build. *)
Inductive Data :=
| data_url (url : string)
| data_texts (texts : list string)
| data_extracted (result : gmap string Extracted)
| data_screenshot (screenshot : Buffer)
| data_plan (plan : Plan)
| data_located (el : ElementInfo) (rect : option Rect) (position : option Position)
| data_clicked (el : ElementInfo)
| data_inputted (txt : option string) (el : ElementInfo).

(** [interface AgentActionResult], over the type of its [data]. *)
Record AgentActionResult (D : Type) := mkResult {
  success : bool;
  error : option string;
  data : option D
}.
Arguments mkResult {D} _ _ _.
Arguments success {D} _.
Arguments error {D} _.
Arguments data {D} _.

Definition succeed {D} : AgentActionResult D :=
  {| success := true; error := None; data := None |}.
Definition succeed_with {D} (d : D) : AgentActionResult D :=
  {| success := true; error := None; data := Some d |}.
Definition fail {D} (msg : string) : AgentActionResult D :=
  {| success := false; error := Some msg; data := None |}.

(** One entry of [data.actions] in the result of [executePlan]. *)
Record StepResult := mkStepResult {
  res_type : string;
  res_success : bool;
  res_data : option Data;
  res_error : option string
}.

Record PlanData := mkPlanData { data_actions : list StepResult }.

(** ** The driver: [interface BrowserInterface] *)

Inductive Outcome (A : Type) :=
| Returns (a : A)
| Throws (message : string).
Arguments Returns {A} _.
Arguments Throws {A} _.

Inductive Direction := dir_up | dir_down | dir_left | dir_right.

(** The scripts the agents pass to [browser.evaluate], one name per script
    literal of the source, with the arguments passed along. *)
Inductive Script :=
| script_setUserAgent (userAgent : string)
| script_locationHref
| script_documentTitle
| script_scrollIntoView (sel : string)
| script_position (sel : string)
| script_focus (sel : string)
| script_extractText (sel : string)
| script_extractData (spec : gmap string string)
| script_waitForReady (timeout : option float)
| script_domStructure
| script_queryElements (sel : string).

(** The methods of the interface.  [evaluate] yields the page the script
    then runs against; [has_page] is ['page' in browser]. *)
Class BrowserInterface (B : Type) := {
  has_page : B -> bool;
  browser_initialize : option bool -> B -> Outcome unit * B;
  browser_goto : string -> B -> Outcome unit * B;
  browser_close : B -> Outcome unit * B;
  browser_screenshot : B -> Outcome Buffer * B;
  browser_evaluate : Script -> B -> Outcome Page * B;
  browser_getPageDimensions : B -> Outcome Dimensions * B;
  browser_clickAt : float -> float -> B -> Outcome unit * B;
  browser_type : option string -> B -> Outcome unit * B;
  browser_press : string -> B -> Outcome unit * B;
  browser_scroll : Direction -> option float -> B -> Outcome unit * B
}.

(** A call to the driver, as logged. *)
Inductive DriverCall :=
| call_initialize (headless : option bool)
| call_goto (url : string)
| call_close
| call_screenshot
| call_evaluate (script : Script)
| call_getPageDimensions
| call_clickAt (px py : float)
| call_type (txt : option string)
| call_press (key : string)
| call_scroll (direction : Direction) (distance : option float).

(** ** The reasoning service: [@midscene/core]

    Both capabilities are feature-detected with [typeof ... === 'function']:
    [None] is an absent capability.  A present one returns or throws. *)

Record ParseResult := mkParseResult { elements : option (list string) }.

Record LocateResult := mkLocateResult {
  parseResult : option ParseResult;
  locate_rect : option Rect
}.

Record MidsceneCore := mkMidsceneCore {
  core_plan : option (string -> PageContext -> Outcome Plan);
  AiLocateElement : option (PageContext -> option string -> Outcome LocateResult)
}.

(** ** The file system and the agent's state *)

(** What [fs] shows of the disk: the directories that exist, the files
    written so far (oldest first), and the paths at which [mkdirSync] and
    [writeFileSync] throw. *)
Record Disk := mkDisk {
  directories : list string;
  written : list (string * Buffer);
  refused : string -> option string
}.

(** [interface AIEnhancedAgentOptions], the fields the agent reads, as the
    agent keeps them in [this.aiOptions]. *)
Record AIEnhancedAgentOptions := mkAIEnhancedAgentOptions {
  base_options : CrawlerAgentOptions;
  outputDir : option string;
  useVisualUnderstanding : option bool;
  useAutonomousPlanning : option bool
}.

(** The same interface as the object a caller gives to the constructor:
    the fields of the base agent, which are only read, and the keys of the
    fields the spread copies. *)
Record OptionsObject := mkOptionsObject {
  given_base : CrawlerAgentOptions;
  given_outputDir : JS.Key string;
  given_useVisualUnderstanding : JS.Key bool;
  given_useAutonomousPlanning : JS.Key bool
}.

(** The agent object: the fields of [CrawlerAgent], those [AIEnhancedAgent]
    adds, and what the outside observes of it ([calls], the log of driver
    calls, oldest first; [elapsed], the milliseconds spent suspended in
    in-page waits; [disk]). *)
Record Agent (B : Type) := mkAgent {
  browser : B;
  options : CrawlerAgentOptions;
  isInitialized : bool;
  aiOptions : AIEnhancedAgentOptions;
  screenshotCounter : N;
  calls : list DriverCall;
  elapsed : N;
  disk : Disk
}.
Arguments mkAgent {B} _ _ _ _ _ _ _ _.
Arguments browser {B} _.
Arguments options {B} _.
Arguments isInitialized {B} _.
Arguments aiOptions {B} _.
Arguments screenshotCounter {B} _.
Arguments calls {B} _.
Arguments elapsed {B} _.
Arguments disk {B} _.

(** ** Asynchronous methods as state transformers *)

Definition M (B A : Type) : Type := Agent B -> Outcome A * Agent B.

Definition ret {B A} (a : A) : M B A := fun st => (Returns a, st).

Definition throw {B A} (msg : string) : M B A := fun st => (Throws msg, st).

Definition bind {B A C} (m : M B A) (k : A -> M B C) : M B C :=
  fun st =>
    match m st with
    | (Returns a, st') => k a st'
    | (Throws msg, st') => (Throws msg, st')
    end.

(** [try { m } catch (error) { handler(message of error) }] *)
Definition try_catch {B A} (m : M B A) (handler : string -> M B A) : M B A :=
  fun st =>
    match m st with
    | (Returns a, st') => (Returns a, st')
    | (Throws msg, st') => handler msg st'
    end.

Definition get {B} : M B (Agent B) := fun st => (Returns st, st).

Definition modify {B} (f : Agent B -> Agent B) : M B unit :=
  fun st => (Returns tt, f st).

Declare Scope agent_scope.
Delimit Scope agent_scope with agent.
Notation "x <- m ;; k" := (bind m (fun x => k))
  (at level 100, m at next level, right associativity) : agent_scope.
Notation "m ;; k" := (bind m (fun _ => k))
  (at level 100, right associativity) : agent_scope.
Local Open Scope agent_scope.

Definition set_browser {B} (b : B) (st : Agent B) : Agent B :=
  mkAgent b (options st) (isInitialized st) (aiOptions st)
          (screenshotCounter st) (calls st) (elapsed st) (disk st).
Definition set_isInitialized {B} (v : bool) (st : Agent B) : Agent B :=
  mkAgent (browser st) (options st) v (aiOptions st)
          (screenshotCounter st) (calls st) (elapsed st) (disk st).
Definition set_screenshotCounter {B} (n : N) (st : Agent B) : Agent B :=
  mkAgent (browser st) (options st) (isInitialized st) (aiOptions st)
          n (calls st) (elapsed st) (disk st).
Definition log_call {B} (c : DriverCall) (st : Agent B) : Agent B :=
  mkAgent (browser st) (options st) (isInitialized st) (aiOptions st)
          (screenshotCounter st) (calls st ++ [c]) (elapsed st) (disk st).
Definition add_elapsed {B} (t : N) (st : Agent B) : Agent B :=
  mkAgent (browser st) (options st) (isInitialized st) (aiOptions st)
          (screenshotCounter st) (calls st) (elapsed st + t) (disk st).
Definition set_disk {B} (d : Disk) (st : Agent B) : Agent B :=
  mkAgent (browser st) (options st) (isInitialized st) (aiOptions st)
          (screenshotCounter st) (calls st) (elapsed st) d.

(** [await this.browser.method(...)]: the call is logged, then the driver
    runs on its own state. *)
Definition invoke {B A} (c : DriverCall) (method : B -> Outcome A * B) : M B A :=
  fun st =>
    let st1 := log_call c st in
    let '(r, b') := method (browser st1) in
    (r, set_browser b' st1).

(** The promise of an in-page wait settles after [t] milliseconds. *)
Definition suspend {B} (t : N) : M B unit := modify (add_elapsed t).

(** ** The in-page scripts *)

Module Scripts.

(** [clickElement], first script: does the element exist (it is then
    scrolled into view). *)
Definition scrollIntoView (sel : string) (pg : Page) : bool :=
  match querySelector pg sel with
  | None => false
  | Some _ => true
  end.

(** [clickElement], second script: the centre of the element's box. *)
Definition position (sel : string) (pg : Page) : option Position :=
  match querySelector pg sel with
  | None => None
  | Some el => Some (center (getBoundingClientRect el))
  end.

(** [typeText]: does the element exist (it is then focused). *)
Definition focus (sel : string) (pg : Page) : bool :=
  match querySelector pg sel with
  | None => false
  | Some _ => true
  end.

(** [elements.map(el => el.textContent?.trim()).filter(Boolean)] *)
Definition trimmedTexts (els : list Element) : list string :=
  filter (fun s => Is_true (JS.truthy s)) (map (fun el => JS.trim (textContent el)) els).

(** [extractText] *)
Definition extractText (sel : string) (pg : Page) : list string :=
  trimmedTexts (querySelectorAll pg sel).

(** [extractData], the body of the loop: the value stored at one key. *)
Definition resolve (pg : Page) (sel : string) : Extracted :=
  match querySelectorAll pg sel with
  | [] => ex_null
  | [el] =>
      let s := JS.trim (textContent el) in
      if JS.truthy s then ex_string s else ex_null
  | els => ex_array (trimmedTexts els)
  end.

(** [extractData]: [result = {}], then one assignment [result[key] = ...]
    per entry of [Object.entries(spec)].  [result] is a plain object: the
    assignment to [__proto__] goes to the setter it inherits and adds no
    key, every other assignment adds or replaces the key. *)
Definition store (pg : Page) (result : gmap string Extracted)
    (entry : string * string) : gmap string Extracted :=
  let '(key, sel) := entry in
  if String.eqb key "__proto__" then result
  else <[key := resolve pg sel]> result.

Definition extractData (spec : gmap string string) (pg : Page) : gmap string Extracted :=
  foldl (store pg) ∅ (map_to_list spec).

(** [waitForNavigation]: the listener and the timer race.  [remaining] is
    the time left on the timer; the result is the value the promise
    resolves with and the time it took from here.  An event that falls on
    the instant the timer fires is taken to come after it. *)
Fixpoint awaitReady (events : list (N * ReadyState)) (remaining : N) : bool * N :=
  match events with
  | [] => (false, remaining)
  | (delay, state) :: rest =>
      if remaining <=? delay then (false, remaining)
      else match state with
           | complete => (true, delay)
           | _ => let '(v, t) := awaitReady rest (remaining - delay) in (v, delay + t)
           end
  end.

(** The timer of the script, [setTimeout(..., timeout || 30000)], in
    milliseconds.  The delay of a timer is a signed 32-bit integer
    ([ToInt32] of the number given), and a negative delay counts as [0]. *)
Definition timerDelay (timeout : option float) : N :=
  Z.to_N (JS.toInt32 (default 30000%float (JS.or_number timeout (Some 30000%float)))).

Definition waitForReady (timeout : option float) (pg : Page) : bool * N :=
  match readyState pg with
  | complete => (true, 0)
  | _ => awaitReady (readyEvents pg) (timerDelay timeout)
  end.

End Scripts.

(** ** [class CrawlerAgent] *)

Module CrawlerAgent.

Section Methods.

Context {B : Type} `{BrowserInterface B}.

Definition Result : Type := AgentActionResult Data.

(** [constructor]: the defaults of the options.  The driver [b] is the one
    [createBrowser] built; the AI fields are those of a plain agent. *)
Definition constructor (opts : CrawlerAgentOptions) (b : B) (d : Disk) : Agent B :=
  let options' :=
    {| opt_browser := Some (default playwright (opt_browser opts));
       opt_headless := Some (JS.nullish_bool (opt_headless opts) false);
       opt_timeout := JS.or_number (opt_timeout opts) (Some 30000%float);
       opt_userAgent := opt_userAgent opts |} in
  {| browser := b;
     options := options';
     isInitialized := false;
     aiOptions := {| base_options := opts; outputDir := None;
                     useVisualUnderstanding := None;
                     useAutonomousPlanning := None |};
     screenshotCounter := 0;
     calls := [];
     elapsed := 0;
     disk := d |}.

(** [await this.browser.evaluate(script, ...args)]: the script's value is
    computed by [body] from the page the driver evaluates it in. *)
Definition evaluate {T} (s : Script) (body : Page -> T) : M B T :=
  pg <- invoke (call_evaluate s) (browser_evaluate s) ;;
  ret (body pg).

(** The guard every action starts with. *)
Definition notInitialized : Result := fail "Browser not initialized".

Definition guarded (m : M B Result) : M B Result :=
  st <- get ;;
  if negb (isInitialized st) then ret notInitialized else m.

Definition initialize : M B Result :=
  try_catch
    (st <- get ;;
     invoke (call_initialize (opt_headless (options st)))
            (browser_initialize (opt_headless (options st))) ;;
     st <- get ;;
     (if JS.truthy_opt (opt_userAgent (options st)) && has_page (browser st)
      then evaluate (script_setUserAgent (JS.show (opt_userAgent (options st))))
                    (fun _ => tt)
      else ret tt) ;;
     modify (set_isInitialized true) ;;
     ret succeed)
    (fun msg => ret (fail ("Failed to initialize browser: " +:+ msg))).

Definition getCurrentUrl : M B string :=
  evaluate script_locationHref location_href.

Definition getPageTitle : M B string :=
  evaluate script_documentTitle title.

Definition navigateTo (url : string) : M B Result :=
  guarded
    (try_catch
       (invoke (call_goto url) (browser_goto url) ;;
        current <- getCurrentUrl ;;
        ret (succeed_with (data_url current)))
       (fun msg => ret (fail ("Failed to navigate to " +:+ url +:+ ": " +:+ msg)))).

Definition clickElement (sel : string) : M B Result :=
  guarded
    (try_catch
       (elementExists <- evaluate (script_scrollIntoView sel) (Scripts.scrollIntoView sel) ;;
        if negb elementExists
        then ret (fail ("Element with selector " +:+ JS.quoted sel +:+ " not found"))
        else
          pos <- evaluate (script_position sel) (Scripts.position sel) ;;
          match pos with
          | None =>
              ret (fail ("Could not determine position of element with selector "
                         +:+ JS.quoted sel))
          | Some p =>
              invoke (call_clickAt (x p) (y p)) (browser_clickAt (x p) (y p)) ;;
              ret succeed
          end)
       (fun msg => ret (fail ("Failed to click element with selector "
                              +:+ JS.quoted sel +:+ ": " +:+ msg)))).

Definition typeText (txt : string) (sel : option string) : M B Result :=
  guarded
    (try_catch
       (found <-
          (if JS.truthy_opt sel
           then evaluate (script_focus (JS.show sel)) (Scripts.focus (JS.show sel))
           else ret true) ;;
        if negb found
        then ret (fail ("Element with selector " +:+ JS.quoted (JS.show sel) +:+ " not found"))
        else
          invoke (call_type (Some txt)) (browser_type (Some txt)) ;;
          ret succeed)
       (fun msg => ret (fail ("Failed to type text: " +:+ msg)))).

Definition pressKey (key : string) : M B Result :=
  guarded
    (try_catch
       (invoke (call_press key) (browser_press key) ;;
        ret succeed)
       (fun msg => ret (fail ("Failed to press key " +:+ JS.quoted key +:+ ": " +:+ msg)))).

Definition show_direction (d : Direction) : string :=
  match d with
  | dir_up => "up" | dir_down => "down" | dir_left => "left" | dir_right => "right"
  end.

Definition scroll (direction : Direction) (distance : option float) : M B Result :=
  guarded
    (try_catch
       (invoke (call_scroll direction distance) (browser_scroll direction distance) ;;
        ret succeed)
       (fun msg => ret (fail ("Failed to scroll " +:+ show_direction direction
                              +:+ ": " +:+ msg)))).

Definition extractText (sel : string) : M B Result :=
  guarded
    (try_catch
       (texts <- evaluate (script_extractText sel) (Scripts.extractText sel) ;;
        ret (succeed_with (data_texts texts)))
       (fun msg => ret (fail ("Failed to extract text from " +:+ JS.quoted sel
                              +:+ ": " +:+ msg)))).

Definition extractData (extractionSpec : gmap string string) : M B Result :=
  guarded
    (try_catch
       (result <- evaluate (script_extractData extractionSpec)
                           (Scripts.extractData extractionSpec) ;;
        ret (succeed_with (data_extracted result)))
       (fun msg => ret (fail ("Failed to extract data: " +:+ msg)))).

Definition takeScreenshot : M B Result :=
  guarded
    (try_catch
       (screenshot <- invoke call_screenshot browser_screenshot ;;
        ret (succeed_with (data_screenshot screenshot)))
       (fun msg => ret (fail ("Failed to take screenshot: " +:+ msg)))).

(** The argument the script receives: [timeout || this.options.timeout]. *)
Definition waitArgument (timeout : option float) (st : Agent B) : option float :=
  JS.or_number timeout (opt_timeout (options st)).

Definition waitForNavigation (timeout : option float) : M B Result :=
  guarded
    (try_catch
       (st <- get ;;
        let arg := waitArgument timeout st in
        settled <- evaluate (script_waitForReady arg) (Scripts.waitForReady arg) ;;
        suspend (snd settled) ;;
        ret succeed)
       (fun msg => ret (fail ("Failed to wait for navigation: " +:+ msg)))).

Definition close : M B unit :=
  st <- get ;;
  if isInitialized st
  then
    invoke call_close browser_close ;;
    modify (set_isInitialized false)
  else ret tt.

(** The actions of the agent: the public methods that answer with an
    action result and start with the guard. *)
Inductive Action :=
| act_navigateTo (url : string)
| act_clickElement (sel : string)
| act_typeText (txt : string) (sel : option string)
| act_pressKey (key : string)
| act_scroll (direction : Direction) (distance : option float)
| act_extractText (sel : string)
| act_extractData (extractionSpec : gmap string string)
| act_takeScreenshot
| act_waitForNavigation (timeout : option float).

Definition perform (a : Action) : M B Result :=
  match a with
  | act_navigateTo url => navigateTo url
  | act_clickElement sel => clickElement sel
  | act_typeText txt sel => typeText txt sel
  | act_pressKey key => pressKey key
  | act_scroll direction distance => scroll direction distance
  | act_extractText sel => extractText sel
  | act_extractData extractionSpec => extractData extractionSpec
  | act_takeScreenshot => takeScreenshot
  | act_waitForNavigation timeout => waitForNavigation timeout
  end.

End Methods.

End CrawlerAgent.

(** ** [fs], [path] and [Buffer] as the agent uses them *)

Module Node.

Definition existsSync (p : string) (d : Disk) : bool :=
  bool_decide (p ∈ directories d).

(** [fs.mkdirSync(p, { recursive: true })] *)
Definition mkdirSync (p : string) (d : Disk) : Outcome unit * Disk :=
  match refused d p with
  | Some msg => (Throws msg, d)
  | None => (Returns tt, mkDisk (directories d ++ [p]) (written d) (refused d))
  end.

Definition writeFileSync (p : string) (content : Buffer) (d : Disk) : Outcome unit * Disk :=
  match refused d p with
  | Some msg => (Throws msg, d)
  | None => (Returns tt, mkDisk (directories d) (written d ++ [(p, content)]) (refused d))
  end.

(** The segments of a path, between its slashes. *)
Fixpoint segments (p : string) : list string :=
  match p with
  | EmptyString => [EmptyString]
  | String c rest =>
      if Ascii.eqb c "/" then EmptyString :: segments rest
      else match segments rest with
           | seg :: segs => String c seg :: segs
           | [] => [String c EmptyString]
           end
  end.

(** [normalizeString], one segment: [kept] holds the segments kept so far,
    the last one first.  An empty segment and [.] are dropped, [..] takes
    the last segment away when there is one that is not [..] itself, and is
    kept otherwise where the path may climb above its start. *)
Definition normalizeSegment (allowAboveRoot : bool) (kept : list string)
    (seg : string) : list string :=
  if String.eqb seg "" || String.eqb seg "." then kept
  else if String.eqb seg ".." then
    match kept with
    | top :: below =>
        if String.eqb top ".."
        then (if allowAboveRoot then seg :: kept else kept)
        else below
    | [] => if allowAboveRoot then [seg] else []
    end
  else seg :: kept.

Fixpoint joinSegments (kept : list string) : string :=
  match kept with
  | [] => ""
  | [seg] => seg
  | seg :: below => joinSegments below +:+ "/" +:+ seg
  end.

Definition normalizeString (p : string) (allowAboveRoot : bool) : string :=
  joinSegments (foldl (normalizeSegment allowAboveRoot) [] (segments p)).

Definition isAbsolute (p : string) : bool :=
  match p with
  | String c _ => Ascii.eqb c "/"
  | EmptyString => false
  end.

Fixpoint trailingSeparator (p : string) : bool :=
  match p with
  | EmptyString => false
  | String c EmptyString => Ascii.eqb c "/"
  | String _ rest => trailingSeparator rest
  end.

(** [path.normalize(p)] *)
Definition normalize (p : string) : string :=
  if String.eqb p "" then "."
  else
    let q := normalizeString p (negb (isAbsolute p)) in
    if String.eqb q ""
    then (if isAbsolute p then "/" else if trailingSeparator p then "./" else ".")
    else (if isAbsolute p then "/" else "") +:+ q
         +:+ (if trailingSeparator p then "/" else "").

(** [path.join(a, b)]: the arguments that are not empty with a slash
    between them, normalized; [.] when both are empty. *)
Definition join (a b : string) : string :=
  if String.eqb a "" then (if String.eqb b "" then "." else normalize b)
  else if String.eqb b "" then normalize a
  else normalize (a +:+ "/" +:+ b).

Definition base64_alphabet : string :=
  "ABCDEFGHIJKLMNOPQRSTUVWXYZabcdefghijklmnopqrstuvwxyz0123456789+/".

Definition base64_digit (n : N) : ascii :=
  default "="%char (String.get (N.to_nat (n mod 64)) base64_alphabet).

(** [buffer.toString('base64')] *)
Fixpoint base64 (bytes : list Byte.byte) : string :=
  match bytes with
  | [] => ""
  | [a] =>
      let n := Byte.to_N a * 65536 in
      String (base64_digit (n / 262144)) (String (base64_digit (n / 4096)) "==")
  | [a; b] =>
      let n := Byte.to_N a * 65536 + Byte.to_N b * 256 in
      String (base64_digit (n / 262144)) (String (base64_digit (n / 4096))
        (String (base64_digit (n / 64)) "="))
  | a :: b :: c :: rest =>
      let n := Byte.to_N a * 65536 + Byte.to_N b * 256 + Byte.to_N c in
      String (base64_digit (n / 262144)) (String (base64_digit (n / 4096))
        (String (base64_digit (n / 64)) (String (base64_digit n) (base64 rest))))
  end.

End Node.

(** ** [class AIEnhancedAgent extends CrawlerAgent] *)

Module AIEnhancedAgent.

Import CrawlerAgent.

(** [x || undefined] on a string. *)
Definition orUndefined (s : string) : option string :=
  if JS.truthy s then Some s else None.

(** The script of [getPageContext]: [depth > maxDepth] gives [null], and
    the children that gave [null] are filtered out. *)
Fixpoint getBasicDOMStructure (el : Element) (depth maxDepth : nat) : option DomNode :=
  if (maxDepth <? depth)%nat then None
  else
    match el with
    | mkElement tag i cls txt _ kids =>
        let nodes :=
          omap (fun child => getBasicDOMStructure child (S depth) maxDepth) kids in
        Some (mkDomNode (JS.toLowerCase tag)
                        (orUndefined i)
                        (orUndefined cls)
                        (orUndefined (String.substring 0 100 (JS.trim txt)))
                        (match nodes with [] => None | _ => Some nodes end))
    end.

Definition domStructure (pg : Page) : option DomNode :=
  getBasicDOMStructure (body pg) 0 3.

(** The fall-back script of [locateElement]: one record per match. *)
Definition describe (el : Element) : Queried :=
  {| el_tagName := JS.toLowerCase (tagName el);
     el_text := JS.or_string (Some (JS.trim (textContent el))) "";
     el_rect := getBoundingClientRect el |}.

Definition queryElements (sel : string) (pg : Page) : list Queried :=
  map describe (querySelectorAll pg sel).

(** The fall-back of [locateElement]: the selector for a description. *)
Definition heuristicSelector (description : string) : string :=
  if JS.includes (JS.toLowerCase description) "button"
  then "button, [role=" +:+ JS.quoted "button" +:+ "], .btn, a.button"
  else if JS.includes (JS.toLowerCase description) "input"
          || JS.includes (JS.toLowerCase description) "text"
          || JS.includes (JS.toLowerCase description) "field"
  then "input, textarea"
  else if JS.includes (JS.toLowerCase description) "link"
  then "a"
  else "*:contains(" +:+ JS.quoted description +:+ ")".

(** The plan [createPlanForPage] falls back to. *)
Definition mockPlan : Plan :=
  {| actions := Some [
       {| type := "extract";
          params := Some {| element := None; text := None;
                            selector := Some "h1, h2, .content, article";
                            optional := None |};
          step_optional := None |} ] |}.

(** [action.params || {}] *)
Definition noParams : Params :=
  {| element := None; text := None; selector := None; optional := None |}.

(** The file name of a screenshot. *)
Definition screenshotName (now : Z) (counter : N) : string :=
  "screenshot-" +:+ pretty now +:+ "-" +:+ pretty counter +:+ ".jpg".

(** The [TypeError] of reading a property of [undefined]. *)
Definition typeError (property : string) : string :=
  "Cannot read properties of undefined (reading '" +:+ property +:+ "')".

Section Methods.

Context {B : Type} `{BrowserInterface B} (core : MidsceneCore).

Definition lift {A} (f : Disk -> Outcome A * Disk) : M B A :=
  fun st => let '(r, d) := f (disk st) in (r, set_disk d st).

(** The settled promise of a service call. *)
Definition awaited {A} (o : Outcome A) : M B A :=
  match o with
  | Returns a => ret a
  | Throws msg => throw msg
  end.

Definition ensureOutputDirectory (dir : string) (d : Disk) : Disk :=
  if Node.existsSync dir d then d else snd (Node.mkdirSync dir d).

(** [constructor]: the defaults, then [...options] on top of them (a key
    the caller gave wins, also when its value is falsy or [undefined]),
    then the output directory. *)
Definition constructor (opts : OptionsObject) (b : B) (d : Disk) : Agent B :=
  let st := CrawlerAgent.constructor (given_base opts) b d in
  let ai :=
    {| base_options := given_base opts;
       outputDir :=
         JS.spread
           (Some (JS.or_string (JS.read (given_outputDir opts)) "./crawler-ai-output"))
           (given_outputDir opts);
       useVisualUnderstanding :=
         JS.spread
           (Some (JS.nullish_bool (JS.read (given_useVisualUnderstanding opts)) true))
           (given_useVisualUnderstanding opts);
       useAutonomousPlanning :=
         JS.spread
           (Some (JS.nullish_bool (JS.read (given_useAutonomousPlanning opts)) true))
           (given_useAutonomousPlanning opts) |} in
  let d' :=
    if JS.truthy_opt (outputDir ai)
    then ensureOutputDirectory (JS.show (outputDir ai)) d else d in
  mkAgent (browser st) (options st) (isInitialized st) ai 0 (calls st) (elapsed st) d'.

Definition initialize : M B Result :=
  result <- CrawlerAgent.initialize ;;
  if negb (success result) then ret result
  else
    modify (set_screenshotCounter 0) ;;
    ret succeed.

Definition getPageContext : M B PageContext :=
  screenshotResult <- CrawlerAgent.takeScreenshot ;;
  if negb (success screenshotResult)
  then throw ("Failed to take screenshot: " +:+ JS.show (error screenshotResult))
  else
    match data screenshotResult with
    | Some (data_screenshot screenshotData) =>
        dimensions <- invoke call_getPageDimensions browser_getPageDimensions ;;
        title <- CrawlerAgent.getPageTitle ;;
        url <- CrawlerAgent.getCurrentUrl ;;
        documentStructure <- evaluate script_domStructure domStructure ;;
        ret {| screenshotBase64 :=
                 "data:image/jpeg;base64," +:+ Node.base64 screenshotData;
               size := {| width := width dimensions; height := height dimensions |};
               tree := documentStructure;
               ctx_title := title;
               ctx_url := url |}
    | _ => throw (typeError "screenshot")
    end.

(** [saveScreenshot]; [now] is what [Date.now()] reads during the call. *)
Definition saveScreenshot (now : Z) (screenshotData : Buffer) : M B string :=
  st <- get ;;
  if negb (JS.truthy_opt (outputDir (aiOptions st))) then ret ""
  else
    try_catch
      (let screenshotsDir := Node.join (JS.show (outputDir (aiOptions st))) "screenshots" in
       (if negb (Node.existsSync screenshotsDir (disk st))
        then lift (Node.mkdirSync screenshotsDir) else ret tt) ;;
       modify (set_screenshotCounter (screenshotCounter st + 1)) ;;
       let filename := screenshotName now (screenshotCounter st + 1) in
       let filePath := Node.join screenshotsDir filename in
       lift (Node.writeFileSync filePath screenshotData) ;;
       ret filePath)
      (fun _ => ret "").

Definition createPlanForPage (instruction : string) : M B Result :=
  try_catch
    (context <- getPageContext ;;
     match core_plan core with
     | Some plan =>
         planningResult <- awaited (plan instruction context) ;;
         ret (succeed_with (data_plan planningResult))
     | None => ret (succeed_with (data_plan mockPlan))
     end)
    (fun msg => ret (fail ("Failed to create plan: " +:+ msg))).

Definition navigateTo (url : string) : M B Result :=
  result <- CrawlerAgent.navigateTo url ;;
  if negb (success result) then ret result
  else
    st <- get ;;
    (if JS.truthy_bool (useAutonomousPlanning (aiOptions st))
     then try_catch
            (createPlanForPage "Analyze this page and find the most important information" ;;
             ret tt)
            (fun _ => ret tt)
     else ret tt) ;;
    ret result.

(** [locateElement].  The description is a string for a caller of the
    method, and whatever [params.element] holds, possibly [undefined], when
    [executePlan] passes it on. *)
Definition locate (description : option string) : M B Result :=
  try_catch
    (context <- getPageContext ;;
     match AiLocateElement core with
     | Some service =>
         locateResult <- awaited (service context description) ;;
         match parseResult locateResult ≫= elements with
         | Some (el :: _) =>
             match locate_rect locateResult with
             | Some rect =>
                 ret (succeed_with
                        (data_located (recognised el) (Some rect) (Some (center rect))))
             | None => ret (succeed_with (data_located (recognised el) None None))
             end
         | _ => ret (fail ("Could not find element: " +:+ JS.show description))
         end
     | None =>
         match description with
         | None => throw (typeError "toLowerCase")
         | Some d =>
             let sel := heuristicSelector d in
             els <- evaluate (script_queryElements sel) (queryElements sel) ;;
             match els with
             | [] => ret (fail ("Could not find element: " +:+ d))
             | el :: _ =>
                 let rect := el_rect el in
                 ret (succeed_with
                        (data_located (queried el) (Some rect) (Some (center rect))))
             end
         end
     end)
    (fun msg => ret (fail ("Failed to locate element "
                           +:+ JS.quoted (JS.show description) +:+ ": " +:+ msg))).

Definition locateElement (description : string) : M B Result :=
  locate (Some description).

(** [clickOnElement], on the same kind of description as [locate]. *)
Definition click (description : option string) : M B Result :=
  try_catch
    (locateResult <- locate description ;;
     if negb (success locateResult) then ret locateResult
     else
       match data locateResult with
       | Some (data_located el _ (Some p)) =>
           invoke (call_clickAt (x p) (y p)) (browser_clickAt (x p) (y p)) ;;
           ret (succeed_with (data_clicked el))
       | Some (data_located _ _ None) =>
           ret (fail ("Located element " +:+ JS.quoted (JS.show description)
                      +:+ " but could not determine position for clicking"))
       | _ => throw (typeError "position")
       end)
    (fun msg => ret (fail ("Failed to click on element "
                           +:+ JS.quoted (JS.show description) +:+ ": " +:+ msg))).

Definition clickOnElement (description : string) : M B Result :=
  click (Some description).

(** [inputTextIntoElement], on the same kind of arguments. *)
Definition input (description txt : option string) : M B Result :=
  try_catch
    (locateResult <- locate description ;;
     if negb (success locateResult) then ret locateResult
     else
       match data locateResult with
       | Some (data_located el _ (Some p)) =>
           invoke (call_clickAt (x p) (y p)) (browser_clickAt (x p) (y p)) ;;
           invoke (call_type txt) (browser_type txt) ;;
           ret (succeed_with (data_inputted txt el))
       | Some (data_located _ _ None) =>
           ret (fail ("Located element " +:+ JS.quoted (JS.show description)
                      +:+ " but could not determine position for clicking"))
       | _ => throw (typeError "position")
       end)
    (fun msg => ret (fail ("Failed to input text into element "
                           +:+ JS.quoted (JS.show description) +:+ ": " +:+ msg))).

Definition inputTextIntoElement (description txt : string) : M B Result :=
  input (Some description) (Some txt).

(** The entry [executePlan] pushes for the result of an action. *)
Definition entry (ty : string) (r : Result) : StepResult :=
  {| res_type := ty; res_success := success r;
     res_data := data r; res_error := error r |}.

(** [executePlan], the [switch] on the type of one step. *)
Definition executeStep (action : PlanStep) : M B StepResult :=
  let actionParams := default noParams (params action) in
  if String.eqb (type action) "click" then
    clickResult <- click (element actionParams) ;;
    ret (entry "click" clickResult)
  else if String.eqb (type action) "input" then
    inputResult <- input (element actionParams) (text actionParams) ;;
    ret (entry "input" inputResult)
  else if String.eqb (type action) "extract" then
    extractResult <- CrawlerAgent.extractText (JS.or_string (selector actionParams) "body") ;;
    ret (entry "extract" extractResult)
  else
    ret {| res_type := type action; res_success := false; res_data := None;
           res_error := Some ("Unsupported action type: " +:+ type action) |}.

(** Does the loop [break] after this step: it failed and
    [actionParams.optional] is not truthy. *)
Definition stopsAfter (action : PlanStep) (r : StepResult) : bool :=
  negb (res_success r)
  && negb (JS.truthy_bool (optional (default noParams (params action)))).

(** [executePlan], the loop over [actions]; [results] is the array built so
    far. *)
Fixpoint executeActions (todo : list PlanStep) (results : list StepResult)
  : M B (list StepResult) :=
  match todo with
  | [] => ret results
  | action :: rest =>
      r <- executeStep action ;;
      if stopsAfter action r then ret (results ++ [r])%list
      else executeActions rest (results ++ [r])%list
  end.

Definition executePlan (plan : Plan) : M B (AgentActionResult PlanData) :=
  try_catch
    (results <- executeActions (default [] (actions plan)) [] ;;
     ret {| success := forallb res_success results;
            error := None;
            data := Some {| data_actions := results |} |})
    (fun msg => ret (fail ("Failed to execute plan: " +:+ msg))).

Definition close : M B unit := CrawlerAgent.close.

(** The actions on this class: [navigateTo] is overridden, the others are
    inherited. *)
Definition perform (a : Action) : M B Result :=
  match a with
  | act_navigateTo url => navigateTo url
  | _ => CrawlerAgent.perform a
  end.

(** Every method of the class, with its arguments: a call an owner of the
    agent can make ([saveScreenshot] is private to the class, and comes
    with the clock reading of its call). *)
Inductive Operation :=
| op_initialize
| op_action (a : Action)
| op_getCurrentUrl
| op_getPageTitle
| op_createPlanForPage (instruction : string)
| op_locateElement (description : string)
| op_clickOnElement (description : string)
| op_inputTextIntoElement (description txt : string)
| op_executePlan (plan : Plan)
| op_saveScreenshot (now : Z) (screenshotData : Buffer)
| op_close.

(** The state an operation leaves the agent in, whether it returns or
    throws. *)
Definition after (op : Operation) (st : Agent B) : Agent B :=
  match op with
  | op_initialize => snd (initialize st)
  | op_action a => snd (perform a st)
  | op_getCurrentUrl => snd (CrawlerAgent.getCurrentUrl st)
  | op_getPageTitle => snd (CrawlerAgent.getPageTitle st)
  | op_createPlanForPage instruction => snd (createPlanForPage instruction st)
  | op_locateElement description => snd (locateElement description st)
  | op_clickOnElement description => snd (clickOnElement description st)
  | op_inputTextIntoElement description txt =>
      snd (inputTextIntoElement description txt st)
  | op_executePlan plan => snd (executePlan plan st)
  | op_saveScreenshot now screenshotData => snd (saveScreenshot now screenshotData st)
  | op_close => snd (close st)
  end.

(** The state after a sequence of operations, performed in order. *)
Definition afterAll (ops : list Operation) (st : Agent B) : Agent B :=
  foldl (fun s op => after op s) st ops.

(** [executePlan] without the [break]: every step is executed, in order.
    The reference the short-circuit of [executeActions] is compared with. *)
Fixpoint executeEvery (todo : list PlanStep) (st : Agent B)
  : list StepResult * Agent B :=
  match todo with
  | [] => ([], st)
  | action :: rest =>
      match executeStep action st with
      | (Returns r, st') =>
          let '(rs, st'') := executeEvery rest st' in (r :: rs, st'')
      | (Throws _, st') => ([], st')
      end
  end.

End Methods.

End AIEnhancedAgent.

(** ** A scripted driver

    A driver for examples: it serves one fixed page, and throws at the calls
    [failing] names. *)

Record Scripted := mkScripted {
  served : Page;
  shot : Buffer;
  viewport : Dimensions;
  failing : DriverCall -> option string
}.

Definition respond {A} (c : DriverCall) (a : A) (b : Scripted) : Outcome A * Scripted :=
  match failing b c with
  | Some msg => (Throws msg, b)
  | None => (Returns a, b)
  end.

#[export] Instance Scripted_interface : BrowserInterface Scripted := {|
  has_page := fun _ => true;
  browser_initialize := fun headless => respond (call_initialize headless) tt;
  browser_goto := fun url => respond (call_goto url) tt;
  browser_close := respond call_close tt;
  browser_screenshot := fun b => respond call_screenshot (shot b) b;
  browser_evaluate := fun s b => respond (call_evaluate s) (served b) b;
  browser_getPageDimensions := fun b => respond call_getPageDimensions (viewport b) b;
  browser_clickAt := fun px py => respond (call_clickAt px py) tt;
  browser_type := fun txt => respond (call_type txt) tt;
  browser_press := fun key => respond (call_press key) tt;
  browser_scroll := fun direction distance => respond (call_scroll direction distance) tt
|}.

Module Fixture.

Definition box (l t w h : float) : Rect :=
  {| rect_left := l; rect_top := t; rect_width := w; rect_height := h |}.

Definition searchInput : Element :=
  mkElement "INPUT" "q" "" "" (box 10 10 200 30) [].

Definition searchButton : Element :=
  mkElement "BUTTON" "" "" " Search " (box 220 10 80 30) [].

(** A paragraph that holds white space only. *)
Definition blank : Element :=
  mkElement "P" "" "note" "   " (box 10 50 300 20) [].

Definition heading : Element :=
  mkElement "H1" "" "" "Results" (box 10 80 300 40) [].

Definition documentBody : Element :=
  mkElement "BODY" "" "" " Search    Results" (box 0 0 1280 800)
            [searchInput; searchButton; blank; heading].

(** The selectors of the fixture and what they match. *)
Definition matches (sel : string) : list Element :=
  if String.eqb sel ("button, [role=" +:+ JS.quoted "button" +:+ "], .btn, a.button")
  then [searchButton]
  else if String.eqb sel "input, textarea" then [searchInput]
  else if String.eqb sel "p.note" then [blank]
  else if String.eqb sel "h1" then [heading]
  else if String.eqb sel "p, h1" then [blank; heading]
  else if String.eqb sel "body" then [documentBody]
  else [].

(** A document that stays in [loading]: one [readystatechange] to
    [interactive] after 40 ms, and none to [complete]. *)
Definition page : Page :=
  {| querySelectorAll := matches;
     title := "Search";
     location_href := "http://localhost/search";
     body := documentBody;
     readyState := loading;
     readyEvents := [(40, interactive)] |}.

Definition healthy : Scripted :=
  {| served := page; shot := [Byte.x01; Byte.x02; Byte.x03];
     viewport := {| width := 1280; height := 800 |};
     failing := fun _ => None |}.

(** The same driver, whose [screenshot] throws. *)
Definition blind : Scripted :=
  {| served := page; shot := [];
     viewport := {| width := 1280; height := 800 |};
     failing := fun c => match c with
                         | call_screenshot => Some "Target closed"
                         | _ => None
                         end |}.

(** A driver that does not start. *)
Definition dead : Scripted :=
  {| served := page; shot := [];
     viewport := {| width := 1280; height := 800 |};
     failing := fun c => match c with
                         | call_initialize _ => Some "Executable not found"
                         | _ => None
                         end |}.

Definition emptyDisk : Disk :=
  {| directories := []; written := []; refused := fun _ => None |}.

Definition noOptions : OptionsObject :=
  {| given_base := {| opt_browser := None; opt_headless := None;
                      opt_timeout := None; opt_userAgent := None |};
     given_outputDir := JS.absent;
     given_useVisualUnderstanding := JS.absent;
     given_useAutonomousPlanning := JS.given false |}.

(** The reasoning service with neither capability. *)
Definition noService : MidsceneCore :=
  {| core_plan := None; AiLocateElement := None |}.

(** A reasoning service whose planning capability is present and throws. *)
Definition failingService : MidsceneCore :=
  {| core_plan := Some (fun _ _ => Throws "model unavailable");
     AiLocateElement := None |}.

(** A freshly constructed agent on the healthy driver. *)
Definition fresh : Agent Scripted :=
  AIEnhancedAgent.constructor noOptions healthy emptyDisk.

(** The same agent after a successful [initialize]. *)
Definition ready : Agent Scripted :=
  snd (AIEnhancedAgent.initialize fresh).

(** An initialized agent on the driver whose [screenshot] throws. *)
Definition sightless : Agent Scripted :=
  snd (AIEnhancedAgent.initialize
         (AIEnhancedAgent.constructor noOptions blind emptyDisk)).

(** An agent on the driver that does not start. *)
Definition stranded : Agent Scripted :=
  AIEnhancedAgent.constructor noOptions dead emptyDisk.

End Fixture.

(** ** Vocabulary of the statements *)

(** The time, counted from the start of a wait, at which the document's
    ready-state first is [complete]: [0] when it is so already, the sum of
    the delays up to the first [readystatechange] to [complete] otherwise,
    and [None] when there never is one. *)
Fixpoint firstComplete (events : list (N * ReadyState)) : option N :=
  match events with
  | [] => None
  | (delay, complete) :: _ => Some delay
  | (delay, _) :: rest => N.add delay <$> firstComplete rest
  end.

Definition completesAt (pg : Page) : option N :=
  match readyState pg with
  | complete => Some 0
  | _ => firstComplete (readyEvents pg)
  end.

(** The number [n] is exactly the whole number [t]: with [n] of magnitude
    [m * 2 ^ e], [t] is [m * 2 ^ e] for an exponent that is not negative,
    and [t * 2 ^ (- e)] is [m] for a negative one. *)
Definition isWhole (n : float) (t : Z) : Prop :=
  match FloatOps.Prim2SF n with
  | SpecFloat.S754_zero _ => t = 0%Z
  | SpecFloat.S754_finite sign m e =>
      ((if sign then - t else t) * 2 ^ Z.max 0 (- e) = Z.pos m * 2 ^ Z.max 0 e)%Z
  | _ => False
  end.

(** The string [sub] occurs in [s]. *)
Definition occursIn (sub s : string) : Prop :=
  exists before after : string, s = before +:+ sub +:+ after.

(** The description mentions the keyword, in letters of either case. *)
Definition mentions (description keyword : string) : Prop :=
  occursIn keyword (JS.toLowerCase description).

(** A method keeps a relation between the agent before and after it, on
    whatever state it is called and whether it returns or throws. *)
Definition keeps {B A} (R : Agent B -> Agent B -> Prop) (m : M B A) : Prop :=
  forall st, R st (snd (m st)).

(** Once not initialized, still not initialized. *)
Definition staysDown {B} (st st' : Agent B) : Prop :=
  isInitialized st = false -> isInitialized st' = false.

(** The screenshot counter has not gone down, and the options are the
    same. *)
Definition countsUp {B} (st st' : Agent B) : Prop :=
  screenshotCounter st <= screenshotCounter st' /\ aiOptions st' = aiOptions st.

(** The character [c] does not occur in [s]. *)
Fixpoint avoids (c : ascii) (s : string) : bool :=
  match s with
  | EmptyString => true
  | String a s' => negb (Ascii.eqb a c) && avoids c s'
  end.

(** A segment [path.join] keeps as it is: not empty, without a slash, and
    neither [.] nor [..]. *)
Definition plainSegment (seg : string) : bool :=
  avoids "/" seg
  && negb (String.eqb seg "" || String.eqb seg "." || String.eqb seg "..").

(** The segments kept so far, the last one first, are as [normalizeString]
    leaves them: none is empty or [.], and [..] only stands where the path
    may climb, with nothing but [..] below it. *)
Fixpoint stacked (allowAboveRoot : bool) (kept : list string) : Prop :=
  match kept with
  | [] => True
  | seg :: below =>
      avoids "/" seg = true /\ seg <> "" /\ seg <> "."
      /\ (seg = ".." -> allowAboveRoot = true /\ Forall (fun s => s = "..") below)
      /\ stacked allowAboveRoot below
  end.

(** A method returns, never throws, on whatever state it is called. *)
Definition returns {B A} (m : M B A) : Prop :=
  forall st, exists a st', m st = (Returns a, st').

(** ** The helpers of [utils]

    The pure helpers that come with the agent: file names, domains of URLs
    and selectors built from the properties of an element. *)

Module Utils.

(** The characters [/[^a-z0-9]/gi] leaves alone: digits and letters of
    either case (the [i] flag). *)
Definition isAlphanumeric (c : ascii) : bool :=
  let n := N_of_ascii c in
  ((48 <=? n) && (n <=? 57)) || ((65 <=? n) && (n <=? 90))
  || ((97 <=? n) && (n <=? 122)).

Definition isDash (c : ascii) : bool := Ascii.eqb c "-".

(** [.replace(/[^a-z0-9]/gi, '-')] *)
Fixpoint replaceOthers (s : string) : string :=
  match s with
  | EmptyString => EmptyString
  | String c rest =>
      String (if isAlphanumeric c then c else "-"%char) (replaceOthers rest)
  end.

(** [.replace(/-+/g, '-')]: of every run of dashes one is kept, a dash that
    another dash follows being dropped. *)
Fixpoint collapseDashes (s : string) : string :=
  match s with
  | EmptyString => EmptyString
  | String c rest =>
      match rest with
      | String d _ =>
          if isDash c && isDash d then collapseDashes rest
          else String c (collapseDashes rest)
      | EmptyString => String c EmptyString
      end
  end.

Definition sanitizeFilename (input : string) : string :=
  String.substring 0 50 (collapseDashes (replaceOthers (JS.toLowerCase input))).

(** [url.split('/')[0]]: what comes before the first slash. *)
Fixpoint beforeSlash (url : string) : string :=
  match url with
  | EmptyString => EmptyString
  | String c rest => if Ascii.eqb c "/" then EmptyString else String c (beforeSlash rest)
  end.

(** [extractDomain].  [hostname] is [new URL(url).hostname], with [None]
    where the constructor throws. *)
Definition extractDomain (hostname : string -> option string) (url : string) : string :=
  match hostname url with
  | Some host => host
  | None => beforeSlash url
  end.

(** The [TypeError] of [groups[domain].push(url)] where [groups[domain]]
    is not an array. *)
Definition notAnArray : string := "groups[domain].push is not a function".

(** [groupUrlsByDomain], the body of the [forEach].  [groups] is a plain
    object holding the groups made so far: at a domain with no group
    [groups[domain]] reads what the object inherits, which is no array, so
    the [push] throws. *)
Definition addUrl (hostname : string -> option string)
    (groups : gmap string (list string)) (url : string)
    : Outcome (gmap string (list string)) :=
  let domain := extractDomain hostname url in
  match groups !! domain with
  | Some group => Returns (<[domain := (group ++ [url])%list]> groups)
  | None =>
      if JS.isInherited domain then Throws notAnArray
      else Returns (<[domain := [url]]> groups)
  end.

Definition groupUrlsByDomain (hostname : string -> option string)
    (urls : list string) : Outcome (gmap string (list string)) :=
  foldl (fun groups url =>
           match groups with
           | Returns groups => addUrl hostname groups url
           | Throws msg => Throws msg
           end)
        (Returns ∅) urls.

(** The [element] argument of [createSelector].  [attributes] lists the
    entries of the object in the order of [Object.entries], with distinct
    keys. *)
Record ElementProps := mkElementProps {
  prop_tagName : option string;
  prop_attributes : option (list (string * string));
  prop_text : option string
}.

(** [attributes[key]] *)
Fixpoint attribute (key : string) (attributes : list (string * string)) : option string :=
  match attributes with
  | [] => None
  | (k, v) :: rest => if String.eqb k key then Some v else attribute key rest
  end.

(** [s.split(/\s+/)]: the pieces between the runs of white space; a run at
    the start or at the end leaves an empty piece there.  [inRun] tells
    that the previous character was white space. *)
Fixpoint pieces (inRun : bool) (s : string) : list string :=
  match s with
  | EmptyString => [EmptyString]
  | String c rest =>
      if JS.isWhiteSpace c
      then (if inRun then pieces true rest else EmptyString :: pieces true rest)
      else match pieces false rest with
           | p :: ps => String c p :: ps
           | [] => [String c EmptyString]
           end
  end.

Definition splitSpaces (s : string) : list string := pieces false s.

(** [array.join(separator)] *)
Fixpoint join (separator : string) (parts : list string) : string :=
  match parts with
  | [] => EmptyString
  | [p] => p
  | p :: rest => p +:+ separator +:+ join separator rest
  end.

(** [.replace(/"/g, '\\"')]: a backslash before every double quote. *)
Fixpoint escapeQuotes (s : string) : string :=
  match s with
  | EmptyString => EmptyString
  | String c rest =>
      if Ascii.eqb c "034"
      then String "\"%char (String "034"%char (escapeQuotes rest))
      else String c (escapeQuotes rest)
  end.

(** The class selector: the names without a colon, each after a dot. *)
Definition classSelector (classes : string) : string :=
  join ""
    (map (fun c => "." +:+ c)
       (filter (fun c => Is_true (JS.truthy c && negb (JS.includes c ":")))
          (splitSpaces classes))).

(** The [data-] attributes, as attribute selectors. *)
Definition dataSelectors (attributes : list (string * string)) : list string :=
  map (fun '(key, value) => "[" +:+ key +:+ "=" +:+ JS.quoted value +:+ "]")
      (filter (fun '(key, _) => Is_true (String.prefix "data-" key)) attributes).

(** The selectors [createSelector] collects from the element, in the order
    it pushes them. *)
Definition elementSelectors (el : ElementProps) : list string :=
  ((if JS.truthy_opt (prop_tagName el)
    then [JS.toLowerCase (JS.show (prop_tagName el))] else [])
   ++ match prop_attributes el with
      | None => []
      | Some attributes =>
          (if JS.truthy_opt (attribute "id" attributes)
           then ["#" +:+ JS.show (attribute "id" attributes)] else [])
          ++ (if JS.truthy_opt (attribute "class" attributes)
              then (if JS.truthy (classSelector (JS.show (attribute "class" attributes)))
                    then [classSelector (JS.show (attribute "class" attributes))]
                    else [])
              else [])
          ++ dataSelectors attributes
      end
   ++ (if JS.truthy_opt (prop_text el)
       then (let txt := String.substring 0 50 (JS.trim (JS.show (prop_text el))) in
             if JS.truthy txt
             then [":has-text(" +:+ JS.quoted (escapeQuotes txt) +:+ ")"]
             else [])
       else []))%list.

Definition loginSelector : string :=
  "button:has-text(" +:+ JS.quoted "Login" +:+ "), a:has-text("
  +:+ JS.quoted "Login" +:+ "), .login-button, [type=" +:+ JS.quoted "submit"
  +:+ "]:has-text(" +:+ JS.quoted "Login" +:+ ")".

Definition searchSelector : string :=
  "input[type=" +:+ JS.quoted "search" +:+ "], input[placeholder*="
  +:+ JS.quoted "search" +:+ " i], [aria-label*=" +:+ JS.quoted "search" +:+ " i]".

Definition nextSelector : string :=
  "a:has-text(" +:+ JS.quoted "Next" +:+ "), button:has-text("
  +:+ JS.quoted "Next" +:+ "), .pagination .next, .next-page, [aria-label="
  +:+ JS.quoted "Next page" +:+ "]".

(** [createSelector]; the element may be missing ([if (element)]). *)
Definition createSelector (el : option ElementProps) (description : string) : string :=
  let descLower := JS.toLowerCase description in
  if JS.includes descLower "login" && JS.includes descLower "button"
  then loginSelector
  else if JS.includes descLower "search"
  then searchSelector
  else if (JS.includes descLower "next" || JS.includes descLower "more")
          && (JS.includes descLower "page" || JS.includes descLower "result")
  then nextSelector
  else
    let fallback := ":text(" +:+ JS.quoted (escapeQuotes description) +:+ ")" in
    match el with
    | Some props =>
        match elementSelectors props with
        | [] => fallback
        | selectors => join ", " selectors
        end
    | None => fallback
    end.

End Utils.

(** ** More vocabulary *)

(** The envelope of a result: a success has no error; a failure has an
    error and no data. *)
Definition wellFormed {D} (r : AgentActionResult D) : Prop :=
  if success r then error r = None
  else error r <> None /\ data r = None.

(** A method returns on whatever state it is called, with a value that
    satisfies [P]. *)
Definition answers {B A} (P : A -> Prop) (m : M B A) : Prop :=
  forall st, exists a st', m st = (Returns a, st') /\ P a.

(** Whenever a method returns, its value satisfies [P]. *)
Definition ensures {B A} (P : A -> Prop) (m : M B A) : Prop :=
  forall st a st', m st = (Returns a, st') -> P a.

(** The options of the agent are the same. *)
Definition sameConfiguration {B} (st st' : Agent B) : Prop :=
  options st' = options st /\ aiOptions st' = aiOptions st.

(** The disk is the same. *)
Definition sameDisk {B} (st st' : Agent B) : Prop := disk st' = disk st.

(** The number of levels of a tree of [DomNode]s. *)
Fixpoint levels (node : DomNode) : nat :=
  match node with
  | mkDomNode _ _ _ _ kids =>
      S (match kids with
         | None => 0
         | Some nodes => foldr (fun n acc => Nat.max (levels n) acc) 0%nat nodes
         end)
  end.

(** The texts of the nodes of a tree. *)
Fixpoint texts (node : DomNode) : list string :=
  match node with
  | mkDomNode _ _ _ txt kids =>
      (match txt with Some s => [s] | None => [] end
       ++ match kids with
          | None => []
          | Some nodes => flat_map texts nodes
          end)%list
  end.

(** A text of the snapshot: not empty, and of at most 100 characters. *)
Definition kept (t : string) : Prop := t <> "" /\ (String.length t <= 100)%nat.

(** The types of step [executePlan] knows. *)
Definition supported (ty : string) : bool :=
  String.eqb ty "click" || String.eqb ty "input" || String.eqb ty "extract".

(** Every character of a string passes a test. *)
Fixpoint everyChar (test : ascii -> bool) (s : string) : bool :=
  match s with
  | EmptyString => true
  | String c rest => test c && everyChar test rest
  end.

(** No dash of a string is followed by a dash. *)
Fixpoint noDashRun (s : string) : bool :=
  match s with
  | EmptyString => true
  | String c rest =>
      match rest with
      | String d _ => negb (Utils.isDash c && Utils.isDash d) && noDashRun rest
      | EmptyString => true
      end
  end.

(** The characters a sanitized file name is made of. *)
Definition isFileNameChar (c : ascii) : bool :=
  let n := N_of_ascii c in
  ((48 <=? n) && (n <=? 57)) || ((97 <=? n) && (n <=? 122)) || Utils.isDash c.

(** * Properties of the agents *)

Import CrawlerAgent AIEnhancedAgent.

(** ** Laws of the method combinators *)

Section Laws.

Context {B : Type}.

Lemma bind_returns {A C} (m : M B A) (k : A -> M B C) st a st' :
  m st = (Returns a, st') -> bind m k st = k a st'.
Proof. intros E. unfold bind. now rewrite E. Qed.

Lemma bind_throws {A C} (m : M B A) (k : A -> M B C) st msg st' :
  m st = (Throws msg, st') -> bind m k st = (Throws msg, st').
Proof. intros E. unfold bind. now rewrite E. Qed.

Lemma try_catch_returns {A} (m : M B A) handler st a st' :
  m st = (Returns a, st') -> try_catch m handler st = (Returns a, st').
Proof. intros E. unfold try_catch. now rewrite E. Qed.

Lemma try_catch_throws {A} (m : M B A) handler st msg st' :
  m st = (Throws msg, st') -> try_catch m handler st = handler msg st'.
Proof. intros E. unfold try_catch. now rewrite E. Qed.

Lemma guarded_uninitialized `{BrowserInterface B} (m : M B Result) st :
  isInitialized st = false -> guarded m st = (Returns notInitialized, st).
Proof. intros E. unfold guarded, bind, get. now rewrite E. Qed.

Lemma guarded_initialized `{BrowserInterface B} (m : M B Result) st :
  isInitialized st = true -> guarded m st = m st.
Proof. intros E. unfold guarded, bind, get. now rewrite E. Qed.

End Laws.

(** ** The guard of the actions *)

(** C1.  An action invoked on an agent that is not initialized returns
    exactly [{success: false, error: "Browser not initialized"}] and leaves
    the agent as it was: its log of driver calls and the state of its driver
    are unchanged, so no method of the driver was invoked.  This holds for
    the nine actions of [CrawlerAgent] and for the same actions on
    [AIEnhancedAgent], where [navigateTo] is overridden. *)
Theorem uninitialized_action_is_rejected {B} `{BrowserInterface B}
    (core : MidsceneCore) (a : Action) (st : Agent B) :
  isInitialized st = false ->
  CrawlerAgent.perform a st
    = (Returns {| success := false; error := Some "Browser not initialized";
                  data := None |}, st)
  /\ AIEnhancedAgent.perform core a st
    = (Returns {| success := false; error := Some "Browser not initialized";
                  data := None |}, st).
Proof.
  intros Hst.
  assert (Hbase : CrawlerAgent.perform a st = (Returns notInitialized, st)).
  { destruct a; simpl;
      unfold CrawlerAgent.navigateTo, clickElement, typeText, pressKey, scroll,
        extractText, extractData, takeScreenshot, waitForNavigation;
      now apply guarded_uninitialized. }
  split; [exact Hbase|].
  destruct a; try exact Hbase.
  simpl. unfold AIEnhancedAgent.navigateTo.
  erewrite bind_returns by exact Hbase. reflexivity.
Qed.

Lemma uninitialized_action_is_rejected_witness :
  isInitialized Fixture.fresh = false
  /\ calls (snd (CrawlerAgent.perform (act_clickElement "h1") Fixture.fresh)) = []
  /\ fst (AIEnhancedAgent.perform Fixture.noService (act_navigateTo "http://localhost/")
            Fixture.fresh)
     = Returns (fail "Browser not initialized").
Proof.
  pose proof (uninitialized_action_is_rejected Fixture.noService
                (act_clickElement "h1") Fixture.fresh eq_refl) as [E1 _].
  pose proof (uninitialized_action_is_rejected Fixture.noService
                (act_navigateTo "http://localhost/") Fixture.fresh eq_refl) as [_ E2].
  split; [reflexivity|].
  split; [rewrite E1; reflexivity | rewrite E2; reflexivity].
Defined.

(** ** Initialisation *)

(** C7.  [initialize] on an agent that is not initialized.  If the driver's
    [initialize] throws, or it returns and the user-agent override (applied
    when a user agent is configured and the driver has a page) throws, the
    method returns the failed result whose error is
    ["Failed to initialize browser: "] followed by the message thrown, and
    the agent is still not initialized.  Otherwise it returns
    [{success: true}] and the agent is initialized. *)
Theorem initialize_all_or_nothing {B} `{BrowserInterface B} (st : Agent B) :
  isInitialized st = false ->
  let failed msg :=
    fst (CrawlerAgent.initialize st)
      = Returns {| success := false;
                   error := Some ("Failed to initialize browser: " +:+ msg);
                   data := None |}
    /\ isInitialized (snd (CrawlerAgent.initialize st)) = false in
  let started :=
    fst (CrawlerAgent.initialize st)
      = Returns {| success := true; error := None; data := None |}
    /\ isInitialized (snd (CrawlerAgent.initialize st)) = true in
  match browser_initialize (opt_headless (options st)) (browser st) with
  | (Throws msg, _) => failed msg
  | (Returns _, b') =>
      if JS.truthy_opt (opt_userAgent (options st)) && has_page b'
      then match browser_evaluate
                   (script_setUserAgent (JS.show (opt_userAgent (options st)))) b' with
           | (Throws msg, _) => failed msg
           | (Returns _, _) => started
           end
      else started
  end.
Proof.
  intros Hst. cbv zeta.
  cbv beta iota zeta delta
    [CrawlerAgent.initialize try_catch bind get invoke evaluate modify ret].
  simpl.
  destruct (browser_initialize _ (browser st)) as [[[]|msg] b']; simpl.
  - destruct (JS.truthy_opt _ && has_page b'); simpl.
    + destruct (browser_evaluate _ b') as [[pg|msg] b'']; simpl; auto.
    + auto.
  - auto.
Qed.

Lemma initialize_all_or_nothing_witness :
  isInitialized Fixture.stranded = false
  /\ fst (CrawlerAgent.initialize Fixture.stranded)
     = Returns (fail "Failed to initialize browser: Executable not found")
  /\ isInitialized (snd (CrawlerAgent.initialize Fixture.stranded)) = false.
Proof.
  split; [reflexivity|].
  exact (initialize_all_or_nothing Fixture.stranded eq_refl).
Defined.

(** ** Plans *)

(** C10.  A plan whose [actions] is absent or empty: [executePlan] returns
    [{success: true, data: {actions: []}}] and leaves the agent as it was,
    so no driver call is made and no step result is recorded. *)
Theorem executePlan_of_nothing {B} `{BrowserInterface B}
    (core : MidsceneCore) (plan : Plan) (st : Agent B) :
  actions plan = None \/ actions plan = Some [] ->
  executePlan core plan st
    = (Returns {| success := true; error := None;
                  data := Some {| data_actions := [] |} |}, st).
Proof.
  intros [E|E]; unfold executePlan; rewrite E; reflexivity.
Qed.

Lemma executePlan_of_nothing_witness :
  executePlan Fixture.noService {| actions := None |} Fixture.fresh
    = (Returns {| success := true; error := None;
                  data := Some {| data_actions := [] |} |}, Fixture.fresh)
  /\ executePlan Fixture.noService {| actions := Some [] |} Fixture.fresh
    = (Returns {| success := true; error := None;
                  data := Some {| data_actions := [] |} |}, Fixture.fresh).
Proof.
  split.
  - apply (executePlan_of_nothing Fixture.noService {| actions := None |}).
    left; reflexivity.
  - apply (executePlan_of_nothing Fixture.noService {| actions := Some [] |}).
    right; reflexivity.
Defined.

(** ** Structured extraction *)

Section Extraction.

Context (pg : Page).

(** The loop of the script leaves alone the keys that are not among the
    entries, and [__proto__]. *)
Lemma store_all_frame (entries : list (string * string)) :
  forall (result : gmap string Extracted) (key : string),
    key ∉ entries.*1 \/ key = "__proto__" ->
    foldl (Scripts.store pg) result entries !! key = result !! key.
Proof.
  induction entries as [|[k0 s0] entries IH]; intros result key Hkey; [reflexivity|].
  cbn [foldl]. rewrite IH.
  - unfold Scripts.store. destruct (String.eqb_spec k0 "__proto__") as [E|E];
      [reflexivity|].
    apply lookup_insert_ne. intros ->.
    destruct Hkey as [Hout|Hproto]; [|congruence].
    apply Hout. simpl. apply elem_of_cons. now left.
  - destruct Hkey as [Hout|Hproto]; [left|now right].
    intros Hin. apply Hout. simpl. apply elem_of_cons. now right.
Qed.

(** The loop of the script over entries with distinct keys: a key of an
    entry, other than [__proto__], ends with the value resolved for it. *)
Lemma store_all_lookup (entries : list (string * string)) :
  NoDup entries.*1 ->
  forall (result : gmap string Extracted) (key sel : string),
    key <> "__proto__" ->
    (key, sel) ∈ entries ->
    foldl (Scripts.store pg) result entries !! key = Some (Scripts.resolve pg sel).
Proof.
  induction entries as [|[k0 s0] entries IH]; intros Hnd result key sel Hkey Hin.
  - inversion Hin.
  - apply NoDup_cons in Hnd as [Hk0 Hnd]. simpl in Hk0. cbn [foldl].
    apply elem_of_cons in Hin as [Heq|Hin].
    + inversion Heq; subst k0 s0.
      rewrite store_all_frame by (left; exact Hk0).
      unfold Scripts.store.
      destruct (String.eqb_spec key "__proto__") as [E|E]; [congruence|].
      apply lookup_insert_eq.
    + now apply IH.
Qed.

(** The script of [extractData] maps every key of the specification but
    [__proto__] to the value resolved for its selector, and holds no other
    key. *)
Lemma extractData_script (spec : gmap string string) :
  Scripts.extractData spec pg = Scripts.resolve pg <$> delete "__proto__" spec.
Proof.
  apply map_eq. intros key. rewrite lookup_fmap.
  unfold Scripts.extractData.
  destruct (decide (key = "__proto__")) as [->|Hkey].
  - rewrite store_all_frame by (now right).
    now rewrite lookup_empty, lookup_delete_eq.
  - rewrite lookup_delete_ne by congruence.
    destruct (spec !! key) as [sel|] eqn:E; simpl.
    + apply store_all_lookup; [apply NoDup_fst_map_to_list | exact Hkey |].
      now apply elem_of_map_to_list.
    + rewrite store_all_frame; [apply lookup_empty|]. left.
      intros Hk. apply list_elem_of_fmap in Hk as [[k sel] [-> Hk]].
      apply elem_of_map_to_list in Hk. simpl in E. congruence.
Qed.

(** A key named [__proto__] is never a key of the result. *)
Lemma extractData_script_proto (spec : gmap string string) :
  Scripts.extractData spec pg !! "__proto__" = None.
Proof. now rewrite extractData_script, lookup_fmap, lookup_delete_eq. Qed.

End Extraction.

(** C3, amended.  On an initialized agent whose driver evaluates the script,
    [extractData] succeeds with an object that has no key the specification
    lacks and in which every key of the specification other than
    [__proto__] is resolved on its own: a selector with no match gives
    [null]; a selector with one match gives that match's trimmed text when
    it is not empty, and [null] when it is empty; a selector with several
    matches gives the trimmed texts of the matches, in document order, with
    the empty ones left out.  A driver that throws gives a failed result. *)
Theorem extractData_resolves_each_key {B} `{BrowserInterface B}
    (extractionSpec : gmap string string) (st : Agent B) :
  isInitialized st = true ->
  match browser_evaluate (script_extractData extractionSpec) (browser st) with
  | (Throws msg, _) =>
      fst (CrawlerAgent.extractData extractionSpec st)
        = Returns (fail ("Failed to extract data: " +:+ msg))
  | (Returns pg, _) =>
      exists result : gmap string Extracted,
        fst (CrawlerAgent.extractData extractionSpec st)
          = Returns {| success := true; error := None;
                       data := Some (data_extracted result) |}
        /\ forall key : string,
             match extractionSpec !! key with
             | None => result !! key = None
             | Some sel =>
                 key <> "__proto__" ->
                 match querySelectorAll pg sel with
                 | [] => result !! key = Some ex_null
                 | [el] =>
                     result !! key
                       = Some (if JS.truthy (JS.trim (textContent el))
                               then ex_string (JS.trim (textContent el))
                               else ex_null)
                 | els =>
                     result !! key
                       = Some (ex_array
                                 (filter (fun s => Is_true (JS.truthy s))
                                    (map (fun el => JS.trim (textContent el)) els)))
                 end
             end
  end.
Proof.
  intros Hst. unfold CrawlerAgent.extractData.
  rewrite guarded_initialized by exact Hst.
  cbv beta iota zeta delta [try_catch bind evaluate invoke ret]. simpl.
  destruct (browser_evaluate _ (browser st)) as [[pg|msg] b']; simpl; [|reflexivity].
  eexists. split; [reflexivity|].
  intros key. rewrite extractData_script, lookup_fmap.
  destruct (decide (key = "__proto__")) as [->|Hkey].
  - rewrite lookup_delete_eq.
    destruct (extractionSpec !! "__proto__"); [congruence|reflexivity].
  - rewrite lookup_delete_ne by congruence.
    destruct (extractionSpec !! key) as [sel|]; simpl; [intros _|reflexivity].
    unfold Scripts.resolve, Scripts.trimmedTexts.
    destruct (querySelectorAll pg sel) as [|el [|el' els]]; reflexivity.
Qed.

Lemma extractData_resolves_each_key_witness :
  isInitialized Fixture.ready = true
  /\ exists result : gmap string Extracted,
       fst (CrawlerAgent.extractData (<["title" := "h1"]> ∅) Fixture.ready)
         = Returns (succeed_with (data_extracted result))
       /\ result !! "title" = Some (ex_string "Results")
       /\ result !! "other" = None.
Proof.
  split; [reflexivity|].
  destruct (extractData_resolves_each_key (<["title" := "h1"]> ∅) Fixture.ready eq_refl)
    as [result [E Hkeys]].
  exists result. split; [exact E|].
  split; [|exact (Hkeys "other")].
  refine (Hkeys "title" _). discriminate.
Defined.

(** C3 as stated fails.  On the fixture page the selector [p.note] has
    exactly one match, whose text is blank: the value is [null], not the
    trimmed text (the empty string).  The selector [p, h1] has two matches:
    the value is the sequence of one text, not of the two trimmed texts. *)
Lemma extractData_blank_text_counterexample :
  let spec : gmap string string := <["note" := "p.note"]> (<["both" := "p, h1"]> ∅) in
  querySelectorAll Fixture.page "p.note" = [Fixture.blank]
  /\ querySelectorAll Fixture.page "p, h1" = [Fixture.blank; Fixture.heading]
  /\ exists result : gmap string Extracted,
       fst (CrawlerAgent.extractData spec Fixture.ready)
         = Returns (succeed_with (data_extracted result))
       /\ result !! "note" = Some ex_null
       /\ result !! "note" <> Some (ex_string (JS.trim (textContent Fixture.blank)))
       /\ result !! "both" = Some (ex_array ["Results"])
       /\ result !! "both"
          <> Some (ex_array (map (fun el => JS.trim (textContent el))
                               [Fixture.blank; Fixture.heading])).
Proof.
  cbv zeta. split; [reflexivity|]. split; [reflexivity|].
  eexists. split; [reflexivity|].
  repeat split; try reflexivity; vm_compute; discriminate.
Qed.

(** ** Waiting for the page *)

(** The race between the listener and the timer, in terms of the time the
    document completes at: the promise resolves at that time when it comes
    before the timer, and with the timer otherwise. *)
Lemma awaitReady_race (events : list (N * ReadyState)) :
  forall remaining : N,
    Scripts.awaitReady events remaining
      = match firstComplete events with
        | Some r => if r <? remaining then (true, r) else (false, remaining)
        | None => (false, remaining)
        end.
Proof.
  induction events as [|[delay state] events IH]; intros remaining; [reflexivity|].
  cbn [Scripts.awaitReady firstComplete].
  specialize (IH (remaining - delay)).
  destruct (N.leb_spec remaining delay), state;
    rewrite ?IH; destruct (firstComplete events) as [r|];
    cbn [fmap option_fmap option_map];
    repeat match goal with
           | |- context [?a <? ?b] => destruct (N.ltb_spec a b)
           end;
    try reflexivity; try lia; f_equal; lia.
Qed.

Lemma waitForReady_duration (timeout : option float) (pg : Page) :
  snd (Scripts.waitForReady timeout pg)
    = match completesAt pg with
      | Some r => N.min r (Scripts.timerDelay timeout)
      | None => Scripts.timerDelay timeout
      end.
Proof.
  unfold Scripts.waitForReady, completesAt.
  destruct (readyState pg); try (rewrite awaitReady_race;
    destruct (firstComplete (readyEvents pg)) as [r|]; [|reflexivity];
    destruct (N.ltb_spec r (Scripts.timerDelay timeout)); simpl; lia).
  simpl. lia.
Qed.

(** [ToInt32] on some numbers: the fraction goes, what does not fit in 32
    bits wraps around, [NaN] and the infinities give [0]. *)
Lemma toInt32_wraps :
  JS.toInt32 100 = 100%Z
  /\ JS.toInt32 100.5 = 100%Z
  /\ JS.toInt32 (-1.5) = (-1)%Z
  /\ JS.toInt32 2147483647 = 2147483647%Z
  /\ JS.toInt32 2147483648 = (-2147483648)%Z
  /\ JS.toInt32 3000000000 = (-1294967296)%Z
  /\ JS.toInt32 4294967301 = 5%Z
  /\ JS.toInt32 infinity = 0%Z
  /\ JS.toInt32 nan = 0%Z.
Proof. repeat split. Qed.

(** The delay of the timer for some timeouts: none, [0] and [NaN] give the
    30000 ms of the script; a negative number, or one that wraps to a
    negative number, gives no delay. *)
Lemma timerDelay_reads :
  Scripts.timerDelay None = 30000
  /\ Scripts.timerDelay (Some 0%float) = 30000
  /\ Scripts.timerDelay (Some nan) = 30000
  /\ Scripts.timerDelay (Some 100%float) = 100
  /\ Scripts.timerDelay (Some 0.5%float) = 0
  /\ Scripts.timerDelay (Some (-1)%float) = 0
  /\ Scripts.timerDelay (Some 3000000000%float) = 0.
Proof. repeat split. Qed.

(** [ToInt32] gives a signed 32-bit integer. *)
Lemma toInt32_range (n : float) :
  (- 2147483648 <= JS.toInt32 n < 2147483648)%Z.
Proof.
  unfold JS.toInt32. change (2 ^ 32)%Z with 4294967296%Z.
  change (2 ^ 31)%Z with 2147483648%Z.
  pose proof (Z.mod_pos_bound (JS.truncate n) 4294967296 eq_refl) as Hk.
  destruct (Z.ltb_spec (JS.truncate n mod 4294967296) 2147483648); lia.
Qed.

(** The timer fires after at most 2^31 - 1 milliseconds, whatever the
    number it is set with. *)
Lemma timerDelay_bounded (timeout : option float) :
  Scripts.timerDelay timeout <= 2147483647.
Proof.
  unfold Scripts.timerDelay.
  pose proof (toInt32_range
    (default 30000%float (JS.or_number timeout (Some 30000%float)))) as Hk.
  lia.
Qed.

(** The integral part of a whole number is the number. *)
Lemma truncate_whole (n : float) (t : Z) : isWhole n t -> JS.truncate n = t.
Proof.
  unfold isWhole, JS.truncate.
  destruct (FloatOps.Prim2SF n) as [sign|sign| |sign m e];
    [congruence | intros [] | intros [] |].
  destruct (Z.leb_spec 0 e) as [He|He].
  - rewrite (Z.max_l 0 (- e)), (Z.max_r 0 e) by lia.
    rewrite Z.pow_0_r, Z.mul_1_r. destruct sign; lia.
  - rewrite (Z.max_r 0 (- e)), (Z.max_l 0 e) by lia.
    rewrite Z.pow_0_r, Z.mul_1_r. intros <-.
    rewrite Z.div_mul by (apply Z.pow_nonzero; lia).
    destruct sign; lia.
Qed.

(** A whole number other than zero is truthy. *)
Lemma truthy_whole (n : float) (t : Z) :
  isWhole n t -> t <> 0%Z -> JS.truthy_number n = true.
Proof.
  unfold isWhole, JS.truthy_number.
  destruct (FloatOps.Prim2SF n); [congruence | intros [] | intros [] | reflexivity].
Qed.

(** A whole number that fits in 32 bits is the delay the timer reads. *)
Lemma toInt32_whole (n : float) (t : Z) :
  isWhole n t -> (- 2147483648 <= t < 2147483648)%Z -> JS.toInt32 n = t.
Proof.
  intros Hn Ht. unfold JS.toInt32. rewrite (truncate_whole n t Hn).
  change (2 ^ 32)%Z with 4294967296%Z. change (2 ^ 31)%Z with 2147483648%Z.
  destruct (Z.ltb_spec t 0) as [Hneg|Hpos].
  - rewrite <- (Z.mod_unique t 4294967296 (-1) (t + 4294967296)) by lia.
    destruct (Z.ltb_spec (t + 4294967296) 2147483648); lia.
  - rewrite Z.mod_small by lia.
    destruct (Z.ltb_spec t 2147483648); lia.
Qed.

Lemma timerDelay_whole (n : float) (ms : Z) :
  isWhole n ms -> (1 <= ms <= 2147483647)%Z ->
  Scripts.timerDelay (Some n) = Z.to_N ms.
Proof.
  intros Hn Hms. unfold Scripts.timerDelay, JS.or_number.
  rewrite (truthy_whole n ms Hn) by lia. simpl.
  now rewrite (toInt32_whole n ms Hn) by lia.
Qed.

(** C8, amended.  [waitForNavigation] on an initialized agent whose driver
    evaluates the script returns [{success: true}], after a wait that ends
    when the document's ready-state is [complete] or when the timer set for
    it fires, whichever comes first.  The timer's delay is the [timeout]
    given when that is a whole number of milliseconds from 1 to 2^31 - 1,
    and the delay of the agent's configured timeout when none, [0] or
    [NaN] is given; it never exceeds 2^31 - 1 milliseconds, so the wait is
    never indefinite.  In particular a page that never completes makes the
    method return [{success: true}] after exactly that delay.  (A driver
    that throws gives a failed result, at once.) *)
Theorem waitForNavigation_is_bounded {B} `{BrowserInterface B}
    (timeout : option float) (st : Agent B) :
  isInitialized st = true ->
  let bound := Scripts.timerDelay (waitArgument timeout st) in
  let configured := Scripts.timerDelay (opt_timeout (options st)) in
  bound <= 2147483647
  /\ (forall n ms, timeout = Some n -> isWhole n ms ->
        (1 <= ms <= 2147483647)%Z -> bound = Z.to_N ms)
  /\ (timeout = None \/ timeout = Some 0%float \/ timeout = Some (-0)%float
      \/ timeout = Some nan -> bound = configured)
  /\ match browser_evaluate (script_waitForReady (waitArgument timeout st))
             (browser st) with
     | (Returns pg, _) =>
         fst (waitForNavigation timeout st)
           = Returns {| success := true; error := None; data := None |}
         /\ elapsed (snd (waitForNavigation timeout st))
            = elapsed st + match completesAt pg with
                           | Some r => N.min r bound
                           | None => bound
                           end
     | (Throws msg, _) =>
         fst (waitForNavigation timeout st)
           = Returns (fail ("Failed to wait for navigation: " +:+ msg))
         /\ elapsed (snd (waitForNavigation timeout st)) = elapsed st
     end.
Proof.
  intros Hst bound configured.
  split; [apply timerDelay_bounded|].
  split.
  { intros n ms -> Hn Hms. unfold bound, waitArgument, JS.or_number.
    rewrite (truthy_whole n ms Hn) by lia. now apply timerDelay_whole. }
  split; [intros [->|[->|[->| ->]]]; reflexivity|].
  unfold waitForNavigation. rewrite guarded_initialized by exact Hst.
  cbv beta iota zeta delta [try_catch bind get evaluate invoke ret suspend modify].
  simpl.
  destruct (browser_evaluate _ (browser st)) as [[pg|msg] b']; simpl.
  - split; [reflexivity|]. now rewrite waitForReady_duration.
  - split; reflexivity.
Qed.

Lemma waitForNavigation_is_bounded_witness :
  isInitialized Fixture.ready = true
  /\ completesAt Fixture.page = None
  /\ fst (waitForNavigation (Some 100%float) Fixture.ready)
     = Returns {| success := true; error := None; data := None |}
  /\ elapsed (snd (waitForNavigation (Some 100%float) Fixture.ready))
     = elapsed Fixture.ready + 100.
Proof.
  split; [reflexivity|]. split; [reflexivity|].
  exact (proj2 (proj2 (proj2
    (waitForNavigation_is_bounded (Some 100%float) Fixture.ready eq_refl)))).
Defined.

(** C8 as stated fails.  The page of the fixture never completes.  With a
    timeout of 3000000000 ms the wait is over at once, and not when the
    timeout has elapsed: the delay of the timer is the number as a signed
    32-bit integer, here negative, which counts as no delay.  With a
    timeout of 0 the wait takes the 30000 ms of the configured timeout. *)
Lemma waitForNavigation_timer_delay_counterexample :
  completesAt Fixture.page = None
  /\ isWhole 3000000000 3000000000
  /\ fst (waitForNavigation (Some 3000000000%float) Fixture.ready)
     = Returns {| success := true; error := None; data := None |}
  /\ elapsed (snd (waitForNavigation (Some 3000000000%float) Fixture.ready))
     = elapsed Fixture.ready
  /\ elapsed (snd (waitForNavigation (Some 3000000000%float) Fixture.ready))
     <> elapsed Fixture.ready + 3000000000
  /\ elapsed (snd (waitForNavigation (Some 0%float) Fixture.ready))
     = elapsed Fixture.ready + 30000.
Proof.
  split; [reflexivity|]. split; [vm_compute; reflexivity|].
  split; [reflexivity|]. split; [reflexivity|].
  split; [vm_compute; discriminate|reflexivity].
Qed.

(** ** Planning *)

(** C4, amended.  [createPlanForPage] never throws.  When the page context
    is built it returns a plan wrapped in a successful result: the fixed
    single-action plan on [h1, h2, .content, article] when the planning
    capability is absent, the service's plan when it is present and
    returns.  When the context cannot be built (the agent is not
    initialized, or a driver call of the snapshot throws) or the service
    throws, it returns a failed result whose error is
    ["Failed to create plan: "] followed by the message. *)
Theorem createPlanForPage_outcome {B} `{BrowserInterface B}
    (core : MidsceneCore) (instruction : string) (st : Agent B) :
  (isInitialized st = false ->
   createPlanForPage core instruction st
     = (Returns (fail ("Failed to create plan: Failed to take screenshot: "
                       +:+ "Browser not initialized")), st))
  /\ match getPageContext st with
     | (Throws msg, st') =>
         createPlanForPage core instruction st
           = (Returns (fail ("Failed to create plan: " +:+ msg)), st')
     | (Returns context, st') =>
         match core_plan core with
         | None =>
             createPlanForPage core instruction st
               = (Returns {| success := true; error := None;
                             data := Some (data_plan mockPlan) |}, st')
         | Some service =>
             match service instruction context with
             | Returns planningResult =>
                 createPlanForPage core instruction st
                   = (Returns {| success := true; error := None;
                                 data := Some (data_plan planningResult) |}, st')
             | Throws msg =>
                 createPlanForPage core instruction st
                   = (Returns (fail ("Failed to create plan: " +:+ msg)), st')
             end
         end
     end.
Proof.
  split.
  - intros Hst. unfold createPlanForPage, getPageContext.
    erewrite try_catch_throws; [reflexivity|].
    erewrite bind_throws; [reflexivity|].
    erewrite bind_returns
      by (unfold takeScreenshot; now apply guarded_uninitialized).
    reflexivity.
  - unfold createPlanForPage.
    cbv beta iota zeta delta [try_catch bind].
    destruct (getPageContext st) as [[context|msg] st']; [|reflexivity].
    destruct (core_plan core) as [service|]; [|reflexivity].
    destruct (service instruction context); reflexivity.
Qed.

(** C4 as stated fails.  On an initialized agent and a healthy driver, with
    the planning capability present, a service call that throws gives a
    failed result with no plan: the fixed plan is not substituted.  With the
    capability absent, a driver that cannot take the screenshot gives a
    failed result as well. *)
Lemma createPlanForPage_failure_counterexample :
  isInitialized Fixture.ready = true
  /\ fst (createPlanForPage Fixture.failingService "Find the results" Fixture.ready)
     = Returns {| success := false;
                  error := Some "Failed to create plan: model unavailable";
                  data := None |}
  /\ isInitialized Fixture.sightless = true
  /\ fst (createPlanForPage Fixture.noService "Find the results" Fixture.sightless)
     = Returns {| success := false;
                  error := Some ("Failed to create plan: Failed to take screenshot: "
                                 +:+ "Failed to take screenshot: Target closed");
                  data := None |}.
Proof. repeat split. Qed.

(** ** Locating an element without the reasoning service *)

Section Keywords.

Lemma prefix_spec (sub s : string) :
  String.prefix sub s = true <-> exists after, s = sub +:+ after.
Proof.
  revert s. induction sub as [|c sub IH]; intros s.
  - split; [intros _; now exists s | intros _; now destruct s].
  - destruct s as [|d s]; simpl.
    + split; [discriminate | intros [after E]; discriminate E].
    + destruct (ascii_dec c d) as [->|Hne].
      * rewrite IH. split; intros [after E]; exists after.
        -- change (String d sub +:+ after) with (String d (sub +:+ after)).
           now rewrite E.
        -- change (String d sub +:+ after) with (String d (sub +:+ after)) in E.
           now inversion E.
      * split; [discriminate|]. intros [after E].
        change (String c sub +:+ after) with (String c (sub +:+ after)) in E.
        inversion E. congruence.
Qed.

Lemma includes_step (s sub : string) :
  JS.includes s sub
    = if String.prefix sub s then true
      else match s with
           | String _ rest => JS.includes rest sub
           | EmptyString => false
           end.
Proof. now destruct s. Qed.

(** [includes] tells whether the string occurs. *)
Lemma includes_spec (s sub : string) :
  JS.includes s sub = true <-> occursIn sub s.
Proof.
  split.
  - induction s as [|c s IH]; rewrite includes_step;
      destruct (String.prefix sub _) eqn:E.
    + intros _. apply prefix_spec in E as [after E]. now exists "", after.
    + discriminate.
    + intros _. apply prefix_spec in E as [after E]. now exists "", after.
    + intros Hs. destruct (IH Hs) as [before [after ->]].
      now exists (String c before), after.
  - intros [before [after ->]]. induction before as [|c before IH].
    + rewrite includes_step.
      replace (String.prefix sub ("" +:+ sub +:+ after)) with true; [reflexivity|].
      symmetry. apply prefix_spec. now exists after.
    + rewrite includes_step.
      destruct (String.prefix sub _); [reflexivity|]. exact IH.
Qed.

Lemma includes_mentions (description keyword : string) :
  JS.includes (JS.toLowerCase description) keyword = true
  <-> mentions description keyword.
Proof. apply includes_spec. Qed.

Lemma includes_not_mentions (description keyword : string) :
  JS.includes (JS.toLowerCase description) keyword = false
  <-> ~ mentions description keyword.
Proof.
  rewrite <- includes_mentions. now destruct (JS.includes _ keyword).
Qed.

(** The record of a match: [el.textContent?.trim() || ''] is the trimmed
    text. *)
Lemma describe_spec (el : Element) :
  describe el
    = {| el_tagName := JS.toLowerCase (tagName el);
         el_text := JS.trim (textContent el);
         el_rect := getBoundingClientRect el |}.
Proof.
  unfold describe, JS.or_string. now destruct (JS.trim (textContent el)).
Qed.

End Keywords.

(** C5, amended.  With the locate capability absent, [locateElement] picks
    the selector by the first keyword the description mentions, in letters
    of either case and in this order: [button] gives the button selector;
    otherwise [input], [text] or [field] gives [input, textarea]; otherwise
    [link] gives [a]; a description that mentions none of them gives the
    containment selector on the description itself.  It then queries the
    page: no match gives the failure ["Could not find element: "] followed
    by the description; a match gives success with the first match (its
    tag name in lower case, its trimmed text and its rectangle), the
    rectangle, and the position [(left + width / 2, top + height / 2)].
    (When the page context cannot be built or the query throws, the result
    is the failure ["Failed to locate element ..."].) *)
Theorem locateElement_falls_back_on_keywords {B} `{BrowserInterface B}
    (core : MidsceneCore) (description : string) (st : Agent B) :
  AiLocateElement core = None ->
  let sel := heuristicSelector description in
  let failed msg :=
    fst (locateElement core description st)
      = Returns (fail ("Failed to locate element " +:+ JS.quoted description
                       +:+ ": " +:+ msg)) in
  (mentions description "button" ->
   sel = "button, [role=" +:+ JS.quoted "button" +:+ "], .btn, a.button")
  /\ (~ mentions description "button" ->
      mentions description "input" \/ mentions description "text"
      \/ mentions description "field" ->
      sel = "input, textarea")
  /\ (~ mentions description "button" -> ~ mentions description "input" ->
      ~ mentions description "text" -> ~ mentions description "field" ->
      mentions description "link" ->
      sel = "a")
  /\ (~ mentions description "button" -> ~ mentions description "input" ->
      ~ mentions description "text" -> ~ mentions description "field" ->
      ~ mentions description "link" ->
      sel = "*:contains(" +:+ JS.quoted description +:+ ")")
  /\ match getPageContext st with
     | (Throws msg, _) => failed msg
     | (Returns _, st1) =>
         match browser_evaluate (script_queryElements sel) (browser st1) with
         | (Throws msg, _) => failed msg
         | (Returns pg, _) =>
             match querySelectorAll pg sel with
             | [] =>
                 fst (locateElement core description st)
                   = Returns {| success := false;
                                error := Some ("Could not find element: "
                                               +:+ description);
                                data := None |}
             | el :: _ =>
                 let rect := getBoundingClientRect el in
                 fst (locateElement core description st)
                   = Returns
                       {| success := true; error := None;
                          data := Some (data_located
                            (queried {| el_tagName := JS.toLowerCase (tagName el);
                                        el_text := JS.trim (textContent el);
                                        el_rect := rect |})
                            (Some rect)
                            (Some {| x := (rect_left rect + rect_width rect / 2)%float;
                                     y := (rect_top rect + rect_height rect / 2)%float
                                  |})) |}
             end
         end
     end.
Proof.
  intros Hcore sel failed.
  refine (conj _ (conj _ (conj _ (conj _ _)))).
  - intros E. apply includes_mentions in E.
    unfold sel, heuristicSelector. now rewrite E.
  - intros E E1. apply includes_not_mentions in E.
    rewrite <- !includes_mentions in E1.
    unfold sel, heuristicSelector. rewrite E.
    destruct E1 as [E1|[E1|E1]]; rewrite E1, ?orb_true_r; reflexivity.
  - intros E E1 E2 E3 E4. apply includes_not_mentions in E, E1, E2, E3.
    apply includes_mentions in E4.
    unfold sel, heuristicSelector. now rewrite E, E1, E2, E3, E4.
  - intros E E1 E2 E3 E4. apply includes_not_mentions in E, E1, E2, E3, E4.
    unfold sel, heuristicSelector. now rewrite E, E1, E2, E3, E4.
  - unfold failed, locateElement, locate. rewrite Hcore. fold sel.
    cbv beta iota zeta delta [try_catch bind evaluate invoke ret]. simpl.
    destruct (getPageContext st) as [[context|msg] st1]; simpl; [|reflexivity].
    destruct (browser_evaluate _ (browser st1)) as [[pg|msg] b']; simpl;
      [|reflexivity].
    unfold queryElements.
    destruct (querySelectorAll pg sel) as [|el els]; [reflexivity|].
    cbn [map]. now rewrite describe_spec.
Qed.

(** On the page of the fixture: a description that mentions [button] in
    capitals finds the button; one that mentions [text] finds the input;
    one that mentions [link] looks for anchors and one that mentions no
    keyword looks for its own text, both finding nothing. *)
Lemma locateElement_falls_back_on_keywords_witness :
  AiLocateElement Fixture.noService = None
  /\ fst (locateElement Fixture.noService "Search BUTTON" Fixture.ready)
     = Returns (succeed_with
         (data_located (queried (mkQueried "button" "Search" (Fixture.box 220 10 80 30)))
                       (Some (Fixture.box 220 10 80 30))
                       (Some {| x := 260; y := 25 |})))
  /\ fst (locateElement Fixture.noService "the search text" Fixture.ready)
     = Returns (succeed_with
         (data_located (queried (mkQueried "input" "" (Fixture.box 10 10 200 30)))
                       (Some (Fixture.box 10 10 200 30))
                       (Some {| x := 110; y := 25 |})))
  /\ heuristicSelector "Search BUTTON"
     = "button, [role=" +:+ JS.quoted "button" +:+ "], .btn, a.button"
  /\ heuristicSelector "the search text" = "input, textarea"
  /\ heuristicSelector "Home link" = "a"
  /\ heuristicSelector "Results" = "*:contains(" +:+ JS.quoted "Results" +:+ ")"
  /\ fst (locateElement Fixture.noService "Home link" Fixture.ready)
     = Returns (fail "Could not find element: Home link")
  /\ fst (locateElement Fixture.noService "Results" Fixture.ready)
     = Returns (fail "Could not find element: Results").
Proof.
  assert (Hnot : forall description keyword,
            JS.includes (JS.toLowerCase description) keyword = false ->
            ~ mentions description keyword)
    by (intros description keyword; apply includes_not_mentions).
  assert (Hyes : forall description keyword,
            JS.includes (JS.toLowerCase description) keyword = true ->
            mentions description keyword)
    by (intros description keyword; apply includes_mentions).
  pose proof (locateElement_falls_back_on_keywords Fixture.noService
                "Search BUTTON" Fixture.ready eq_refl) as [Hbutton [_ [_ [_ Hfound]]]].
  pose proof (locateElement_falls_back_on_keywords Fixture.noService
                "the search text" Fixture.ready eq_refl) as [_ [Hinput [_ [_ Hfound']]]].
  pose proof (locateElement_falls_back_on_keywords Fixture.noService
                "Home link" Fixture.ready eq_refl) as [_ [_ [Hlink [_ Hnone]]]].
  pose proof (locateElement_falls_back_on_keywords Fixture.noService
                "Results" Fixture.ready eq_refl) as [_ [_ [_ [Hfree Hnone']]]].
  split; [reflexivity|]. split; [exact Hfound|]. split; [exact Hfound'|].
  split; [apply Hbutton, Hyes; reflexivity|].
  split; [apply Hinput; [apply Hnot; reflexivity | right; left; apply Hyes; reflexivity]|].
  split; [apply Hlink; try (apply Hnot; reflexivity); apply Hyes; reflexivity|].
  split; [apply Hfree; apply Hnot; reflexivity|].
  split; [exact Hnone | exact Hnone'].
Defined.

(** C5 as stated fails.  A description that contains [link] and, after it,
    [button] is looked up with the button selector, not with [a]: the
    keywords are tried in order and the first one wins.  A description
    that contains [BUTTON] in capitals contains none of the keywords as
    they are written, and is looked up with the button selector all the
    same, not with the containment selector. *)
Lemma locateElement_keyword_order_counterexample :
  occursIn "link" "the link button"
  /\ heuristicSelector "the link button"
     = "button, [role=" +:+ JS.quoted "button" +:+ "], .btn, a.button"
  /\ heuristicSelector "the link button" <> "a"
  /\ fst (locateElement Fixture.noService "the link button" Fixture.ready)
     = Returns (succeed_with
         (data_located (queried (mkQueried "button" "Search" (Fixture.box 220 10 80 30)))
                       (Some (Fixture.box 220 10 80 30))
                       (Some {| x := 260; y := 25 |})))
  /\ ~ occursIn "button" "Search BUTTON"
  /\ ~ occursIn "input" "Search BUTTON"
  /\ ~ occursIn "text" "Search BUTTON"
  /\ ~ occursIn "field" "Search BUTTON"
  /\ ~ occursIn "link" "Search BUTTON"
  /\ heuristicSelector "Search BUTTON"
     = "button, [role=" +:+ JS.quoted "button" +:+ "], .btn, a.button"
  /\ heuristicSelector "Search BUTTON"
     <> "*:contains(" +:+ JS.quoted "Search BUTTON" +:+ ")".
Proof.
  assert (Hnot : forall keyword,
            JS.includes "Search BUTTON" keyword = false ->
            ~ occursIn keyword "Search BUTTON").
  { intros keyword E Hin. apply includes_spec in Hin. congruence. }
  split; [now exists "the ", " button"|].
  split; [reflexivity|]. split; [discriminate|]. split; [reflexivity|].
  repeat (split; [apply Hnot; reflexivity|]).
  split; [reflexivity|discriminate].
Qed.

(** ** What the methods leave alone

    A relation between agent states that is a preorder and holds across
    the elementary updates (the driver's state, the log, the elapsed time,
    the disk) holds across every method built from them. *)

Section Frames.

Context {B : Type} `{BrowserInterface B} (core : MidsceneCore).
Context (R : Agent B -> Agent B -> Prop) `{!PreOrder R}.
Hypothesis R_browser : forall b st, R st (set_browser b st).
Hypothesis R_log : forall c st, R st (log_call c st).
Hypothesis R_elapsed : forall t st, R st (add_elapsed t st).
Hypothesis R_disk : forall d st, R st (set_disk d st).

Lemma keeps_ret {A} (a : A) : keeps R (ret a).
Proof. intros st. reflexivity. Qed.

Lemma keeps_throw {A} msg : keeps R (@throw B A msg).
Proof. intros st. reflexivity. Qed.

Lemma keeps_get : keeps R get.
Proof. intros st. reflexivity. Qed.

Lemma keeps_bind {A C} (m : M B A) (k : A -> M B C) :
  keeps R m -> (forall a, keeps R (k a)) -> keeps R (bind m k).
Proof.
  intros Hm Hk st. unfold bind. specialize (Hm st).
  destruct (m st) as [[a|msg] st']; simpl in *; [|exact Hm].
  etransitivity; [exact Hm | apply Hk].
Qed.

Lemma keeps_try_catch {A} (m : M B A) handler :
  keeps R m -> (forall msg, keeps R (handler msg)) -> keeps R (try_catch m handler).
Proof.
  intros Hm Hh st. unfold try_catch. specialize (Hm st).
  destruct (m st) as [[a|msg] st']; simpl in *; [exact Hm|].
  etransitivity; [exact Hm | apply Hh].
Qed.

Lemma keeps_invoke {A} c (method : B -> Outcome A * B) : keeps R (invoke c method).
Proof.
  intros st. unfold invoke. simpl. destruct (method (browser st)) as [r b']. simpl.
  etransitivity; [apply R_log | apply R_browser].
Qed.

Lemma keeps_suspend t : keeps R (suspend t).
Proof. intros st. apply R_elapsed. Qed.

Lemma keeps_lift {A} (f : Disk -> Outcome A * Disk) : keeps R (lift f).
Proof. intros st. unfold lift. destruct (f (disk st)) as [r d]. apply R_disk. Qed.

Lemma keeps_awaited {A} (o : Outcome A) : keeps R (awaited o).
Proof. destruct o; intros st; reflexivity. Qed.

Lemma keeps_guarded (m : M B Result) : keeps R m -> keeps R (guarded m).
Proof.
  intros Hm. unfold guarded. apply keeps_bind; [apply keeps_get|].
  intros st. destruct (negb (isInitialized st)); [apply keeps_ret | exact Hm].
Qed.

Create HintDb frame.

#[local] Hint Resolve keeps_ret keeps_throw keeps_get keeps_invoke keeps_suspend
  keeps_lift keeps_awaited : frame.

Ltac frame :=
  repeat first
    [ solve [auto with frame]
    | apply keeps_guarded
    | apply keeps_bind; [|intros ?]
    | apply keeps_try_catch; [|intros ?]
    | match goal with
      | |- keeps _ (if ?c then _ else _) => destruct c
      | |- keeps _ (match ?d with _ => _ end) => destruct d
      end ].

Lemma keeps_evaluate {T} s (body : Page -> T) : keeps R (evaluate s body).
Proof. unfold evaluate. frame. Qed.
#[local] Hint Resolve keeps_evaluate : frame.

Lemma keeps_getCurrentUrl : keeps R getCurrentUrl.
Proof. unfold getCurrentUrl. frame. Qed.

Lemma keeps_getPageTitle : keeps R getPageTitle.
Proof. unfold getPageTitle. frame. Qed.
#[local] Hint Resolve keeps_getCurrentUrl keeps_getPageTitle : frame.

Lemma keeps_base_navigateTo url : keeps R (CrawlerAgent.navigateTo url).
Proof. unfold CrawlerAgent.navigateTo. frame. Qed.

Lemma keeps_extractText sel : keeps R (extractText sel).
Proof. unfold extractText. frame. Qed.

Lemma keeps_takeScreenshot : keeps R takeScreenshot.
Proof. unfold takeScreenshot. frame. Qed.
#[local] Hint Resolve keeps_base_navigateTo keeps_extractText keeps_takeScreenshot : frame.

Lemma keeps_base_perform a : keeps R (CrawlerAgent.perform a).
Proof.
  destruct a; simpl; auto with frame;
    unfold clickElement, typeText, pressKey, scroll, extractData, waitForNavigation;
    frame.
Qed.

Lemma keeps_getPageContext : keeps R getPageContext.
Proof. unfold getPageContext. frame. Qed.
#[local] Hint Resolve keeps_base_perform keeps_getPageContext : frame.

Lemma keeps_createPlanForPage instruction : keeps R (createPlanForPage core instruction).
Proof. unfold createPlanForPage. frame. Qed.
#[local] Hint Resolve keeps_createPlanForPage : frame.

Lemma keeps_navigateTo url : keeps R (AIEnhancedAgent.navigateTo core url).
Proof. unfold AIEnhancedAgent.navigateTo. frame. Qed.

Lemma keeps_locate description : keeps R (locate core description).
Proof. unfold locate. frame. Qed.
#[local] Hint Resolve keeps_navigateTo keeps_locate : frame.

Lemma keeps_click description : keeps R (click core description).
Proof. unfold click. frame. Qed.

Lemma keeps_input description txt : keeps R (input core description txt).
Proof. unfold input. frame. Qed.
#[local] Hint Resolve keeps_click keeps_input : frame.

Lemma keeps_executeStep action : keeps R (executeStep core action).
Proof. unfold executeStep. frame. Qed.
#[local] Hint Resolve keeps_executeStep : frame.

Lemma keeps_executeActions todo :
  forall results, keeps R (executeActions core todo results).
Proof.
  induction todo as [|action rest IH]; intros results; simpl; [frame|].
  apply keeps_bind; [frame|]. intros r.
  destruct (stopsAfter action r); [frame | apply IH].
Qed.
#[local] Hint Resolve keeps_executeActions : frame.

Lemma keeps_executePlan plan : keeps R (executePlan core plan).
Proof. unfold executePlan. frame. Qed.

Lemma keeps_perform a : keeps R (AIEnhancedAgent.perform core a).
Proof.
  destruct a;
    match goal with
    | |- keeps _ (AIEnhancedAgent.perform _ (act_navigateTo ?url)) =>
        exact (keeps_navigateTo url)
    | |- keeps _ (AIEnhancedAgent.perform _ ?a) => exact (keeps_base_perform a)
    end.
Qed.

(** The two methods that write the agent's own fields are the premises:
    with them, every operation but [initialize] keeps the relation. *)
Hypothesis R_close : keeps R (@CrawlerAgent.close B _).
Hypothesis R_saveScreenshot :
  forall now screenshotData, keeps R (saveScreenshot now screenshotData).

Lemma after_keeps op st : op <> op_initialize -> R st (after core op st).
Proof.
  destruct op; intros Hop; simpl; try congruence.
  - apply keeps_perform.
  - apply keeps_getCurrentUrl.
  - apply keeps_getPageTitle.
  - apply keeps_createPlanForPage.
  - apply keeps_locate.
  - apply keeps_click.
  - apply keeps_input.
  - apply keeps_executePlan.
  - apply R_saveScreenshot.
  - apply R_close.
Qed.

Lemma afterAll_keeps ops :
  Forall (fun op => op <> op_initialize) ops ->
  forall st, R st (afterAll core ops st).
Proof.
  induction 1 as [|op ops Hop _ IH]; intros st; simpl; [reflexivity|].
  etransitivity; [apply after_keeps; exact Hop | apply IH].
Qed.

End Frames.

(** ** The life cycle *)

Section StaysDown.

Context {B : Type} `{BrowserInterface B}.

#[local] Instance staysDown_preorder : PreOrder (@staysDown B).
Proof. split; [intros st; exact (fun E => E) | intros a b c Hab Hbc E; auto]. Qed.

Lemma close_staysDown : keeps staysDown (@CrawlerAgent.close B _).
Proof.
  intros st Hst. unfold CrawlerAgent.close, bind, get. now rewrite Hst.
Qed.

Lemma saveScreenshot_staysDown now screenshotData :
  keeps staysDown (@saveScreenshot B now screenshotData).
Proof.
  intros st Hst. unfold saveScreenshot.
  cbv beta iota zeta delta [bind get try_catch modify ret lift]. simpl.
  destruct (negb (JS.truthy_opt _)); [exact Hst|].
  destruct (negb (Node.existsSync _ _)); simpl;
    repeat match goal with
           | |- context [Node.mkdirSync ?p ?d] =>
               destruct (Node.mkdirSync p d) as [[[]|?] ?]; simpl
           | |- context [Node.writeFileSync ?p ?c ?d] =>
               destruct (Node.writeFileSync p c d) as [[[]|?] ?]; simpl
           end; exact Hst.
Qed.

(** From an agent that is not initialized, operations other than
    [initialize] lead to agents that are not initialized. *)
Lemma down_until_initialize (core : MidsceneCore) ops (st : Agent B) :
  Forall (fun op => op <> op_initialize) ops ->
  isInitialized st = false -> isInitialized (afterAll core ops st) = false.
Proof.
  intros Hops.
  apply (afterAll_keeps core staysDown); try easy.
  - exact close_staysDown.
  - exact saveScreenshot_staysDown.
Qed.

End StaysDown.

(** C6, amended.  The agent keeps one flag: it is initialized or it is not,
    and there is no closed state apart from "not initialized".  [close] on
    an initialized agent calls the driver's [close] and, when that returns,
    leaves the agent not initialized (when it throws, [close] throws and the
    agent stays initialized).  [close] on an agent that is not initialized
    is a no-op: it returns and changes nothing, so no driver call is made;
    hence a second [close] after one that returned is safe.  From an agent
    that is not initialized, no sequence of operations without [initialize]
    makes it initialized. *)
Theorem close_then_only_initialize_reopens {B} `{BrowserInterface B}
    (core : MidsceneCore) (st : Agent B) :
  (isInitialized st = true ->
   match browser_close (browser st) with
   | (Returns _, _) =>
       fst (AIEnhancedAgent.close st) = Returns tt
       /\ isInitialized (snd (AIEnhancedAgent.close st)) = false
       /\ calls (snd (AIEnhancedAgent.close st)) = (calls st ++ [call_close])%list
   | (Throws msg, _) =>
       fst (AIEnhancedAgent.close st) = Throws msg
       /\ isInitialized (snd (AIEnhancedAgent.close st)) = true
   end)
  /\ (isInitialized st = false -> AIEnhancedAgent.close st = (Returns tt, st))
  /\ (fst (AIEnhancedAgent.close st) = Returns tt ->
      AIEnhancedAgent.close (snd (AIEnhancedAgent.close st))
        = (Returns tt, snd (AIEnhancedAgent.close st)))
  /\ (isInitialized st = false ->
      forall ops, Forall (fun op => op <> op_initialize) ops ->
        isInitialized (afterAll core ops st) = false).
Proof.
  unfold AIEnhancedAgent.close, CrawlerAgent.close.
  cbv beta iota zeta delta [bind get invoke modify ret]. simpl.
  repeat split.
  - intros Hst. rewrite Hst.
    destruct (browser_close (browser st)) as [[[]|msg] b']; simpl; auto.
  - intros Hst. now rewrite Hst.
  - destruct (isInitialized st) eqn:Hst; simpl; [|now rewrite Hst].
    destruct (browser_close (browser st)) as [[[]|msg] b']; simpl;
      [reflexivity | discriminate].
  - intros Hst ops Hops. now apply down_until_initialize.
Qed.

(** C6 as stated fails: after [close] on an initialized agent, [initialize]
    makes the agent initialized again. *)
Lemma close_is_not_final_counterexample :
  isInitialized Fixture.ready = true
  /\ fst (AIEnhancedAgent.close Fixture.ready) = Returns tt
  /\ isInitialized (snd (AIEnhancedAgent.close Fixture.ready)) = false
  /\ fst (AIEnhancedAgent.initialize (snd (AIEnhancedAgent.close Fixture.ready)))
     = Returns {| success := true; error := None; data := None |}
  /\ isInitialized
       (afterAll Fixture.noService [op_initialize]
          (snd (AIEnhancedAgent.close Fixture.ready))) = true.
Proof. repeat split. Qed.

(** ** Screenshot files *)

Section Names.

Lemma avoids_app c (a b : string) :
  avoids c (a +:+ b) = avoids c a && avoids c b.
Proof.
  induction a as [|h a IH]; [reflexivity|].
  change (String h a +:+ b) with (String h (a +:+ b)). simpl.
  rewrite IH. now rewrite andb_assoc.
Qed.

(** Two strings that agree and are cut at the first occurrence of a
    character agree on both sides of it. *)
Lemma cut_at_first c (a1 a2 b1 b2 : string) :
  avoids c a1 = true -> avoids c a2 = true ->
  a1 +:+ String c b1 = a2 +:+ String c b2 -> a1 = a2 /\ b1 = b2.
Proof.
  revert a2. induction a1 as [|h1 a1 IH]; intros [|h2 a2] H1 H2 E.
  - now inversion E.
  - change (String h2 a2 +:+ String c b2) with (String h2 (a2 +:+ String c b2)) in E.
    change ("" +:+ String c b1) with (String c b1) in E.
    inversion E; subst h2. simpl in H2. now rewrite Ascii.eqb_refl in H2.
  - change (String h1 a1 +:+ String c b1) with (String h1 (a1 +:+ String c b1)) in E.
    change ("" +:+ String c b2) with (String c b2) in E.
    inversion E; subst h1. simpl in H1. now rewrite Ascii.eqb_refl in H1.
  - change (String h1 a1 +:+ String c b1) with (String h1 (a1 +:+ String c b1)) in E.
    change (String h2 a2 +:+ String c b2) with (String h2 (a2 +:+ String c b2)) in E.
    inversion E; subst h2. simpl in H1, H2.
    apply andb_true_iff in H1 as [_ H1]. apply andb_true_iff in H2 as [_ H2].
    destruct (IH a2 H1 H2) as [-> ->]; [assumption|]. split; reflexivity.
Qed.

Lemma pretty_N_char_punctuation n c :
  c = "-"%char \/ c = "."%char -> Ascii.eqb (pretty_N_char n) c = false.
Proof.
  intros [-> | ->]; unfold pretty_N_char; repeat case_match; reflexivity.
Qed.

Lemma pretty_N_go_avoids c x :
  c = "-"%char \/ c = "."%char ->
  forall s, avoids c s = true -> avoids c (pretty_N_go x s) = true.
Proof.
  intros Hc. induction (N.lt_wf_0 x) as [x _ IH]; intros s Hs.
  assert (x = 0 \/ 0 < x) as [->|Hx] by lia.
  - now rewrite pretty_N_go_0.
  - rewrite pretty_N_go_step by exact Hx. apply IH.
    + now apply N.div_lt.
    + simpl. now rewrite pretty_N_char_punctuation, Hs.
Qed.

Lemma pretty_N_avoids c (n : N) :
  c = "-"%char \/ c = "."%char -> avoids c (pretty n) = true.
Proof.
  intros Hc. unfold pretty, pretty_N. case_decide.
  - destruct Hc as [-> | ->]; reflexivity.
  - now apply pretty_N_go_avoids.
Qed.

Lemma pretty_N_go_nonempty x : forall s, s <> "" -> pretty_N_go x s <> "".
Proof.
  induction (N.lt_wf_0 x) as [x _ IH]; intros s Hs.
  assert (x = 0 \/ 0 < x) as [->|Hx] by lia.
  - now rewrite pretty_N_go_0.
  - rewrite pretty_N_go_step by exact Hx. apply IH; [now apply N.div_lt|discriminate].
Qed.

Lemma pretty_N_nonempty (n : N) : pretty n <> "".
Proof.
  unfold pretty, pretty_N. case_decide; [discriminate|].
  rewrite pretty_N_go_step by lia. apply pretty_N_go_nonempty. discriminate.
Qed.

Lemma pretty_N_char_slash n : Ascii.eqb (pretty_N_char n) "/" = false.
Proof. unfold pretty_N_char; repeat case_match; reflexivity. Qed.

Lemma pretty_N_go_avoids_slash x :
  forall s, avoids "/" s = true -> avoids "/" (pretty_N_go x s) = true.
Proof.
  induction (N.lt_wf_0 x) as [x _ IH]; intros s Hs.
  assert (x = 0 \/ 0 < x) as [->|Hx] by lia.
  - now rewrite pretty_N_go_0.
  - rewrite pretty_N_go_step by exact Hx. apply IH.
    + now apply N.div_lt.
    + simpl. now rewrite pretty_N_char_slash, Hs.
Qed.

Lemma pretty_N_avoids_slash (n : N) : avoids "/" (pretty n) = true.
Proof.
  unfold pretty, pretty_N. case_decide; [reflexivity|].
  now apply pretty_N_go_avoids_slash.
Qed.

Lemma pretty_Z_avoids_slash (z : Z) : avoids "/" (pretty z) = true.
Proof.
  destruct z as [|p|p]; [reflexivity | apply (pretty_N_avoids_slash (N.pos p)) |].
  change (pretty (Z.neg p)) with ("-" +:+ pretty (N.pos p)).
  rewrite avoids_app. apply (pretty_N_avoids_slash (N.pos p)).
Qed.

(** A screenshot name is a plain segment of a path. *)
Lemma screenshotName_plain (now : Z) (counter : N) :
  plainSegment (screenshotName now counter) = true.
Proof.
  unfold plainSegment, screenshotName. apply andb_true_iff. split.
  - rewrite !avoids_app, pretty_Z_avoids_slash, pretty_N_avoids_slash. reflexivity.
  - reflexivity.
Qed.

(** The part of a name after the time stamp: [-<counter>.jpg]. *)
Lemma counter_suffix_inj (c1 c2 : N) :
  pretty c1 +:+ ".jpg" = pretty c2 +:+ ".jpg" -> c1 = c2.
Proof.
  intros E. change ".jpg" with (String "."%char "jpg") in E.
  apply cut_at_first in E as [E _]; try (apply pretty_N_avoids; now right).
  now apply (inj pretty).
Qed.

Lemma counter_suffix_avoids_dash (c : N) : avoids "-" (pretty c +:+ ".jpg") = true.
Proof. rewrite avoids_app, pretty_N_avoids by now left. reflexivity. Qed.

(** A screenshot name determines its counter (and its time stamp). *)
Lemma screenshotName_inj (now1 now2 : Z) (c1 c2 : N) :
  screenshotName now1 c1 = screenshotName now2 c2 -> now1 = now2 /\ c1 = c2.
Proof.
  unfold screenshotName. intros E.
  apply (inj (String.app "screenshot-")) in E.
  change ("-" +:+ pretty c1 +:+ ".jpg") with (String "-"%char (pretty c1 +:+ ".jpg")) in E.
  change ("-" +:+ pretty c2 +:+ ".jpg") with (String "-"%char (pretty c2 +:+ ".jpg")) in E.
  assert (Hnat : forall n : N, avoids "-" (pretty n) = true)
    by (intros n; apply pretty_N_avoids; now left).
  assert (Hpos : forall z : Z, (0 <= z)%Z -> avoids "-" (pretty z) = true).
  { intros [|p|p] Hz; [reflexivity | apply (Hnat (N.pos p)) | lia]. }
  destruct (Z.leb_spec 0 now1) as [H1|H1], (Z.leb_spec 0 now2) as [H2|H2].
  - apply cut_at_first in E as [E1 E2]; auto.
    split; [now apply (inj pretty) | now apply counter_suffix_inj].
  - exfalso. destruct now2 as [|p|p]; try lia.
    change (pretty (Z.neg p)) with ("-" +:+ pretty (N.pos p)) in E.
    change (("-" +:+ pretty (N.pos p)) +:+ String "-"%char (pretty c2 +:+ ".jpg"))
      with ("" +:+ String "-"%char (pretty (N.pos p) +:+ String "-"%char (pretty c2 +:+ ".jpg")))
      in E.
    apply cut_at_first in E as [E _]; auto.
    destruct now1 as [|q|q]; try lia; [discriminate E|].
    now apply (pretty_N_nonempty (N.pos q)).
  - exfalso. destruct now1 as [|p|p]; try lia.
    change (pretty (Z.neg p)) with ("-" +:+ pretty (N.pos p)) in E.
    change (("-" +:+ pretty (N.pos p)) +:+ String "-"%char (pretty c1 +:+ ".jpg"))
      with ("" +:+ String "-"%char (pretty (N.pos p) +:+ String "-"%char (pretty c1 +:+ ".jpg")))
      in E.
    apply cut_at_first in E as [E _]; auto.
    destruct now2 as [|q|q]; try lia; [discriminate E|].
    symmetry in E. now apply (pretty_N_nonempty (N.pos q)).
  - destruct now1 as [|p|p], now2 as [|q|q]; try lia.
    change (pretty (Z.neg p)) with ("-" +:+ pretty (N.pos p)) in E.
    change (pretty (Z.neg q)) with ("-" +:+ pretty (N.pos q)) in E.
    change (("-" +:+ pretty (N.pos p)) +:+ String "-"%char (pretty c1 +:+ ".jpg"))
      with (String "-"%char (pretty (N.pos p) +:+ String "-"%char (pretty c1 +:+ ".jpg")))
      in E.
    change (("-" +:+ pretty (N.pos q)) +:+ String "-"%char (pretty c2 +:+ ".jpg"))
      with (String "-"%char (pretty (N.pos q) +:+ String "-"%char (pretty c2 +:+ ".jpg")))
      in E.
    inversion E as [E']. apply cut_at_first in E' as [E1 E2]; auto.
    apply (inj pretty) in E1. inversion E1; subst q.
    split; [reflexivity | now apply counter_suffix_inj].
Qed.

End Names.

Section Paths.

Lemma append_assoc (a b c : string) : (a +:+ b) +:+ c = a +:+ (b +:+ c).
Proof.
  induction a as [|h a IH]; [reflexivity|].
  change (String h a +:+ b) with (String h (a +:+ b)).
  change (String h (a +:+ b) +:+ c) with (String h ((a +:+ b) +:+ c)).
  now rewrite IH.
Qed.

Lemma append_empty (a : string) : a +:+ "" = a.
Proof.
  induction a as [|h a IH]; [reflexivity|].
  change (String h a +:+ "") with (String h (a +:+ "")). now rewrite IH.
Qed.

Lemma segments_nonempty (p : string) : Node.segments p <> [].
Proof.
  destruct p as [|c p]; [discriminate|]. simpl.
  destruct (Ascii.eqb c "/"); [discriminate|].
  destruct (Node.segments p); discriminate.
Qed.

Lemma segments_plain (seg : string) :
  avoids "/" seg = true -> Node.segments seg = [seg].
Proof.
  induction seg as [|c seg IH]; [reflexivity|]. simpl. intros Hs.
  apply andb_true_iff in Hs as [Hc Hs]. apply negb_true_iff in Hc.
  now rewrite Hc, IH.
Qed.

Lemma segments_avoid (p : string) :
  Forall (fun seg => avoids "/" seg = true) (Node.segments p).
Proof.
  induction p as [|c p IH]; [now repeat constructor|]. simpl.
  destruct (Ascii.eqb c "/") eqn:Hc; [now constructor|].
  destruct (Node.segments p) as [|seg segs]; [repeat constructor; simpl; now rewrite Hc|].
  apply Forall_cons in IH as [Hseg Hsegs].
  constructor; [simpl; now rewrite Hc, Hseg | exact Hsegs].
Qed.

(** A last segment, after a slash. *)
Lemma segments_snoc (a seg : string) :
  avoids "/" seg = true ->
  Node.segments (a +:+ "/" +:+ seg) = (Node.segments a ++ [seg])%list.
Proof.
  intros Hseg. induction a as [|c a IH].
  - change ("" +:+ "/" +:+ seg) with (String "/" seg). simpl.
    now rewrite segments_plain.
  - change (String c a +:+ "/" +:+ seg) with (String c (a +:+ "/" +:+ seg)).
    simpl. rewrite IH. destruct (Ascii.eqb c "/"); [reflexivity|].
    pose proof (segments_nonempty a).
    destruct (Node.segments a); [congruence|reflexivity].
Qed.

Lemma plainSegment_spec (seg : string) :
  plainSegment seg = true ->
  avoids "/" seg = true /\ seg <> "" /\ seg <> "." /\ seg <> "..".
Proof.
  unfold plainSegment. intros Hp. apply andb_true_iff in Hp as [Hs Hp].
  apply negb_true_iff, orb_false_iff in Hp as [Hp H3].
  apply orb_false_iff in Hp as [H1 H2].
  apply String.eqb_neq in H1, H2, H3. auto.
Qed.

Lemma normalizeSegment_keeps (allow : bool) (kept : list string) (seg : string) :
  seg <> "" -> seg <> "." ->
  (seg = ".." -> allow = true /\ Forall (fun s => s = "..") kept) ->
  Node.normalizeSegment allow kept seg = seg :: kept.
Proof.
  intros H1 H2 H3. unfold Node.normalizeSegment.
  apply String.eqb_neq in H1, H2. rewrite H1, H2. simpl.
  destruct (String.eqb_spec seg "..") as [E|E]; [|reflexivity].
  destruct (H3 E) as [-> Hbelow].
  destruct kept as [|top below]; [reflexivity|].
  apply Forall_cons in Hbelow as [-> _]. reflexivity.
Qed.

Lemma stacked_step (allow : bool) (kept : list string) (seg : string) :
  avoids "/" seg = true ->
  stacked allow kept -> stacked allow (Node.normalizeSegment allow kept seg).
Proof.
  intros Hseg Hkept. unfold Node.normalizeSegment.
  destruct (String.eqb_spec seg "") as [E1|E1]; [exact Hkept|].
  destruct (String.eqb_spec seg ".") as [E2|E2]; [exact Hkept|]. simpl.
  destruct (String.eqb_spec seg "..") as [E3|E3].
  - destruct kept as [|top below].
    + destruct allow; [|exact I].
      refine (conj Hseg (conj E1 (conj E2 (conj _ I)))).
      intros _. split; [reflexivity|constructor].
    + destruct (String.eqb_spec top "..") as [E4|E4].
      * destruct allow; [|exact Hkept].
        refine (conj Hseg (conj E1 (conj E2 (conj _ Hkept)))).
        intros _. split; [reflexivity|].
        destruct Hkept as [_ [_ [_ [Ht3 _]]]].
        constructor; [exact E4 | now apply Ht3].
      * now destruct Hkept as [_ [_ [_ [_ Hbelow]]]].
  - refine (conj Hseg (conj E1 (conj E2 (conj _ Hkept)))). congruence.
Qed.

Lemma stacked_foldl (allow : bool) (segs : list string) :
  Forall (fun seg => avoids "/" seg = true) segs ->
  forall kept, stacked allow kept ->
    stacked allow (foldl (Node.normalizeSegment allow) kept segs).
Proof.
  induction segs as [|seg segs IH]; intros Hsegs kept Hkept; [exact Hkept|].
  apply Forall_cons in Hsegs as [Hseg Hsegs]. simpl.
  apply IH; [exact Hsegs|]. now apply stacked_step.
Qed.

(** Normalizing again what was kept keeps all of it. *)
Lemma stacked_replay (allow : bool) (kept : list string) :
  stacked allow kept -> foldl (Node.normalizeSegment allow) [] (rev kept) = kept.
Proof.
  induction kept as [|seg below IH]; [reflexivity|].
  intros [Hs [H1 [H2 [H3 Hbelow]]]]. simpl.
  rewrite foldl_app. simpl. rewrite IH by exact Hbelow.
  now apply normalizeSegment_keeps.
Qed.

Lemma joinSegments_cons (seg : string) (below : list string) :
  below <> [] ->
  Node.joinSegments (seg :: below) = Node.joinSegments below +:+ "/" +:+ seg.
Proof. destruct below; [congruence|reflexivity]. Qed.

Lemma stacked_avoid (allow : bool) (kept : list string) :
  stacked allow kept -> Forall (fun seg => avoids "/" seg = true) kept.
Proof.
  induction kept as [|seg below IH]; [constructor|].
  intros [Hs [_ [_ [_ Hbelow]]]]. constructor; auto.
Qed.

Lemma segments_joinSegments (kept : list string) :
  kept <> [] -> Forall (fun seg => avoids "/" seg = true) kept ->
  Node.segments (Node.joinSegments kept) = rev kept.
Proof.
  induction kept as [|seg below IH]; [congruence|]. intros _ Hall.
  apply Forall_cons in Hall as [Hseg Hall].
  destruct below as [|next below]; [now apply segments_plain|].
  rewrite joinSegments_cons by discriminate.
  rewrite segments_snoc by exact Hseg. now rewrite IH.
Qed.

Lemma app_nonempty_l (a b : string) : a <> "" -> a +:+ b <> "".
Proof. destruct a as [|c a]; [congruence|]. intros _. discriminate. Qed.

Lemma app_nonempty_r (a b : string) : b <> "" -> a +:+ b <> "".
Proof.
  destruct a as [|c a]; [now intros|]. intros _. discriminate.
Qed.

Lemma joinSegments_nonempty (allow : bool) (kept : list string) :
  kept <> [] -> stacked allow kept -> Node.joinSegments kept <> "".
Proof.
  destruct kept as [|seg below]; [congruence|]. intros _ [_ [H1 _]].
  destruct below; [exact H1|]. rewrite joinSegments_cons by discriminate.
  apply app_nonempty_r, app_nonempty_r. exact H1.
Qed.

Lemma isAbsolute_app (a b : string) :
  a <> "" -> Node.isAbsolute (a +:+ b) = Node.isAbsolute a.
Proof. destruct a; [congruence|reflexivity]. Qed.

Lemma isAbsolute_avoids (seg : string) :
  avoids "/" seg = true -> Node.isAbsolute seg = false.
Proof.
  destruct seg as [|c seg]; [reflexivity|]. simpl. intros Hs.
  apply andb_true_iff in Hs as [Hc _]. now apply negb_true_iff in Hc.
Qed.

Lemma isAbsolute_joinSegments (allow : bool) (kept : list string) :
  stacked allow kept -> Node.isAbsolute (Node.joinSegments kept) = false.
Proof.
  induction kept as [|seg below IH]; [reflexivity|].
  intros [Hs [H1 [_ [_ Hbelow]]]].
  destruct below as [|next below]; [now apply isAbsolute_avoids|].
  rewrite joinSegments_cons by discriminate.
  rewrite isAbsolute_app; [now apply IH|].
  now apply (joinSegments_nonempty allow).
Qed.

Lemma trailingSeparator_app (a b : string) :
  b <> "" -> Node.trailingSeparator (a +:+ b) = Node.trailingSeparator b.
Proof.
  intros Hb. induction a as [|c a IH]; [reflexivity|].
  change (String c a +:+ b) with (String c (a +:+ b)).
  cbn [Node.trailingSeparator]. rewrite IH.
  destruct (a +:+ b) eqn:E; [|reflexivity].
  now apply app_nonempty_r in E.
Qed.

Lemma trailingSeparator_avoids (seg : string) :
  avoids "/" seg = true -> Node.trailingSeparator seg = false.
Proof.
  induction seg as [|c seg IH]; [reflexivity|]. simpl. intros Hs.
  apply andb_true_iff in Hs as [Hc Hs]. apply negb_true_iff in Hc.
  destruct seg; [exact Hc | now apply IH].
Qed.

(** [path.normalize] of a path that ends with a plain segment, in terms of
    the segments kept of what comes before it. *)
Lemma normalize_snoc (a seg : string) :
  plainSegment seg = true ->
  let p := a +:+ "/" +:+ seg in
  Node.normalize p
    = (if Node.isAbsolute p then "/" else "")
      +:+ Node.joinSegments
            (seg :: foldl (Node.normalizeSegment (negb (Node.isAbsolute p))) []
                      (Node.segments a)).
Proof.
  intros Hplain p. apply plainSegment_spec in Hplain as [Hs [H1 [H2 H3]]].
  unfold Node.normalize, Node.normalizeString.
  assert (Hp : p <> "") by (apply app_nonempty_r; discriminate).
  apply String.eqb_neq in Hp. rewrite Hp. cbv zeta.
  assert (Hsegs : Node.segments p = (Node.segments a ++ [seg])%list)
    by (now apply segments_snoc).
  rewrite Hsegs, foldl_app. cbn [foldl].
  rewrite normalizeSegment_keeps by (auto; congruence).
  set (kept := foldl _ [] (Node.segments a)).
  assert (Hq : Node.joinSegments (seg :: kept) <> "").
  { destruct kept; [exact H1|]. rewrite joinSegments_cons by discriminate.
    now apply app_nonempty_r, app_nonempty_r. }
  apply String.eqb_neq in Hq. rewrite Hq.
  replace (Node.trailingSeparator p) with false.
  - now rewrite append_empty.
  - unfold p. rewrite trailingSeparator_app by (now apply app_nonempty_r).
    rewrite trailingSeparator_app by exact H1.
    symmetry. now apply trailingSeparator_avoids.
Qed.

Lemma normalize_nonempty (p : string) : Node.normalize p <> "".
Proof.
  unfold Node.normalize. destruct (String.eqb p ""); [discriminate|].
  destruct (String.eqb_spec (Node.normalizeString p (negb (Node.isAbsolute p))) "")
    as [E|E].
  - destruct (Node.isAbsolute p); [discriminate|].
    destruct (Node.trailingSeparator p); discriminate.
  - apply app_nonempty_r, app_nonempty_l. exact E.
Qed.

Lemma join_nonempty_path (a b : string) : Node.join a b <> "".
Proof.
  unfold Node.join.
  destruct (String.eqb a ""), (String.eqb b "");
    try discriminate; apply normalize_nonempty.
Qed.

(** [path.join] on some directories: [.] and empty segments go, [..] takes
    a segment away, a slash at the end stays. *)
Lemma join_normalizes :
  Node.join "./crawler-ai-output" "screenshots" = "crawler-ai-output/screenshots"
  /\ Node.join "out/" "screenshots" = "out/screenshots"
  /\ Node.join "/" "screenshots" = "/screenshots"
  /\ Node.join "." "screenshots" = "screenshots"
  /\ Node.join "a//b/./c/.." "shot.jpg" = "a/b/shot.jpg"
  /\ Node.join "../a/../.." "screenshots" = "../../screenshots"
  /\ Node.join "/.." "screenshots" = "/screenshots"
  /\ Node.join "a/b/" "" = "a/b/"
  /\ Node.join "a/.." "" = "."
  /\ Node.join "" "" = ".".
Proof. repeat split. Qed.

(** A plain segment joined to a directory comes last, after what
    [path.join] makes of the directory. *)
Lemma join_plain (a : string) :
  a <> "" ->
  exists parent, forall seg,
    plainSegment seg = true -> Node.join a seg = parent +:+ seg.
Proof.
  intros Ha.
  exists ((if Node.isAbsolute a then "/" else "")
          +:+ match foldl (Node.normalizeSegment (negb (Node.isAbsolute a))) []
                      (Node.segments a) with
              | [] => ""
              | kept => Node.joinSegments kept +:+ "/"
              end).
  intros seg Hplain. unfold Node.join.
  pose proof (plainSegment_spec seg Hplain) as [_ [H1 _]].
  apply String.eqb_neq in Ha, H1. rewrite Ha, H1.
  rewrite normalize_snoc by exact Hplain.
  apply String.eqb_neq in Ha. rewrite isAbsolute_app by exact Ha.
  rewrite append_assoc. f_equal.
  destruct (foldl _ [] (Node.segments a)) as [|top below]; [reflexivity|].
  rewrite joinSegments_cons by discriminate. now rewrite append_assoc.
Qed.

Lemma segments_absolute (p : string) :
  Node.segments ("/" +:+ p) = "" :: Node.segments p.
Proof. reflexivity. Qed.

Lemma normalizeSegment_empty (allow : bool) (kept : list string) :
  Node.normalizeSegment allow kept "" = kept.
Proof. reflexivity. Qed.

(** A plain segment joined to a directory that [path.join] made with a
    plain segment at its end goes after it and a slash. *)
Lemma join_join_plain (a folder seg : string) :
  a <> "" -> plainSegment folder = true -> plainSegment seg = true ->
  Node.join (Node.join a folder) seg = Node.join a folder +:+ "/" +:+ seg.
Proof.
  intros Ha Hfolder Hseg.
  pose proof (plainSegment_spec folder Hfolder) as [Hf [Hf1 [Hf2 Hf3]]].
  assert (E : Node.join a folder = Node.normalize (a +:+ "/" +:+ folder)).
  { unfold Node.join. apply String.eqb_neq in Ha, Hf1. now rewrite Ha, Hf1. }
  rewrite E at 1. unfold Node.join at 1.
  pose proof (normalize_nonempty (a +:+ "/" +:+ folder)) as Hn.
  pose proof (plainSegment_spec seg Hseg) as [_ [Hs1 _]].
  apply String.eqb_neq in Hn, Hs1. rewrite Hn, Hs1.
  rewrite normalize_snoc by exact Hseg.
  rewrite E, (normalize_snoc a folder Hfolder).
  rewrite (isAbsolute_app a) by exact Ha.
  set (allow := negb (Node.isAbsolute a)).
  set (kept := foldl (Node.normalizeSegment allow) [] (Node.segments a)).
  assert (Hkept : stacked allow (folder :: kept)).
  { repeat split; auto; [congruence|].
    apply stacked_foldl; [apply segments_avoid | exact I]. }
  set (sd := (if Node.isAbsolute a then "/" else "")
             +:+ Node.joinSegments (folder :: kept)).
  assert (Habs : Node.isAbsolute (sd +:+ "/" +:+ seg) = Node.isAbsolute a).
  { unfold sd. destruct (Node.isAbsolute a) eqn:Hab; [reflexivity|].
    change ("" +:+ ?x) with x.
    rewrite isAbsolute_app by (now apply (joinSegments_nonempty allow)).
    now apply (isAbsolute_joinSegments allow). }
  rewrite Habs. fold allow.
  assert (Hsegs : foldl (Node.normalizeSegment allow) [] (Node.segments sd)
                  = folder :: kept).
  { unfold sd. destruct (Node.isAbsolute a).
    - rewrite segments_absolute. cbn [foldl]. rewrite normalizeSegment_empty.
      rewrite segments_joinSegments by
        (try discriminate; now apply (stacked_avoid allow)).
      now apply stacked_replay.
    - change ("" +:+ ?x) with x.
      rewrite segments_joinSegments by
        (try discriminate; now apply (stacked_avoid allow)).
      now apply stacked_replay. }
  rewrite Hsegs. rewrite joinSegments_cons by discriminate.
  unfold sd. now rewrite !append_assoc.
Qed.

End Paths.

Section Screenshots.

Context {B : Type} `{BrowserInterface B}.

(** The path of a screenshot, spelled out: the name, after the directory
    [path.join] makes of the output directory and [screenshots]. *)
Lemma screenshot_path (dir : string) (now : Z) (counter : N) :
  dir <> "" ->
  Node.join (Node.join dir "screenshots") (screenshotName now counter)
    = Node.join dir "screenshots" +:+ "/screenshot-" +:+ pretty now +:+ "-"
          +:+ pretty counter +:+ ".jpg".
Proof.
  intros Hdir.
  now rewrite join_join_plain by (auto using screenshotName_plain).
Qed.

#[local] Instance countsUp_preorder : PreOrder (@countsUp B).
Proof.
  split.
  - intros st. split; [lia|reflexivity].
  - intros a b c [Hab Eab] [Hbc Ebc]. split; [lia|congruence].
Qed.

(** What one call of [saveScreenshot] does: the counter does not go down
    and the options stay; and when a path comes back, the file of that
    path was written, under the name made of the clock reading and the
    counter, which went up by one. *)
Lemma saveScreenshot_writes now screenshotData (st : Agent B) :
  countsUp st (snd (saveScreenshot now screenshotData st))
  /\ forall p,
       fst (saveScreenshot now screenshotData st) = Returns p -> p <> "" ->
       exists dir,
         outputDir (aiOptions st) = Some dir
         /\ dir <> ""
         /\ p = Node.join (Node.join dir "screenshots")
                  (screenshotName now (screenshotCounter st + 1))
         /\ screenshotCounter (snd (saveScreenshot now screenshotData st))
            = screenshotCounter st + 1
         /\ written (disk (snd (saveScreenshot now screenshotData st)))
            = (written (disk st) ++ [(p, screenshotData)])%list.
Proof.
  unfold saveScreenshot, countsUp.
  cbv beta iota zeta delta
    [bind get try_catch modify ret lift Node.mkdirSync Node.writeFileSync].
  simpl.
  destruct (outputDir (aiOptions st)) as [dir|] eqn:Hdir; simpl;
    [|split; [split; [lia|reflexivity] | intros p [= <-] Hp; congruence]].
  destruct (JS.truthy dir) eqn:Htruthy; simpl;
    [|split; [split; [lia|reflexivity] | intros p [= <-] Hp; congruence]].
  assert (Hne : dir <> "") by (intros ->; discriminate Htruthy).
  destruct (Node.existsSync _ (disk st)); simpl.
  - destruct (refused (disk st) _) as [msg|] eqn:Hw; simpl.
    + split; [split; [lia|reflexivity] | intros p [= <-] Hp; congruence].
    + split; [split; [lia|reflexivity]|].
      intros p [= <-] _. exists dir.
      exact (conj eq_refl (conj Hne (conj eq_refl (conj eq_refl eq_refl)))).
  - destruct (refused (disk st) (Node.join dir "screenshots")) as [msg|]; simpl.
    + split; [split; [lia|reflexivity] | intros p [= <-] Hp; congruence].
    + destruct (refused (disk st) _) as [msg|] eqn:Hw; simpl.
      * split; [split; [lia|reflexivity] | intros p [= <-] Hp; congruence].
      * split; [split; [lia|reflexivity]|].
        intros p [= <-] _. exists dir.
        exact (conj eq_refl (conj Hne (conj eq_refl (conj eq_refl eq_refl)))).
Qed.

Lemma close_countsUp : keeps countsUp (@CrawlerAgent.close B _).
Proof.
  intros st. unfold CrawlerAgent.close, countsUp.
  cbv beta iota zeta delta [bind get invoke modify ret]. simpl.
  destruct (isInitialized st); simpl; [|split; [lia|reflexivity]].
  destruct (browser_close (browser st)) as [[[]|msg] b']; simpl;
    split; try lia; reflexivity.
Qed.

(** Without [initialize], the counter never goes down. *)
Lemma counter_until_initialize (core : MidsceneCore) ops (st : Agent B) :
  Forall (fun op => op <> op_initialize) ops ->
  countsUp st (afterAll core ops st).
Proof.
  intros Hops.
  apply (afterAll_keeps core countsUp); try easy;
    try (intros; split; [simpl; lia | reflexivity]).
  - exact close_countsUp.
  - intros now screenshotData st'. apply saveScreenshot_writes.
Qed.

End Screenshots.

(** C9, amended.  A screenshot file an agent writes has the path
    [path.join(outputDir, 'screenshots', name)]: the name
    [screenshot-<epoch_ms>-<counter>.jpg], where the counter is the agent's,
    increased by one for the call, in the directory [path.join] makes of
    the output directory and [screenshots].  For two writes of one agent
    with no [initialize] between them, whatever other operations come
    between and whatever the clock reads, the counter of the second is
    greater and the two paths are distinct.  ([initialize] resets the
    counter: across it, distinct names rest on the time stamp alone.) *)
Theorem screenshots_between_initializations_are_distinct {B} `{BrowserInterface B}
    (core : MidsceneCore) (st : Agent B) (ops : list Operation)
    (now1 now2 : Z) (data1 data2 : Buffer) (path1 path2 : string) :
  let first := saveScreenshot now1 data1 st in
  let between := afterAll core ops (snd first) in
  let second := saveScreenshot now2 data2 between in
  Forall (fun op => op <> op_initialize) ops ->
  fst first = Returns path1 -> path1 <> "" ->
  fst second = Returns path2 -> path2 <> "" ->
  exists (dir folder : string) (counter1 counter2 : N),
    outputDir (aiOptions st) = Some dir
    /\ folder = Node.join dir "screenshots"
    /\ (exists parent, folder = parent +:+ "screenshots")
    /\ counter1 = screenshotCounter st + 1
    /\ counter1 < counter2
    /\ path1 = folder +:+ "/screenshot-" +:+ pretty now1 +:+ "-"
                   +:+ pretty counter1 +:+ ".jpg"
    /\ path2 = folder +:+ "/screenshot-" +:+ pretty now2 +:+ "-"
                   +:+ pretty counter2 +:+ ".jpg"
    /\ last (written (disk (snd first))) = Some (path1, data1)
    /\ last (written (disk (snd second))) = Some (path2, data2)
    /\ path1 <> path2.
Proof.
  intros first between second Hops E1 N1 E2 N2.
  destruct (saveScreenshot_writes now1 data1 st) as [_ W1].
  destruct (W1 path1 E1 N1) as [dir [Hdir [Hne [P1 [C1 F1]]]]].
  destruct (saveScreenshot_writes now2 data2 between) as [_ W2].
  destruct (W2 path2 E2 N2) as [dir2 [Hdir2 [_ [P2 [C2 F2]]]]].
  destruct (counter_until_initialize core ops (snd first) Hops) as [Hle Hopt].
  destruct (saveScreenshot_writes now1 data1 st) as [[_ Hopt1] _].
  fold first in C1, F1, Hopt1, Hle, Hopt. fold between in Hle, Hopt.
  fold second in C2, F2.
  assert (dir2 = dir) as -> by congruence.
  rewrite screenshot_path in P1, P2 by exact Hne.
  exists dir, (Node.join dir "screenshots"),
    (screenshotCounter st + 1), (screenshotCounter between + 1).
  split; [exact Hdir|]. split; [reflexivity|].
  split.
  { destruct (join_plain dir Hne) as [parent Hparent].
    exists parent. now apply Hparent. }
  split; [reflexivity|]. split; [lia|].
  split; [exact P1|]. split; [exact P2|].
  split; [rewrite F1; apply last_snoc|]. split; [rewrite F2; apply last_snoc|].
  rewrite P1, P2. intros E.
  apply (inj (String.app _)) in E. apply (inj (String.app "/screenshot-")) in E.
  assert (E' : screenshotName now1 (screenshotCounter st + 1)
               = screenshotName now2 (screenshotCounter between + 1))
    by (unfold screenshotName; congruence).
  apply screenshotName_inj in E' as [_ E']. lia.
Qed.

Lemma screenshots_between_initializations_are_distinct_witness :
  exists (dir folder : string) (counter1 counter2 : N),
    outputDir (aiOptions Fixture.ready) = Some dir
    /\ folder = Node.join dir "screenshots"
    /\ (exists parent, folder = parent +:+ "screenshots")
    /\ counter1 = screenshotCounter Fixture.ready + 1
    /\ counter1 < counter2
    /\ "crawler-ai-output/screenshots/screenshot-1700000000000-1.jpg"
       = folder +:+ "/screenshot-" +:+ pretty 1700000000000%Z +:+ "-"
             +:+ pretty counter1 +:+ ".jpg"
    /\ "crawler-ai-output/screenshots/screenshot-1700000000000-2.jpg"
       = folder +:+ "/screenshot-" +:+ pretty 1700000000000%Z +:+ "-"
             +:+ pretty counter2 +:+ ".jpg"
    /\ last (written (disk (snd (saveScreenshot 1700000000000 [Byte.x01] Fixture.ready))))
       = Some ("crawler-ai-output/screenshots/screenshot-1700000000000-1.jpg",
               [Byte.x01])
    /\ last (written (disk (snd
         (saveScreenshot 1700000000000 [Byte.x02]
            (afterAll Fixture.noService [op_action act_takeScreenshot; op_close]
               (snd (saveScreenshot 1700000000000 [Byte.x01] Fixture.ready)))))))
       = Some ("crawler-ai-output/screenshots/screenshot-1700000000000-2.jpg",
               [Byte.x02])
    /\ "crawler-ai-output/screenshots/screenshot-1700000000000-1.jpg"
       <> "crawler-ai-output/screenshots/screenshot-1700000000000-2.jpg".
Proof.
  apply (screenshots_between_initializations_are_distinct Fixture.noService
           Fixture.ready [op_action act_takeScreenshot; op_close]
           1700000000000 1700000000000 [Byte.x01] [Byte.x02]).
  - repeat constructor; discriminate.
  - vm_compute. reflexivity.
  - discriminate.
  - vm_compute. reflexivity.
  - discriminate.
Defined.

(** C9 as stated fails: [initialize] sets the counter back to zero, so it is
    not monotonic over the life of the agent, and a write before and a
    write after an [initialize], made at the same clock reading, go to the
    same file. *)
Lemma screenshot_name_repeats_after_initialize_counterexample :
  let first := saveScreenshot 1700000000000 [Byte.x01] Fixture.ready in
  let again := AIEnhancedAgent.initialize (snd first) in
  let second := saveScreenshot 1700000000000 [Byte.x02] (snd again) in
  outputDir (aiOptions Fixture.ready) = Some "./crawler-ai-output"
  /\ screenshotCounter (snd first) = 1
  /\ fst again = Returns {| success := true; error := None; data := None |}
  /\ screenshotCounter (snd again) = 0
  /\ fst first
     = Returns "crawler-ai-output/screenshots/screenshot-1700000000000-1.jpg"
  /\ fst second
     = Returns "crawler-ai-output/screenshots/screenshot-1700000000000-1.jpg"
  /\ written (disk (snd second))
     = [("crawler-ai-output/screenshots/screenshot-1700000000000-1.jpg", [Byte.x01]);
        ("crawler-ai-output/screenshots/screenshot-1700000000000-1.jpg", [Byte.x02])].
Proof. cbv zeta. repeat split; vm_compute; reflexivity. Qed.

(** ** Executing a plan *)

Section PlanExecution.

Context {B : Type} `{BrowserInterface B} (core : MidsceneCore).

Lemma returns_caught {A} (m : M B A) (recover : string -> A) :
  returns (try_catch m (fun msg => ret (recover msg))).
Proof.
  intros st. unfold try_catch. destruct (m st) as [[a|msg] st']; eauto.
Qed.

Lemma returns_guarded (m : M B Result) : returns m -> returns (guarded m).
Proof.
  intros Hm st. unfold guarded, bind, get.
  destruct (negb (isInitialized st)); [unfold ret; eauto | apply Hm].
Qed.

Lemma click_returns description : returns (click core description).
Proof. unfold click. apply returns_caught. Qed.

Lemma input_returns description txt : returns (input core description txt).
Proof. unfold input. apply returns_caught. Qed.

Lemma extractText_returns sel : returns (@extractText B _ sel).
Proof. unfold extractText. apply returns_guarded, returns_caught. Qed.

(** A step always yields an entry, of the step's type. *)
Lemma executeStep_returns (action : PlanStep) (st : Agent B) :
  exists r st', executeStep core action st = (Returns r, st')
                /\ res_type r = type action.
Proof.
  unfold executeStep.
  destruct (String.eqb_spec (type action) "click") as [E|_].
  { destruct (click_returns (element (default noParams (params action))) st)
      as [a [st' Ha]].
    exists (entry "click" a), st'. split; [|now rewrite E].
    now rewrite (bind_returns _ _ _ _ _ Ha). }
  destruct (String.eqb_spec (type action) "input") as [E|_].
  { destruct (input_returns (element (default noParams (params action)))
                (text (default noParams (params action))) st) as [a [st' Ha]].
    exists (entry "input" a), st'. split; [|now rewrite E].
    now rewrite (bind_returns _ _ _ _ _ Ha). }
  destruct (String.eqb_spec (type action) "extract") as [E|_].
  { destruct (extractText_returns
                (JS.or_string (selector (default noParams (params action))) "body") st)
      as [a [st' Ha]].
    exists (entry "extract" a), st'. split; [|now rewrite E].
    now rewrite (bind_returns _ _ _ _ _ Ha). }
  eexists _, st. split; reflexivity.
Qed.

(** The loop of [executePlan], from any array of results so far: it adds
    the entries of a prefix of the steps, each executed in its turn, and
    stops short of the end exactly after a step that failed with
    [params.optional] not set. *)
Lemma executeActions_prefix (todo : list PlanStep) :
  forall (done : list StepResult) (st : Agent B),
  exists (rs : list StepResult) (st' : Agent B),
    executeActions core todo done st = (Returns (done ++ rs)%list, st')
    /\ executeEvery core (take (length rs) todo) st = (rs, st')
    /\ (length rs <= length todo)%nat
    /\ map res_type rs = map type (take (length rs) todo)
    /\ (forall i step r, todo !! i = Some step -> rs !! i = Some r ->
          stopsAfter step r = true -> S i = length rs)
    /\ ((length rs < length todo)%nat ->
          exists k step r, length rs = S k /\ todo !! k = Some step
                           /\ rs !! k = Some r /\ stopsAfter step r = true).
Proof.
  induction todo as [|action rest IH]; intros done st.
  - exists [], st. simpl. rewrite app_nil_r.
    refine (conj eq_refl (conj eq_refl (conj _ (conj eq_refl (conj _ _))))).
    + lia.
    + intros i step r Hstep. now rewrite lookup_nil in Hstep.
    + lia.
  - destruct (executeStep_returns action st) as [r [st1 [Hr Hty]]].
    cbn [executeActions]. rewrite (bind_returns _ _ _ _ _ Hr).
    destruct (stopsAfter action r) eqn:Hstop.
    + exists [r], st1. cbn [length take executeEvery]. rewrite Hr.
      refine (conj eq_refl (conj eq_refl (conj _ (conj _ (conj _ _))))).
      * simpl. lia.
      * simpl. now rewrite Hty.
      * intros [|i] step r' Hstep Hr'; [reflexivity|].
        change ([r] !! S i) with (@nil StepResult !! i) in Hr'.
        now rewrite lookup_nil in Hr'.
      * intros _. exists 0%nat, action, r. repeat split; assumption.
    + destruct (IH (done ++ [r])%list st1)
        as [rs [st' [Hrun [Hevery [Hlen [Htys [Hlast Hshort]]]]]]].
      exists (r :: rs), st'. cbn [length take executeEvery]. rewrite Hr, Hevery.
      refine (conj _ (conj eq_refl (conj _ (conj _ (conj _ _))))).
      * rewrite Hrun. now rewrite <- app_assoc.
      * lia.
      * simpl. now rewrite Hty, Htys.
      * intros [|i] step r' Hstep Hr' Hstop'.
        -- simpl in Hstep, Hr'. inversion Hstep; inversion Hr'; subst.
           congruence.
        -- f_equal. now apply (Hlast i step r').
      * intros Hlt. destruct Hshort as [k [step [r' [Hk [Hstep [Hr' Hstop']]]]]]; [lia|].
        exists (S k), step, r'. repeat split; try assumption. now rewrite Hk.
Qed.

End PlanExecution.

(** C2, amended.  [executePlan] never throws.  It executes the steps of the
    plan in order and returns the entries of the steps it executed: they
    are the entries of a prefix of the plan, each step executed in its turn
    on the state the previous one left, and the agent ends in the state
    after that prefix, so that no later step is attempted.  The flag that
    lets execution go on after a failure is read from the step's [params]
    ([params.optional]), not from the step itself: a step that fails with
    [params.optional] not set is the last one executed, and execution stops
    before the end of the plan only after such a step.  [success] is true
    if and only if every executed step succeeded. *)
Theorem executePlan_stops_at_first_required_failure {B} `{BrowserInterface B}
    (core : MidsceneCore) (plan : Plan) (st : Agent B) :
  let steps := default [] (actions plan) in
  exists (results : list StepResult) (st' : Agent B),
    executePlan core plan st
      = (Returns {| success := forallb res_success results; error := None;
                    data := Some {| data_actions := results |} |}, st')
    /\ (length results <= length steps)%nat
    /\ executeEvery core (take (length results) steps) st = (results, st')
    /\ map res_type results = map type (take (length results) steps)
    /\ (forall i step r,
          steps !! i = Some step -> results !! i = Some r ->
          res_success r = false ->
          JS.truthy_bool (optional (default noParams (params step))) = false ->
          S i = length results)
    /\ ((length results < length steps)%nat ->
          exists k step r,
            length results = S k /\ steps !! k = Some step /\ results !! k = Some r
            /\ res_success r = false
            /\ JS.truthy_bool (optional (default noParams (params step))) = false)
    /\ (forallb res_success results = true
        <-> forall r, In r results -> res_success r = true).
Proof.
  intros steps.
  destruct (executeActions_prefix core steps [] st)
    as [rs [st' [Hrun [Hevery [Hlen [Htys [Hlast Hshort]]]]]]].
  exists rs, st'. unfold executePlan. fold steps.
  erewrite try_catch_returns
    by (erewrite bind_returns by exact Hrun; reflexivity).
  refine (conj eq_refl (conj Hlen (conj Hevery (conj Htys (conj _ (conj _ _)))))).
  - intros i step r Hstep Hr Hfail Hopt. apply (Hlast i step r Hstep Hr).
    unfold stopsAfter. now rewrite Hfail, Hopt.
  - intros Hlt. destruct (Hshort Hlt) as [k [step [r [Hk [Hstep [Hr Hstop]]]]]].
    unfold stopsAfter in Hstop. apply andb_true_iff in Hstop as [Hf Ho].
    apply negb_true_iff in Hf, Ho. eauto 10.
  - apply forallb_forall.
Qed.

(** C2 as stated fails on the step's own flag.  The first plan: a step of
    an unsupported type with [params.optional] set and no flag on the step
    fails, and the next step is executed all the same.  The second plan:
    the same step with the flag on the step and none in [params] fails, and
    execution stops there. *)
Lemma executePlan_reads_optional_from_params_counterexample :
  let inParams :=
    {| type := "hover";
       params := Some {| element := None; text := None; selector := None;
                         optional := Some true |};
       step_optional := None |} in
  let onStep :=
    {| type := "hover"; params := None; step_optional := Some true |} in
  let extract :=
    {| type := "extract";
       params := Some {| element := None; text := None; selector := Some "h1";
                         optional := None |};
       step_optional := None |} in
  let unsupported :=
    {| res_type := "hover"; res_success := false; res_data := None;
       res_error := Some "Unsupported action type: hover" |} in
  fst (executePlan Fixture.noService {| actions := Some [inParams; extract] |}
         Fixture.ready)
    = Returns {| success := false; error := None;
                 data := Some {| data_actions :=
                   [unsupported;
                    {| res_type := "extract"; res_success := true;
                       res_data := Some (data_texts ["Results"]);
                       res_error := None |}] |} |}
  /\ fst (executePlan Fixture.noService {| actions := Some [onStep; extract] |}
            Fixture.ready)
    = Returns {| success := false; error := None;
                 data := Some {| data_actions := [unsupported] |} |}.
Proof. cbv zeta. split; vm_compute; reflexivity. Qed.

(** * Further properties *)

(** ** File names *)

Section FileNames.

Lemma substring_length (n : nat) (s : string) :
  (String.length (String.substring 0 n s) <= n)%nat.
Proof.
  revert s. induction n as [|n IH]; intros [|c s]; simpl; try lia.
  specialize (IH s). lia.
Qed.

Lemma substring_whole (n : nat) (s : string) :
  (String.length s <= n)%nat -> String.substring 0 n s = s.
Proof.
  revert s. induction n as [|n IH]; intros [|c s] Hlen; simpl in *;
    try reflexivity; try lia.
  rewrite IH by lia. reflexivity.
Qed.

Lemma substring_everyChar test (n : nat) (s : string) :
  everyChar test s = true -> everyChar test (String.substring 0 n s) = true.
Proof.
  revert s. induction n as [|n IH]; intros [|c s] Hs; simpl in *; try reflexivity.
  apply andb_true_iff in Hs as [Hc Hs]. now rewrite Hc, IH.
Qed.

Lemma noDashRun_step (c d : ascii) (s : string) :
  noDashRun (String c (String d s))
    = negb (Utils.isDash c && Utils.isDash d) && noDashRun (String d s).
Proof. reflexivity. Qed.

Lemma substring_noDashRun (n : nat) (s : string) :
  noDashRun s = true -> noDashRun (String.substring 0 n s) = true.
Proof.
  revert s. induction n as [|n IH]; intros [|c s] Hs; try reflexivity.
  change (String.substring 0 (S n) (String c s))
    with (String c (String.substring 0 n s)).
  specialize (IH s).
  destruct s as [|d s]; [destruct n; reflexivity|].
  rewrite noDashRun_step in Hs. apply andb_true_iff in Hs as [Hcd Hs].
  specialize (IH Hs). destruct n as [|n]; [reflexivity|].
  change (String.substring 0 (S n) (String d s))
    with (String d (String.substring 0 n s)) in *.
  now rewrite noDashRun_step, Hcd, IH.
Qed.

Lemma collapseDashes_step (c d : ascii) (s : string) :
  Utils.collapseDashes (String c (String d s))
    = if Utils.isDash c && Utils.isDash d
      then Utils.collapseDashes (String d s)
      else String c (Utils.collapseDashes (String d s)).
Proof. reflexivity. Qed.

(** Collapsing keeps the first character of a string, up to its being a
    dash. *)
Lemma collapseDashes_head (c : ascii) (s : string) :
  exists c' s', Utils.collapseDashes (String c s) = String c' s'
                /\ Utils.isDash c' = Utils.isDash c.
Proof.
  revert c. induction s as [|d s IH]; intros c; [now exists c, EmptyString|].
  rewrite collapseDashes_step.
  destruct (Utils.isDash c && Utils.isDash d) eqn:E.
  - apply andb_true_iff in E as [Hc Hd].
    destruct (IH d) as [c' [s' [Heq Hdash]]]. exists c', s'.
    split; [exact Heq | congruence].
  - eexists _, _. split; reflexivity.
Qed.

Lemma collapseDashes_noDashRun (s : string) :
  noDashRun (Utils.collapseDashes s) = true.
Proof.
  induction s as [|c s IH]; [reflexivity|].
  destruct s as [|d s]; [reflexivity|].
  rewrite collapseDashes_step.
  destruct (Utils.isDash c && Utils.isDash d) eqn:E; [exact IH|].
  destruct (collapseDashes_head d s) as [d' [s' [Heq Hdash]]].
  rewrite Heq in IH |- *. now rewrite noDashRun_step, Hdash, E, IH.
Qed.

Lemma collapseDashes_everyChar test (s : string) :
  everyChar test s = true -> everyChar test (Utils.collapseDashes s) = true.
Proof.
  induction s as [|c s IH]; [reflexivity|]. intros Hs.
  change (everyChar test (String c s)) with (test c && everyChar test s) in Hs.
  apply andb_true_iff in Hs as [Hc Hs].
  destruct s as [|d s]; [cbn; now rewrite Hc|].
  rewrite collapseDashes_step.
  destruct (Utils.isDash c && Utils.isDash d); [now apply IH|].
  change (everyChar test (String c ?x)) with (test c && everyChar test x).
  now rewrite Hc, IH.
Qed.

Lemma collapseDashes_fixed (s : string) :
  noDashRun s = true -> Utils.collapseDashes s = s.
Proof.
  induction s as [|c s IH]; [reflexivity|]. intros Hs.
  destruct s as [|d s]; [reflexivity|].
  rewrite noDashRun_step in Hs. apply andb_true_iff in Hs as [Hcd Hs].
  rewrite collapseDashes_step. apply negb_true_iff in Hcd. rewrite Hcd.
  now rewrite IH.
Qed.

(** One character through the first two stages. *)
Lemma replaced_char (c : ascii) :
  isFileNameChar (if Utils.isAlphanumeric (JS.toLowerCaseChar c)
                  then JS.toLowerCaseChar c else "-"%char) = true.
Proof. destruct c as [[] [] [] [] [] [] [] []]; reflexivity. Qed.

Lemma fileNameChar_fixed (c : ascii) :
  isFileNameChar c = true ->
  JS.toLowerCaseChar c = c
  /\ (if Utils.isAlphanumeric c then c else "-"%char) = c.
Proof.
  destruct c as [[] [] [] [] [] [] [] []]; intros Hc;
    try discriminate Hc; split; reflexivity.
Qed.

Lemma replaceOthers_everyChar (s : string) :
  everyChar isFileNameChar (Utils.replaceOthers (JS.toLowerCase s)) = true.
Proof.
  induction s as [|c s IH]; [reflexivity|].
  cbn [JS.toLowerCase Utils.replaceOthers everyChar].
  now rewrite replaced_char, IH.
Qed.

Lemma fileName_stages_fixed (s : string) :
  everyChar isFileNameChar s = true ->
  JS.toLowerCase s = s /\ Utils.replaceOthers s = s.
Proof.
  induction s as [|c s IH]; [split; reflexivity|]. intros Hs.
  cbn [everyChar] in Hs. apply andb_true_iff in Hs as [Hc Hs].
  destruct (IH Hs) as [E1 E2]. destruct (fileNameChar_fixed c Hc) as [F1 F2].
  cbn [JS.toLowerCase Utils.replaceOthers]. now rewrite E1, E2, F1, F2.
Qed.

Lemma sanitized_shape (input : string) :
  (String.length (Utils.sanitizeFilename input) <= 50)%nat
  /\ everyChar isFileNameChar (Utils.sanitizeFilename input) = true
  /\ noDashRun (Utils.sanitizeFilename input) = true.
Proof.
  unfold Utils.sanitizeFilename. split; [apply substring_length|]. split.
  - apply substring_everyChar, collapseDashes_everyChar, replaceOthers_everyChar.
  - apply substring_noDashRun, collapseDashes_noDashRun.
Qed.

End FileNames.

(** X1.  [sanitizeFilename] gives at most 50 characters, each a lower-case
    letter, a digit or a dash, and never two dashes in a row. *)
Theorem sanitizeFilename_shape (input : string) :
  (String.length (Utils.sanitizeFilename input) <= 50)%nat
  /\ everyChar isFileNameChar (Utils.sanitizeFilename input) = true
  /\ noDashRun (Utils.sanitizeFilename input) = true.
Proof.
  destruct (sanitized_shape input) as [Hlen [Hchars Hrun]].
  split; [exact Hlen|]. split; [exact Hchars | exact Hrun].
Qed.

(** X2.  [sanitizeFilename] is idempotent: a sanitized name is left as it
    is. *)
Theorem sanitizeFilename_idempotent (input : string) :
  Utils.sanitizeFilename (Utils.sanitizeFilename input)
    = Utils.sanitizeFilename input.
Proof.
  destruct (sanitized_shape input) as [Hlen [Hchars Hrun]].
  unfold Utils.sanitizeFilename at 1.
  destruct (fileName_stages_fixed _ Hchars) as [-> ->].
  rewrite collapseDashes_fixed by exact Hrun.
  now apply substring_whole.
Qed.

(** ** Domains *)

Section Domains.

Lemma beforeSlash_avoids (url : string) : avoids "/" (Utils.beforeSlash url) = true.
Proof.
  induction url as [|c url IH]; [reflexivity|]. simpl.
  destruct (Ascii.eqb c "/") eqn:E; [reflexivity|]. simpl. now rewrite E, IH.
Qed.

Lemma beforeSlash_prefix (url : string) :
  String.prefix (Utils.beforeSlash url) url = true.
Proof.
  induction url as [|c url IH]; [reflexivity|]. simpl.
  destruct (Ascii.eqb c "/"); [reflexivity|]. simpl.
  destruct (ascii_dec c c) as [_|Hne]; [exact IH | now destruct Hne].
Qed.

Lemma beforeSlash_whole (url : string) :
  avoids "/" url = true -> Utils.beforeSlash url = url.
Proof.
  induction url as [|c url IH]; [reflexivity|]. simpl. intros Hs.
  apply andb_true_iff in Hs as [Hc Hs]. apply negb_true_iff in Hc.
  now rewrite Hc, IH.
Qed.

Context (hostname : string -> option string).

Lemma isInherited_spec (key : string) :
  JS.isInherited key = true <-> key ∈ JS.inherited.
Proof.
  unfold JS.isInherited. rewrite existsb_exists. split.
  - intros [name [Hin E]]. apply String.eqb_eq in E. subst name.
    now apply list_elem_of_In.
  - intros Hin. exists key. split; [now apply list_elem_of_In | apply String.eqb_refl].
Qed.

(** The groups after the whole list.  While no domain is the name of an
    inherited property, one more URL at the end of the list goes to the end
    of its group and the other groups stay; the first URL whose domain is
    such a name makes the [push] throw, and the error ends the loop. *)
Lemma groups_outcome (urls : list string) :
  (Forall (fun url => Utils.extractDomain hostname url ∉ JS.inherited) urls ->
   exists groups,
     Utils.groupUrlsByDomain hostname urls = Returns groups
     /\ forall domain,
          groups !! domain
            = match filter (fun url => Utils.extractDomain hostname url = domain) urls with
              | [] => None
              | group => Some group
              end)
  /\ (Exists (fun url => Utils.extractDomain hostname url ∈ JS.inherited) urls ->
      Utils.groupUrlsByDomain hostname urls = Throws Utils.notAnArray).
Proof.
  unfold Utils.groupUrlsByDomain.
  induction urls as [|url urls [IHall IHsome]] using rev_ind.
  - split; [|intros Hex; inversion Hex].
    intros _. exists ∅. split; [reflexivity|]. intros domain. apply lookup_empty.
  - rewrite foldl_snoc. split.
    + intros Hall. apply Forall_app in Hall as [Hall Hurl].
      apply Forall_cons in Hurl as [Hurl _].
      destruct (IHall Hall) as [groups [-> Hgroups]].
      unfold Utils.addUrl.
      assert (Hout : JS.isInherited (Utils.extractDomain hostname url) = false).
      { apply not_true_is_false. intros E. now apply isInherited_spec in E. }
      rewrite Hout.
      exists (<[Utils.extractDomain hostname url :=
                 (default [] (groups !! Utils.extractDomain hostname url)
                  ++ [url])%list]> groups).
      split; [destruct (groups !! _); reflexivity|].
      intros domain. rewrite filter_app.
      destruct (decide (Utils.extractDomain hostname url = domain)) as [E|E].
      * rewrite E, lookup_insert_eq, Hgroups.
        rewrite (filter_cons_True _ url []) by exact E. rewrite filter_nil.
        destruct (filter _ urls); reflexivity.
      * rewrite lookup_insert_ne by exact E. rewrite Hgroups.
        rewrite (filter_cons_False _ url []) by exact E. rewrite filter_nil.
        now rewrite app_nil_r.
    + intros Hex. apply Exists_app in Hex.
      destruct (decide (Forall (fun url => Utils.extractDomain hostname url
                                          ∉ JS.inherited) urls)) as [Hall|Hnot].
      * destruct Hex as [Hex|Hurl].
        { now rewrite IHsome. }
        apply Exists_cons in Hurl as [Hurl|Hnil]; [|inversion Hnil].
        destruct (IHall Hall) as [groups [-> Hgroups]].
        unfold Utils.addUrl. rewrite Hgroups.
        destruct (filter _ urls) as [|u group] eqn:Efilter.
        { apply isInherited_spec in Hurl. now rewrite Hurl. }
        exfalso.
        assert (Hu : u ∈ filter (fun url' => Utils.extractDomain hostname url'
                                             = Utils.extractDomain hostname url) urls)
          by (rewrite Efilter; apply list_elem_of_here).
        apply list_elem_of_filter in Hu as [Hu Hin].
        rewrite Forall_forall in Hall. apply (Hall u Hin). now rewrite Hu.
      * rewrite IHsome; [reflexivity|].
        apply not_Forall_Exists in Hnot; [|apply _].
        apply Exists_exists in Hnot as [u [Hin Hu]].
        apply Exists_exists. exists u. split; [exact Hin|].
        now apply dec_stable.
Qed.

End Domains.

(** X3.  Where the URL does not parse, [extractDomain] returns what comes
    before the first slash: a prefix of the URL without a slash, and the
    whole URL when it has none. *)
Theorem extractDomain_falls_back_to_first_segment
    (hostname : string -> option string) (url : string) :
  hostname url = None ->
  avoids "/" (Utils.extractDomain hostname url) = true
  /\ String.prefix (Utils.extractDomain hostname url) url = true
  /\ (avoids "/" url = true -> Utils.extractDomain hostname url = url).
Proof.
  intros E. unfold Utils.extractDomain. rewrite E.
  split; [apply beforeSlash_avoids|]. split; [apply beforeSlash_prefix|].
  apply beforeSlash_whole.
Qed.

Lemma extractDomain_falls_back_to_first_segment_witness :
  Utils.extractDomain (fun _ => None) "example.com/a/b" = "example.com"
  /\ avoids "/" (Utils.extractDomain (fun _ => None) "example.com/a/b") = true
  /\ String.prefix (Utils.extractDomain (fun _ => None) "example.com/a/b")
       "example.com/a/b" = true.
Proof.
  split; [reflexivity|].
  pose proof (extractDomain_falls_back_to_first_segment
                (fun _ => None) "example.com/a/b" eq_refl) as [H1 [H2 _]].
  split; [exact H1 | exact H2].
Defined.

(** X4.  [groupUrlsByDomain] partitions the URLs by domain as long as no
    domain is the name of a property that every object inherits
    ([constructor], [toString], [__proto__] and the like): the group of a
    domain then lists exactly the URLs of that domain, in the order of the
    input, and a domain of no URL has no group.  A URL with such a domain
    makes the function throw a [TypeError]. *)
Theorem groupUrlsByDomain_partitions
    (hostname : string -> option string) (urls : list string) :
  (Forall (fun url => Utils.extractDomain hostname url ∉ JS.inherited) urls ->
   exists groups,
     Utils.groupUrlsByDomain hostname urls = Returns groups
     /\ forall domain,
          groups !! domain
            = match filter (fun url => Utils.extractDomain hostname url = domain) urls with
              | [] => None
              | group => Some group
              end)
  /\ (Exists (fun url => Utils.extractDomain hostname url ∈ JS.inherited) urls ->
      Utils.groupUrlsByDomain hostname urls = Throws Utils.notAnArray).
Proof. apply groups_outcome. Qed.

Lemma groupUrlsByDomain_partitions_witness :
  (exists groups,
     Utils.groupUrlsByDomain (fun _ => None) ["a.com/x"; "b.org/y"; "a.com/z"]
       = Returns groups
     /\ groups !! "a.com" = Some ["a.com/x"; "a.com/z"]
     /\ groups !! "b.org" = Some ["b.org/y"]
     /\ groups !! "c.net" = None)
  /\ Utils.groupUrlsByDomain (fun _ => None) ["a.com/x"; "constructor/y"]
     = Throws Utils.notAnArray.
Proof.
  split.
  - destruct (proj1 (groupUrlsByDomain_partitions (fun _ => None)
                       ["a.com/x"; "b.org/y"; "a.com/z"]))
      as [groups [E Hgroups]].
    + repeat constructor; vm_compute; intros Hin;
        repeat (apply elem_of_cons in Hin as [Hin|Hin]; [discriminate Hin|]);
        inversion Hin.
    + exists groups. split; [exact E|].
      split; [exact (Hgroups "a.com")|].
      split; [exact (Hgroups "b.org") | exact (Hgroups "c.net")].
  - apply (proj2 (groupUrlsByDomain_partitions (fun _ => None)
                    ["a.com/x"; "constructor/y"])).
    apply Exists_cons_tl, Exists_cons_hd. vm_compute.
    apply list_elem_of_here.
Defined.

(** ** Selectors *)

Section Selectors.

Lemma app_nonempty (a b : string) : a <> "" -> a +:+ b <> "".
Proof. destruct a as [|c a]; [congruence|]. intros _. discriminate. Qed.

Lemma truthy_nonempty (s : string) : JS.truthy s = true -> s <> "".
Proof. destruct s; [discriminate|]. intros _. discriminate. Qed.

Lemma toLowerCase_nonempty (s : string) : s <> "" -> JS.toLowerCase s <> "".
Proof. destruct s; [congruence|]. intros _. discriminate. Qed.

Lemma join_nonempty (separator : string) (parts : list string) :
  parts <> [] -> Forall (fun p => p <> "") parts ->
  Utils.join separator parts <> "".
Proof.
  destruct parts as [|p [|q parts]]; [congruence| |]; intros _ Hall;
    apply Forall_cons in Hall as [Hp _]; [exact Hp|].
  cbn [Utils.join]. now apply app_nonempty.
Qed.

Lemma dataSelectors_nonempty (attributes : list (string * string)) :
  Forall (fun p => p <> "") (Utils.dataSelectors attributes).
Proof.
  unfold Utils.dataSelectors. apply Forall_fmap, Forall_forall.
  intros [key value] _. simpl. discriminate.
Qed.

Lemma elementSelectors_nonempty (el : Utils.ElementProps) :
  Forall (fun p => p <> "") (Utils.elementSelectors el).
Proof.
  unfold Utils.elementSelectors. repeat apply Forall_app_2.
  - unfold JS.truthy_opt. destruct (Utils.prop_tagName el) as [t|]; [|constructor].
    destruct (JS.truthy t) eqn:E; constructor; [|constructor].
    now apply toLowerCase_nonempty, truthy_nonempty.
  - destruct (Utils.prop_attributes el) as [attributes|]; [|constructor].
    repeat apply Forall_app_2.
    + destruct (JS.truthy_opt _); constructor; [discriminate|constructor].
    + destruct (JS.truthy_opt _); [|constructor].
      destruct (JS.truthy (Utils.classSelector _)) eqn:E; constructor; [|constructor].
      now apply truthy_nonempty.
    + apply dataSelectors_nonempty.
  - destruct (JS.truthy_opt _); [|constructor].
    cbv zeta. destruct (JS.truthy _); constructor; [discriminate|constructor].
Qed.

End Selectors.

(** X5.  [createSelector] never returns the empty string, whatever the
    element (missing, or with any properties) and the description. *)
Theorem createSelector_is_never_empty
    (el : option Utils.ElementProps) (description : string) :
  Utils.createSelector el description <> "".
Proof.
  unfold Utils.createSelector. cbv zeta.
  destruct (_ && _); [discriminate|].
  destruct (JS.includes _ "search"); [discriminate|].
  destruct (_ && _); [discriminate|].
  destruct el as [props|]; [|discriminate].
  pose proof (elementSelectors_nonempty props) as Hall.
  destruct (Utils.elementSelectors props) as [|p parts] eqn:E; [discriminate|].
  now apply join_nonempty.
Qed.

(** ** The result envelope *)

Section Envelope.

Context {B : Type} `{BrowserInterface B} (core : MidsceneCore).

Lemma ensures_ret {A} (P : A -> Prop) (a : A) : P a -> @ensures B A P (ret a).
Proof. intros Ha st a' st' [= <- _]. exact Ha. Qed.

Lemma ensures_throw {A} (P : A -> Prop) msg : @ensures B A P (throw msg).
Proof. intros st a st' E. discriminate E. Qed.

Lemma ensures_bind {A C} (Q : A -> Prop) (P : C -> Prop) (m : M B A) k :
  ensures Q m -> (forall a, Q a -> ensures P (k a)) -> ensures P (bind m k).
Proof.
  intros Hm Hk st c st' E. unfold bind in E.
  destruct (m st) as [[a|msg] st1] eqn:Em; [|discriminate E].
  exact (Hk a (Hm _ _ _ Em) _ _ _ E).
Qed.

Lemma ensures_then {A C} (P : C -> Prop) (m : M B A) k :
  (forall a, ensures P (k a)) -> ensures P (bind m k).
Proof.
  intros Hk. apply (ensures_bind (fun _ => True)); [easy|]. intros a _. apply Hk.
Qed.

Lemma answers_ensures {A} (P : A -> Prop) (m : M B A) : answers P m -> ensures P m.
Proof.
  intros Hm st a st' E. destruct (Hm st) as [a' [st'' [E' Ha]]]. congruence.
Qed.

Lemma answers_caught {A} (P : A -> Prop) (m : M B A) (recover : string -> A) :
  ensures P m -> (forall msg, P (recover msg)) ->
  answers P (try_catch m (fun msg => ret (recover msg))).
Proof.
  intros Hm Hr st. unfold try_catch.
  destruct (m st) as [[a|msg] st'] eqn:E.
  - exists a, st'. split; [reflexivity | exact (Hm _ _ _ E)].
  - exists (recover msg), st'. split; [reflexivity | apply Hr].
Qed.

Lemma answers_guarded (P : Result -> Prop) (m : M B Result) :
  P notInitialized -> answers P m -> answers P (guarded m).
Proof.
  intros Hn Hm st. unfold guarded, bind, get.
  destruct (negb (isInitialized st)); [exists notInitialized, st; now split | apply Hm].
Qed.

Lemma wellFormed_succeed {D} : wellFormed (@succeed D).
Proof. reflexivity. Qed.

Lemma wellFormed_succeed_with {D} (d : D) : wellFormed (succeed_with d).
Proof. reflexivity. Qed.

Lemma wellFormed_fail {D} msg : wellFormed (@fail D msg).
Proof. split; [discriminate|reflexivity]. Qed.

Create HintDb envelope.

#[local] Hint Resolve wellFormed_succeed wellFormed_succeed_with wellFormed_fail
  : envelope.

Ltac envelope :=
  repeat first
    [ apply ensures_ret; solve [auto with envelope]
    | apply ensures_throw
    | apply ensures_then; intros ?
    | match goal with
      | |- ensures _ (if ?c then _ else _) => destruct c
      | |- ensures _ (match ?d with _ => _ end) => destruct d
      end ].

Ltac boundary :=
  apply answers_caught; [envelope | intros; auto with envelope].

Lemma initialize_envelope : answers wellFormed (@CrawlerAgent.initialize B _).
Proof. unfold CrawlerAgent.initialize. boundary. Qed.

Lemma perform_envelope (a : Action) : answers wellFormed (CrawlerAgent.perform a).
Proof.
  destruct a; simpl;
    unfold CrawlerAgent.navigateTo, clickElement, typeText, pressKey, scroll,
      extractText, extractData, takeScreenshot, waitForNavigation;
    (apply answers_guarded; [apply wellFormed_fail | boundary]).
Qed.

Lemma createPlanForPage_envelope instruction :
  answers wellFormed (createPlanForPage core instruction).
Proof. unfold createPlanForPage. boundary. Qed.

Lemma locate_envelope description : answers wellFormed (locate core description).
Proof. unfold locate. boundary. Qed.

Lemma click_envelope description : answers wellFormed (click core description).
Proof.
  unfold click. apply answers_caught; [|intros; auto with envelope].
  apply (ensures_bind wellFormed); [apply answers_ensures, locate_envelope|].
  intros r Hr. destruct (negb (success r)); [now apply ensures_ret|]. envelope.
Qed.

Lemma input_envelope description txt :
  answers wellFormed (input core description txt).
Proof.
  unfold input. apply answers_caught; [|intros; auto with envelope].
  apply (ensures_bind wellFormed); [apply answers_ensures, locate_envelope|].
  intros r Hr. destruct (negb (success r)); [now apply ensures_ret|]. envelope.
Qed.

Lemma ai_initialize_envelope : answers wellFormed (@AIEnhancedAgent.initialize B _).
Proof.
  intros st. unfold AIEnhancedAgent.initialize.
  destruct (initialize_envelope st) as [r [st1 [E Hr]]].
  rewrite (bind_returns _ _ _ _ _ E).
  destruct (negb (success r)); [exists r, st1; now split|].
  eexists _, _. split; [reflexivity | apply wellFormed_succeed].
Qed.

(** The navigation of the base class decides the result of the override;
    the planning after it only moves the state on. *)
Lemma navigateTo_passes_on (url : string) (st : Agent B) :
  exists r st1 st2,
    CrawlerAgent.navigateTo url st = (Returns r, st1)
    /\ AIEnhancedAgent.navigateTo core url st = (Returns r, st2)
    /\ wellFormed r
    /\ (success r = false
        \/ JS.truthy_bool (useAutonomousPlanning (aiOptions st1)) = false ->
        st2 = st1).
Proof.
  destruct (perform_envelope (act_navigateTo url) st) as [r [st1 [E Hr]]].
  simpl in E. unfold AIEnhancedAgent.navigateTo.
  rewrite (bind_returns _ _ _ _ _ E).
  destruct (success r) eqn:Hs; simpl.
  - rewrite (bind_returns get _ st1 st1 st1 eq_refl).
    destruct (JS.truthy_bool (useAutonomousPlanning (aiOptions st1))) eqn:Hp.
    + destruct (returns_caught
                  (bind (createPlanForPage core
                     "Analyze this page and find the most important information")
                     (fun _ => ret tt))
                  (fun _ => tt) st1) as [[] [st2 E2]].
      rewrite (bind_returns _ _ _ _ _ E2). exists r, st1, st2.
      repeat split; try assumption. intros [Hf|Hf]; congruence.
    + exists r, st1, st1. repeat split; assumption || reflexivity.
  - exists r, st1, st1. repeat split; assumption || reflexivity.
Qed.

End Envelope.

(** X6.  The actions of [CrawlerAgent] and its [initialize] never throw,
    whatever the driver does: each returns a result, and the result is
    either a success without an error, or a failure with an error and no
    data. *)
Theorem actions_never_throw {B} `{BrowserInterface B} (st : Agent B) :
  (forall a : Action,
     exists r st', CrawlerAgent.perform a st = (Returns r, st')
                   /\ (if success r then error r = None
                       else error r <> None /\ data r = None))
  /\ (exists r st', CrawlerAgent.initialize st = (Returns r, st')
                    /\ (if success r then error r = None
                        else error r <> None /\ data r = None)).
Proof.
  split; [intros a; apply (perform_envelope a st) | apply (initialize_envelope st)].
Qed.

(** X7.  The methods [AIEnhancedAgent] adds or overrides ([initialize],
    [navigateTo], [createPlanForPage], [locateElement], [clickOnElement],
    [inputTextIntoElement]) never throw either, whatever the driver and the
    reasoning service do, and their results have the same shape: a success
    has no error, a failure has an error and no data. *)
Theorem ai_methods_never_throw {B} `{BrowserInterface B}
    (core : MidsceneCore) (st : Agent B) :
  let shaped (m : M B Result) :=
    exists r st', m st = (Returns r, st')
                  /\ (if success r then error r = None
                      else error r <> None /\ data r = None) in
  shaped AIEnhancedAgent.initialize
  /\ (forall url, shaped (AIEnhancedAgent.navigateTo core url))
  /\ (forall instruction, shaped (createPlanForPage core instruction))
  /\ (forall description, shaped (locateElement core description))
  /\ (forall description, shaped (clickOnElement core description))
  /\ (forall description txt, shaped (inputTextIntoElement core description txt)).
Proof.
  cbv zeta. split; [apply (ai_initialize_envelope st)|].
  split.
  { intros url. destruct (navigateTo_passes_on core url st)
      as [r [st1 [st2 [_ [E [Hr _]]]]]]. now exists r, st2. }
  split; [intros i; apply (createPlanForPage_envelope core i st)|].
  split; [intros d; apply (locate_envelope core (Some d) st)|].
  split; [intros d; apply (click_envelope core (Some d) st)|].
  intros d t. apply (input_envelope core (Some d) (Some t) st).
Qed.

(** X8.  The override of [navigateTo] answers with the result of the
    navigation itself: the plan it asks for afterwards, and any failure of
    that planning, have no effect on the result.  When the navigation
    failed, or autonomous planning is switched off, the override does
    nothing more than the navigation (the agent ends in the same state). *)
Theorem navigateTo_planning_is_best_effort {B} `{BrowserInterface B}
    (core : MidsceneCore) (url : string) (st : Agent B) :
  fst (AIEnhancedAgent.navigateTo core url st) = fst (CrawlerAgent.navigateTo url st)
  /\ (forall r, fst (CrawlerAgent.navigateTo url st) = Returns r ->
        success r = false
        \/ JS.truthy_bool (useAutonomousPlanning
                             (aiOptions (snd (CrawlerAgent.navigateTo url st)))) = false ->
        AIEnhancedAgent.navigateTo core url st = CrawlerAgent.navigateTo url st).
Proof.
  destruct (navigateTo_passes_on core url st) as [r [st1 [st2 [E1 [E2 [_ Hsame]]]]]].
  rewrite E1, E2. simpl. split; [reflexivity|].
  intros r' [= <-] Hcase. now rewrite (Hsame Hcase).
Qed.

(** ** What no operation changes *)

Section WideFrames.

Context {B : Type} `{BrowserInterface B} (core : MidsceneCore).
Context (R : Agent B -> Agent B -> Prop) `{!PreOrder R}.
Hypothesis R_browser : forall b st, R st (set_browser b st).
Hypothesis R_log : forall c st, R st (log_call c st).
Hypothesis R_elapsed : forall t st, R st (add_elapsed t st).
Hypothesis R_flag : forall v st, R st (set_isInitialized v st).
Hypothesis R_counter : forall n st, R st (set_screenshotCounter n st).

Lemma keeps_modify (f : Agent B -> Agent B) :
  (forall st, R st (f st)) -> keeps R (modify f).
Proof. intros Hf st. apply Hf. Qed.

Lemma wide_close : keeps R (@CrawlerAgent.close B _).
Proof.
  unfold CrawlerAgent.close. apply (keeps_bind R); [apply (keeps_get R)|].
  intros st. destruct (isInitialized st); [|apply (keeps_ret R)].
  apply (keeps_bind R); [now apply (keeps_invoke R)|].
  intros _. now apply keeps_modify.
Qed.

Lemma wide_base_initialize : keeps R (@CrawlerAgent.initialize B _).
Proof.
  unfold CrawlerAgent.initialize.
  apply (keeps_try_catch R); [|intros msg; apply (keeps_ret R)].
  apply (keeps_bind R); [apply (keeps_get R)|]. intros st0.
  apply (keeps_bind R); [now apply (keeps_invoke R)|]. intros _.
  apply (keeps_bind R); [apply (keeps_get R)|]. intros st1.
  apply (keeps_bind R).
  { destruct (_ && _); [now apply (keeps_evaluate R) | apply (keeps_ret R)]. }
  intros _. apply (keeps_bind R); [now apply keeps_modify|].
  intros _. apply (keeps_ret R).
Qed.

Lemma wide_initialize : keeps R (@AIEnhancedAgent.initialize B _).
Proof.
  unfold AIEnhancedAgent.initialize.
  apply (keeps_bind R); [apply wide_base_initialize|]. intros r.
  destruct (negb (success r)); [apply (keeps_ret R)|].
  apply (keeps_bind R); [now apply keeps_modify|].
  intros _. apply (keeps_ret R).
Qed.

(** Every operation but [saveScreenshot] keeps the relation. *)
Lemma wide_after (op : Operation) (st : Agent B) :
  (forall now screenshotData, op <> op_saveScreenshot now screenshotData) ->
  R st (after core op st).
Proof.
  intros Hop. destruct op; simpl.
  - apply wide_initialize.
  - now apply (keeps_perform core R).
  - now apply (keeps_getCurrentUrl R).
  - now apply (keeps_getPageTitle R).
  - now apply (keeps_createPlanForPage core R).
  - now apply (keeps_locate core R).
  - now apply (keeps_click core R).
  - now apply (keeps_input core R).
  - now apply (keeps_executePlan core R).
  - now destruct (Hop now screenshotData).
  - apply wide_close.
Qed.

Lemma wide_afterAll (ops : list Operation) :
  Forall (fun op => forall now screenshotData,
            op <> op_saveScreenshot now screenshotData) ops ->
  forall st, R st (afterAll core ops st).
Proof.
  induction 1 as [|op ops Hop _ IH]; intros st; simpl; [reflexivity|].
  etransitivity; [apply wide_after; exact Hop | apply IH].
Qed.

(** With the disk left free as well, [saveScreenshot] keeps the relation
    too, and so does every operation. *)
Hypothesis R_disk : forall d st, R st (set_disk d st).

Lemma wide_saveScreenshot now screenshotData :
  keeps R (@saveScreenshot B now screenshotData).
Proof.
  unfold saveScreenshot. apply (keeps_bind R); [apply (keeps_get R)|]. intros st.
  destruct (negb (JS.truthy_opt _)); [apply (keeps_ret R)|].
  apply (keeps_try_catch R); [|intros msg; apply (keeps_ret R)].
  apply (keeps_bind R).
  { destruct (negb _); [now apply (keeps_lift R) | apply (keeps_ret R)]. }
  intros _. apply (keeps_bind R); [now apply keeps_modify|].
  intros _. cbv zeta. apply (keeps_bind R); [now apply (keeps_lift R)|].
  intros _. apply (keeps_ret R).
Qed.

Lemma wide_every (ops : list Operation) (st : Agent B) :
  R st (afterAll core ops st).
Proof.
  revert st. induction ops as [|op ops IH]; intros st; simpl; [reflexivity|].
  etransitivity; [|apply IH].
  destruct op; try (apply wide_after; discriminate).
  apply wide_saveScreenshot.
Qed.

End WideFrames.

Section Configuration.

Context {B : Type} `{BrowserInterface B}.

#[local] Instance sameConfiguration_preorder : PreOrder (@sameConfiguration B).
Proof.
  split; [intros st; now split|].
  intros a b c [H1 H2] [H3 H4]. split; congruence.
Qed.

#[local] Instance sameDisk_preorder : PreOrder (@sameDisk B).
Proof. split; [intros st; reflexivity | intros a b c H1 H2; unfold sameDisk in *; congruence]. Qed.

Lemma configuration_kept (core : MidsceneCore) ops (st : Agent B) :
  sameConfiguration st (afterAll core ops st).
Proof. apply (wide_every core sameConfiguration); intros; now split. Qed.

Lemma disk_kept (core : MidsceneCore) ops (st : Agent B) :
  Forall (fun op => forall now screenshotData,
            op <> op_saveScreenshot now screenshotData) ops ->
  sameDisk st (afterAll core ops st).
Proof. intros Hops. apply (wide_afterAll core sameDisk); try easy. Qed.

End Configuration.

(** X9.  The configuration of an agent is fixed at construction: no
    sequence of operations, [initialize] and [close] included, changes the
    options of [CrawlerAgent] or those of [AIEnhancedAgent]. *)
Theorem configuration_is_immutable {B} `{BrowserInterface B}
    (core : MidsceneCore) (ops : list Operation) (st : Agent B) :
  options (afterAll core ops st) = options st
  /\ aiOptions (afterAll core ops st) = aiOptions st.
Proof. apply (configuration_kept core ops st). Qed.

(** X10.  Only [saveScreenshot] touches the file system once the agent is
    built: a sequence of operations without it leaves the disk as it
    was. *)
Theorem only_saveScreenshot_writes {B} `{BrowserInterface B}
    (core : MidsceneCore) (ops : list Operation) (st : Agent B) :
  Forall (fun op => forall now screenshotData,
            op <> op_saveScreenshot now screenshotData) ops ->
  disk (afterAll core ops st) = disk st.
Proof. intros Hops. now apply (disk_kept core ops st). Qed.

Lemma only_saveScreenshot_writes_witness :
  disk (afterAll Fixture.noService
          [op_initialize; op_action act_takeScreenshot;
           op_executePlan AIEnhancedAgent.mockPlan; op_close]
          Fixture.fresh)
    = disk Fixture.fresh.
Proof.
  apply (only_saveScreenshot_writes Fixture.noService).
  repeat constructor; discriminate.
Defined.

(** ** The AI methods before [initialize] *)

Section BeforeInitialize.

Context {B : Type} `{BrowserInterface B} (core : MidsceneCore).

Lemma getPageContext_uninitialized (st : Agent B) :
  isInitialized st = false ->
  getPageContext st
    = (Throws "Failed to take screenshot: Browser not initialized", st).
Proof.
  intros Hst. unfold getPageContext.
  erewrite bind_returns
    by (unfold takeScreenshot; now apply guarded_uninitialized).
  reflexivity.
Qed.

Lemma locate_uninitialized description (st : Agent B) :
  isInitialized st = false ->
  locate core description st
    = (Returns (fail ("Failed to locate element " +:+ JS.quoted (JS.show description)
                      +:+ ": Failed to take screenshot: Browser not initialized")), st).
Proof.
  intros Hst. unfold locate.
  erewrite try_catch_throws; [reflexivity|].
  erewrite bind_throws; [reflexivity|]. now apply getPageContext_uninitialized.
Qed.

Lemma click_uninitialized description (st : Agent B) :
  isInitialized st = false ->
  click core description st = locate core description st.
Proof.
  intros Hst. unfold click. rewrite (locate_uninitialized description st Hst).
  erewrite try_catch_returns; [reflexivity|].
  erewrite bind_returns by (now apply locate_uninitialized). reflexivity.
Qed.

Lemma input_uninitialized description txt (st : Agent B) :
  isInitialized st = false ->
  input core description txt st = locate core description st.
Proof.
  intros Hst. unfold input. rewrite (locate_uninitialized description st Hst).
  erewrite try_catch_returns; [reflexivity|].
  erewrite bind_returns by (now apply locate_uninitialized). reflexivity.
Qed.

Lemma executeStep_uninitialized action (st : Agent B) :
  isInitialized st = false ->
  exists r, executeStep core action st = (Returns r, st).
Proof.
  intros Hst. unfold executeStep.
  destruct (String.eqb (type action) "click").
  { erewrite bind_returns
      by (rewrite click_uninitialized by exact Hst; now apply locate_uninitialized).
    eexists; reflexivity. }
  destruct (String.eqb (type action) "input").
  { erewrite bind_returns
      by (rewrite input_uninitialized by exact Hst; now apply locate_uninitialized).
    eexists; reflexivity. }
  destruct (String.eqb (type action) "extract").
  { erewrite bind_returns
      by (unfold extractText; now apply guarded_uninitialized).
    eexists; reflexivity. }
  eexists; reflexivity.
Qed.

Lemma executeActions_uninitialized todo (st : Agent B) :
  isInitialized st = false ->
  forall done, exists results, executeActions core todo done st = (Returns results, st).
Proof.
  intros Hst. induction todo as [|action rest IH]; intros done; simpl.
  - eexists; reflexivity.
  - destruct (executeStep_uninitialized action st Hst) as [r Hr].
    rewrite (bind_returns _ _ _ _ _ Hr).
    destruct (stopsAfter action r); [eexists; reflexivity | apply IH].
Qed.

End BeforeInitialize.

(** X11.  On an agent that is not initialized, [locateElement],
    [clickOnElement] and [inputTextIntoElement] all return the failure of
    the location, whose error names the description and ends with
    ["Browser not initialized"]; they and [executePlan], whatever the plan,
    leave the agent as it was, so that no driver method is invoked. *)
Theorem ai_methods_before_initialize {B} `{BrowserInterface B}
    (core : MidsceneCore) (description txt : string) (plan : Plan) (st : Agent B) :
  isInitialized st = false ->
  let failure : Result :=
    {| success := false;
       error := Some ("Failed to locate element " +:+ JS.quoted description
                      +:+ ": Failed to take screenshot: Browser not initialized");
       data := None |} in
  locateElement core description st = (Returns failure, st)
  /\ clickOnElement core description st = (Returns failure, st)
  /\ inputTextIntoElement core description txt st = (Returns failure, st)
  /\ snd (executePlan core plan st) = st.
Proof.
  intros Hst failure.
  assert (Hl : locate core (Some description) st = (Returns failure, st))
    by now apply locate_uninitialized.
  split; [exact Hl|].
  split; [unfold clickOnElement; now rewrite click_uninitialized|].
  split; [unfold inputTextIntoElement; now rewrite input_uninitialized|].
  unfold executePlan.
  destruct (executeActions_uninitialized core (default [] (actions plan)) st Hst [])
    as [results E].
  erewrite try_catch_returns; [reflexivity|].
  erewrite bind_returns by exact E. reflexivity.
Qed.

Lemma ai_methods_before_initialize_witness :
  fst (clickOnElement Fixture.noService "search button" Fixture.fresh)
    = Returns (fail ("Failed to locate element " +:+ JS.quoted "search button"
                     +:+ ": Failed to take screenshot: Browser not initialized"))
  /\ calls (snd (executePlan Fixture.noService AIEnhancedAgent.mockPlan Fixture.fresh))
     = [].
Proof.
  pose proof (ai_methods_before_initialize Fixture.noService "search button" ""
                AIEnhancedAgent.mockPlan Fixture.fresh eq_refl) as [_ [Hc [_ Hp]]].
  split; [now rewrite Hc | now rewrite Hp].
Defined.

(** ** Acting on a selector *)

(** X12.  [clickElement] on an initialized agent.  When the selector
    matches nothing in the page of the existence check, the result is the
    failure naming the selector, and that check is the only driver call:
    nothing is clicked and nothing is retried.  When the result is a
    success, the driver was called exactly three times, in this order: the
    existence check, the position query, and one [clickAt] at the centre of
    the first element matching the selector in the page of the position
    query. *)
Theorem clickElement_clicks_what_it_found {B} `{BrowserInterface B}
    (sel : string) (st : Agent B) :
  isInitialized st = true ->
  (forall pg b1,
     browser_evaluate (script_scrollIntoView sel) (browser st) = (Returns pg, b1) ->
     querySelectorAll pg sel = [] ->
     fst (clickElement sel st)
       = Returns (fail ("Element with selector " +:+ JS.quoted sel +:+ " not found"))
     /\ calls (snd (clickElement sel st))
        = (calls st ++ [call_evaluate (script_scrollIntoView sel)])%list)
  /\ (forall r, fst (clickElement sel st) = Returns r -> success r = true ->
      exists pg1 b1 pg2 b2 el others,
        browser_evaluate (script_scrollIntoView sel) (browser st) = (Returns pg1, b1)
        /\ browser_evaluate (script_position sel) b1 = (Returns pg2, b2)
        /\ querySelectorAll pg2 sel = el :: others
        /\ calls (snd (clickElement sel st))
           = (calls st ++ [call_evaluate (script_scrollIntoView sel);
                           call_evaluate (script_position sel);
                           call_clickAt (x (center (getBoundingClientRect el)))
                                        (y (center (getBoundingClientRect el)))])%list).
Proof.
  intros Hst. unfold clickElement. rewrite guarded_initialized by exact Hst.
  cbv beta iota zeta delta [try_catch bind evaluate invoke ret]. simpl.
  unfold Scripts.scrollIntoView, Scripts.position, querySelector.
  split.
  - intros pg b1 E Hnone. rewrite E. simpl. rewrite Hnone. simpl. now split.
  - intros r.
    destruct (browser_evaluate (script_scrollIntoView sel) (browser st))
      as [[pg1|msg1] b1]; simpl; [|intros [= <-]; discriminate].
    destruct (querySelectorAll pg1 sel) as [|el1 others1]; simpl;
      [intros [= <-]; discriminate|].
    destruct (browser_evaluate (script_position sel) b1) as [[pg2|msg2] b2] eqn:E2;
      simpl; [|intros [= <-]; discriminate].
    destruct (querySelectorAll pg2 sel) as [|el others] eqn:Hq; simpl;
      [intros [= <-]; discriminate|].
    destruct (browser_clickAt _ _ b2) as [[[]|msg3] b3]; simpl;
      [|intros [= <-]; discriminate].
    intros _ _. exists pg1, b1, pg2, b2, el, others.
    repeat split; try assumption. now rewrite <- !app_assoc.
Qed.

Lemma clickElement_clicks_what_it_found_witness :
  isInitialized Fixture.ready = true
  /\ fst (clickElement "nav" Fixture.ready)
     = Returns (fail ("Element with selector " +:+ JS.quoted "nav" +:+ " not found"))
  /\ calls (snd (clickElement "nav" Fixture.ready))
     = (calls Fixture.ready ++ [call_evaluate (script_scrollIntoView "nav")])%list.
Proof.
  split; [reflexivity|].
  destruct (clickElement_clicks_what_it_found "nav" Fixture.ready eq_refl) as [Hnone _].
  exact (Hnone Fixture.page Fixture.healthy eq_refl eq_refl).
Defined.

(** X13.  [typeText] on an initialized agent.  With a selector that
    matches nothing in the page, the result is the failure naming the
    selector and the driver's [type] is never called.  When the result is a
    success, the text was typed exactly once, as the last driver call,
    after the focus script when a selector was given and with no other
    call. *)
Theorem typeText_types_once_focused {B} `{BrowserInterface B}
    (txt : string) (sel : option string) (st : Agent B) :
  isInitialized st = true ->
  (forall s pg b1,
     sel = Some s -> JS.truthy s = true ->
     browser_evaluate (script_focus s) (browser st) = (Returns pg, b1) ->
     querySelectorAll pg s = [] ->
     fst (typeText txt sel st)
       = Returns (fail ("Element with selector " +:+ JS.quoted s +:+ " not found"))
     /\ calls (snd (typeText txt sel st))
        = (calls st ++ [call_evaluate (script_focus s)])%list)
  /\ (forall r, fst (typeText txt sel st) = Returns r -> success r = true ->
      calls (snd (typeText txt sel st))
        = (calls st
           ++ (if JS.truthy_opt sel then [call_evaluate (script_focus (JS.show sel))]
               else [])
           ++ [call_type (Some txt)])%list).
Proof.
  intros Hst. unfold typeText. rewrite guarded_initialized by exact Hst.
  cbv beta iota zeta delta [try_catch bind evaluate invoke ret]. simpl.
  unfold Scripts.focus, querySelector.
  split.
  - intros s pg b1 -> Hs E Hnone. simpl. rewrite Hs, E. simpl. rewrite Hnone.
    simpl. now split.
  - intros r. destruct (JS.truthy_opt sel); simpl.
    + destruct (browser_evaluate _ (browser st)) as [[pg|msg] b1]; simpl;
        [|intros [= <-]; discriminate].
      destruct (querySelectorAll pg _); simpl; [intros [= <-]; discriminate|].
      destruct (browser_type _ b1) as [[[]|msg] b2]; simpl;
        [|intros [= <-]; discriminate].
      intros _ _. now rewrite <- !app_assoc.
    + destruct (browser_type _ (browser st)) as [[[]|msg] b2]; simpl;
        [|intros [= <-]; discriminate].
      intros _ _. reflexivity.
Qed.

Lemma typeText_types_once_focused_witness :
  isInitialized Fixture.ready = true
  /\ fst (typeText "rocq" (Some "input, textarea") Fixture.ready)
     = Returns {| success := true; error := None; data := None |}
  /\ calls (snd (typeText "rocq" (Some "input, textarea") Fixture.ready))
     = (calls Fixture.ready
        ++ [call_evaluate (script_focus "input, textarea"); call_type (Some "rocq")])%list.
Proof.
  split; [reflexivity|]. split; [reflexivity|].
  destruct (typeText_types_once_focused "rocq" (Some "input, textarea")
              Fixture.ready eq_refl) as [_ Hok].
  exact (Hok _ eq_refl eq_refl).
Defined.

(** ** Locating through the reasoning service *)

(** X14.  With the locate capability present, [locateElement] relies on
    the service alone: after the snapshot of the page it makes no driver
    call.  An answer with no element (or none of the fields) gives the
    failure ["Could not find element: "] followed by the description.
    A success carries the first element of the answer, the rectangle of
    the answer, and a position exactly when the answer has a rectangle:
    the centre of that rectangle. *)
Theorem locateElement_through_the_service {B} `{BrowserInterface B}
    (core : MidsceneCore) (service : PageContext -> option string -> Outcome LocateResult)
    (description : string) (st : Agent B) :
  AiLocateElement core = Some service ->
  (forall context st1 answer,
     getPageContext st = (Returns context, st1) ->
     service context (Some description) = Returns answer ->
     parseResult answer ≫= elements = None
     \/ parseResult answer ≫= elements = Some [] ->
     locateElement core description st
       = (Returns (fail ("Could not find element: " +:+ description)), st1))
  /\ (forall r st', locateElement core description st = (Returns r, st') ->
      success r = true ->
      exists context answer el others,
        getPageContext st = (Returns context, st')
        /\ service context (Some description) = Returns answer
        /\ parseResult answer ≫= elements = Some (el :: others)
        /\ data r = Some (data_located (recognised el) (locate_rect answer)
                            (center <$> locate_rect answer))).
Proof.
  intros Hcore. unfold locateElement, locate. rewrite Hcore.
  cbv beta iota zeta delta [try_catch bind awaited ret throw]. split.
  - intros context st1 answer E1 E2 Hnone. rewrite E1, E2.
    destruct Hnone as [-> | ->]; reflexivity.
  - intros r st'. destruct (getPageContext st) as [[context|msg] st1];
      [|intros [= <- _]; discriminate].
    destruct (service context (Some description)) as [answer|msg] eqn:E2;
      [|intros [= <- _]; discriminate].
    destruct (parseResult answer ≫= elements) as [[|el others]|] eqn:E3;
      try (intros [= <- _]; discriminate).
    destruct (locate_rect answer) as [rect|] eqn:E4;
      intros [= <- <-] _; exists context, answer, el, others;
      rewrite ?E4; repeat split; assumption || reflexivity.
Qed.

Lemma locateElement_through_the_service_witness :
  let service : PageContext -> option string -> Outcome LocateResult :=
    fun _ _ => Returns {| parseResult := Some {| elements := Some [] |};
                          locate_rect := None |} in
  AiLocateElement {| core_plan := None; AiLocateElement := Some service |}
    = Some service
  /\ fst (locateElement {| core_plan := None; AiLocateElement := Some service |}
            "search button" Fixture.ready)
     = Returns (fail "Could not find element: search button").
Proof.
  intros service. split; [reflexivity|].
  destruct (getPageContext Fixture.ready) as [[context|msg] st1] eqn:E;
    [|vm_compute in E; discriminate E].
  destruct (locateElement_through_the_service
              {| core_plan := None; AiLocateElement := Some service |} service
              "search button" Fixture.ready eq_refl) as [Hnone _].
  now rewrite (Hnone context st1 _ E eq_refl (or_intror eq_refl)).
Defined.

(** ** Acting on a description *)

(** X15.  [clickOnElement] clicks only where [locateElement] told it to.
    When the location failed, its result is passed on unchanged; when it
    succeeded without a position, the result is the failure ["Located
    element ... but could not determine position for clicking"]; in both
    cases the driver is not called after the location.  When the result is
    a success, the only driver call after the location is one [clickAt] at
    the located position, and the result carries the located element. *)
Theorem clickOnElement_clicks_where_located {B} `{BrowserInterface B}
    (core : MidsceneCore) (description : string) (st : Agent B) :
  (forall located st1,
     locateElement core description st = (Returns located, st1) ->
     (success located = false ->
      clickOnElement core description st = (Returns located, st1))
     /\ (forall el rect,
           success located = true ->
           data located = Some (data_located el rect None) ->
           clickOnElement core description st
             = (Returns (fail ("Located element " +:+ JS.quoted description
                               +:+ " but could not determine position for clicking")),
                st1)))
  /\ (forall r, fst (clickOnElement core description st) = Returns r ->
      success r = true ->
      exists located st1 el rect p,
        locateElement core description st = (Returns located, st1)
        /\ data located = Some (data_located el rect (Some p))
        /\ data r = Some (data_clicked el)
        /\ calls (snd (clickOnElement core description st))
           = (calls st1 ++ [call_clickAt (x p) (y p)])%list).
Proof.
  unfold clickOnElement, locateElement, click.
  cbv beta iota zeta delta [try_catch bind invoke ret throw]. split.
  - intros located st1 E. rewrite E. split.
    + intros ->. reflexivity.
    + intros el rect -> ->. reflexivity.
  - intros r. destruct (locate core (Some description) st) as [[located|msg] st1].
    2:{ pose proof (locate_envelope core (Some description) st) as [a [s [E _]]].
        simpl. intros [= <-]. discriminate. }
    destruct (success located) eqn:Hs; simpl; [|intros [= <-]; congruence].
    destruct (data located) as [[| | | | |el rect [p|]| |]|] eqn:Hd; simpl;
      try (intros [= <-]; discriminate).
    destruct (browser_clickAt _ _ (browser st1)) as [[[]|msg] b']; simpl;
      [|intros [= <-]; discriminate].
    intros [= <-] _. exists located, st1, el, rect, p.
    repeat split; assumption || reflexivity.
Qed.

(** X16.  [inputTextIntoElement] types only into what it clicked.  When
    the result is a success, the driver calls after the location are
    exactly a [clickAt] at the located position followed by one [type] of
    the text; when the location failed, its result is passed on and the
    driver is not called after it. *)
Theorem inputTextIntoElement_clicks_then_types {B} `{BrowserInterface B}
    (core : MidsceneCore) (description txt : string) (st : Agent B) :
  (forall located st1,
     locateElement core description st = (Returns located, st1) ->
     success located = false ->
     inputTextIntoElement core description txt st = (Returns located, st1))
  /\ (forall r, fst (inputTextIntoElement core description txt st) = Returns r ->
      success r = true ->
      exists located st1 el rect p,
        locateElement core description st = (Returns located, st1)
        /\ data located = Some (data_located el rect (Some p))
        /\ data r = Some (data_inputted (Some txt) el)
        /\ calls (snd (inputTextIntoElement core description txt st))
           = (calls st1 ++ [call_clickAt (x p) (y p); call_type (Some txt)])%list).
Proof.
  unfold inputTextIntoElement, locateElement, input.
  cbv beta iota zeta delta [try_catch bind invoke ret throw]. split.
  - intros located st1 E Hf. rewrite E. simpl. now rewrite Hf.
  - intros r. destruct (locate core (Some description) st) as [[located|msg] st1];
      [|simpl; intros [= <-]; discriminate].
    destruct (success located) eqn:Hs; simpl; [|intros [= <-]; congruence].
    destruct (data located) as [[| | | | |el rect [p|]| |]|] eqn:Hd; simpl;
      try (intros [= <-]; discriminate).
    destruct (browser_clickAt _ _ (browser st1)) as [[[]|msg] b']; simpl;
      [|intros [= <-]; discriminate].
    destruct (browser_type _ b') as [[[]|msg] b'']; simpl;
      [|intros [= <-]; discriminate].
    intros [= <-] _. exists located, st1, el, rect, p.
    repeat split; try (assumption || reflexivity). now rewrite <- !app_assoc.
Qed.

(** ** Extracting texts *)

(** X17.  [extractText] on an initialized agent whose driver evaluates the
    script succeeds with texts that are never empty, that are trimmed
    texts of elements matching the selector, in document order, and that
    are at most as many as the matches.  A selector of no match gives the
    empty sequence, not a failure. *)
Theorem extractText_gives_nonempty_texts_in_order {B} `{BrowserInterface B}
    (sel : string) (st : Agent B) (pg : Page) (b' : B) :
  isInitialized st = true ->
  browser_evaluate (script_extractText sel) (browser st) = (Returns pg, b') ->
  exists found : list string,
    fst (extractText sel st)
      = Returns {| success := true; error := None; data := Some (data_texts found) |}
    /\ Forall (fun t => t <> "") found
    /\ found `sublist_of` map (fun el => JS.trim (textContent el)) (querySelectorAll pg sel)
    /\ (length found <= length (querySelectorAll pg sel))%nat
    /\ (querySelectorAll pg sel = [] -> found = []).
Proof.
  intros Hst E. unfold extractText. rewrite guarded_initialized by exact Hst.
  cbv beta iota zeta delta [try_catch bind evaluate invoke ret]. simpl.
  rewrite E. simpl. eexists. split; [reflexivity|].
  unfold Scripts.extractText, Scripts.trimmedTexts.
  split; [|split; [|split]].
  - apply Forall_forall. intros t Ht. apply list_elem_of_filter in Ht as [Ht _].
    destruct t; [destruct Ht | discriminate].
  - apply sublist_filter.
  - etransitivity; [apply length_filter|]. now rewrite length_map.
  - intros ->. reflexivity.
Qed.

Lemma extractText_gives_nonempty_texts_in_order_witness :
  exists found : list string,
    fst (extractText "p, h1" Fixture.ready)
      = Returns {| success := true; error := None; data := Some (data_texts found) |}
    /\ Forall (fun t => t <> "") found
    /\ found `sublist_of` map (fun el => JS.trim (textContent el))
                              (querySelectorAll Fixture.page "p, h1")
    /\ (length found <= length (querySelectorAll Fixture.page "p, h1"))%nat
    /\ (querySelectorAll Fixture.page "p, h1" = [] -> found = []).
Proof.
  exact (extractText_gives_nonempty_texts_in_order "p, h1" Fixture.ready
           Fixture.page Fixture.healthy eq_refl eq_refl).
Defined.

(** ** The snapshot of the document *)

Section Snapshot.

Lemma getBasicDOMStructure_unfold tag i cls txt r kids (depth maxDepth : nat) :
  getBasicDOMStructure (mkElement tag i cls txt r kids) depth maxDepth
    = if (maxDepth <? depth)%nat then None
      else
        let nodes :=
          omap (fun child => getBasicDOMStructure child (S depth) maxDepth) kids in
        Some (mkDomNode (JS.toLowerCase tag) (orUndefined i) (orUndefined cls)
                (orUndefined (String.substring 0 100 (JS.trim txt)))
                (match nodes with [] => None | _ => Some nodes end)).
Proof. reflexivity. Qed.

Lemma levels_bound (m : nat) (nodes : list DomNode) :
  Forall (fun n => (levels n <= m)%nat) nodes ->
  (foldr (fun n acc => Nat.max (levels n) acc) 0%nat nodes <= m)%nat.
Proof. induction 1; simpl; lia. Qed.

Lemma texts_bound (nodes : list DomNode) :
  Forall (fun n => Forall kept (texts n)) nodes ->
  Forall kept (flat_map texts nodes).
Proof. induction 1; simpl; [constructor | now apply Forall_app_2]. Qed.

(** The walk from [depth] gives no node beyond [maxDepth], and a tree of at
    most [maxDepth + 1 - depth] levels otherwise. *)
Lemma getBasicDOMStructure_bounded (maxDepth : nat) (fuel : nat) :
  forall (el : Element) (depth : nat),
    (S maxDepth - depth = fuel)%nat ->
    match getBasicDOMStructure el depth maxDepth with
    | None => fuel = 0%nat
    | Some node => (0 < fuel)%nat /\ (levels node <= fuel)%nat
                   /\ Forall kept (texts node)
    end.
Proof.
  induction fuel as [|fuel IH]; intros [tag i cls txt r kids] depth Hfuel;
    rewrite getBasicDOMStructure_unfold.
  - destruct (Nat.ltb_spec maxDepth depth); [reflexivity | lia].
  - destruct (Nat.ltb_spec maxDepth depth); [lia|]. cbv zeta.
    set (nodes := omap _ kids).
    assert (Hnodes : Forall (fun n => (levels n <= fuel)%nat /\ Forall kept (texts n))
                       nodes).
    { apply Forall_forall. intros node Hin.
      apply list_elem_of_omap in Hin as [child [_ Hchild]].
      specialize (IH child (S depth) ltac:(lia)). rewrite Hchild in IH. tauto. }
    apply Forall_and in Hnodes as [Hlevels Htexts].
    split; [lia|]. split.
    + destruct nodes; simpl; [lia|].
      apply levels_bound in Hlevels. simpl in Hlevels. lia.
    + assert (Hown : Forall kept
                (match orUndefined (String.substring 0 100 (JS.trim txt)) with
                 | Some s => [s] | None => [] end)).
      { unfold orUndefined.
        destruct (JS.truthy _) eqn:Ht; constructor; [|constructor].
        split; [destruct (String.substring _ _ _); [discriminate Ht|discriminate]
               | apply substring_length]. }
      destruct nodes as [|n nodes]; simpl; apply Forall_app_2; try exact Hown;
        [constructor|].
      apply (texts_bound (n :: nodes) Htexts).
Qed.

End Snapshot.

(** X18.  The tree [getPageContext] sends to the reasoning service is
    bounded whatever the page: there always is one, it has at most four
    levels (the body and three levels below it), and every text in it is
    not empty and has at most 100 characters. *)
Theorem domStructure_is_shallow (pg : Page) :
  exists node : DomNode,
    domStructure pg = Some node
    /\ (levels node <= 4)%nat
    /\ Forall (fun t => t <> "" /\ (String.length t <= 100)%nat) (texts node).
Proof.
  unfold domStructure.
  pose proof (getBasicDOMStructure_bounded 3 4 (body pg) 0 eq_refl) as Hb.
  destruct (getBasicDOMStructure (body pg) 0 3) as [node|]; [|discriminate Hb].
  exists node. split; [reflexivity|]. destruct Hb as [_ [Hl Ht]]. now split.
Qed.

(** ** Plans of unsupported steps *)

Section Unsupported.

Context {B : Type} `{BrowserInterface B} (core : MidsceneCore).

Lemma executeStep_unsupported action (st : Agent B) :
  supported (type action) = false ->
  executeStep core action st
    = (Returns {| res_type := type action; res_success := false; res_data := None;
                  res_error := Some ("Unsupported action type: " +:+ type action) |},
       st).
Proof.
  unfold supported, executeStep. intros Hty.
  apply orb_false_iff in Hty as [Hty He]. apply orb_false_iff in Hty as [Hc Hi].
  now rewrite Hc, Hi, He.
Qed.

Lemma executeActions_unsupported todo (st : Agent B) :
  Forall (fun action => supported (type action) = false) todo ->
  forall done, exists results,
    executeActions core todo done st = (Returns (done ++ results)%list, st)
    /\ Forall (fun r => res_success r = false
                        /\ res_error r = Some ("Unsupported action type: " +:+ res_type r))
              results
    /\ (todo <> [] -> results <> []).
Proof.
  induction 1 as [|action rest Hty _ IH]; intros done; simpl.
  - exists []. rewrite app_nil_r. repeat split; [constructor | congruence].
  - rewrite (bind_returns _ _ _ _ _ (executeStep_unsupported action st Hty)).
    set (r := {| res_type := type action; res_success := false; res_data := None;
                 res_error := Some ("Unsupported action type: " +:+ type action) |}).
    destruct (stopsAfter action r).
    + exists [r].
      refine (conj eq_refl (conj _ _)); [repeat constructor | discriminate].
    + destruct (IH (done ++ [r])%list) as [results [E [Hall _]]].
      exists (r :: results). rewrite E, <- app_assoc.
      refine (conj eq_refl (conj _ _));
        [constructor; [now split | exact Hall] | discriminate].
Qed.

End Unsupported.

(** X19.  A plan whose steps all have a type other than [click], [input]
    and [extract] never reaches the driver: [executePlan] leaves the agent
    as it was, every entry it records is a failure naming the unsupported
    type, and the plan fails unless it has no step. *)
Theorem unsupported_steps_never_reach_the_driver {B} `{BrowserInterface B}
    (core : MidsceneCore) (steps : list PlanStep) (st : Agent B) :
  Forall (fun action => type action <> "click" /\ type action <> "input"
                        /\ type action <> "extract") steps ->
  exists results : list StepResult,
    executePlan core {| actions := Some steps |} st
      = (Returns {| success := forallb res_success results; error := None;
                    data := Some {| data_actions := results |} |}, st)
    /\ Forall (fun r => res_success r = false
                        /\ res_error r = Some ("Unsupported action type: " +:+ res_type r))
              results
    /\ (steps <> [] -> forallb res_success results = false).
Proof.
  intros Hsteps.
  assert (Hun : Forall (fun action => supported (type action) = false) steps).
  { eapply Forall_impl; [exact Hsteps|]. intros action [Hc [Hi He]].
    unfold supported. apply String.eqb_neq in Hc, Hi, He. now rewrite Hc, Hi, He. }
  destruct (executeActions_unsupported core steps st Hun []) as [results [E [Hall Hne]]].
  exists results. unfold executePlan. simpl.
  erewrite try_catch_returns by (erewrite bind_returns by exact E; reflexivity).
  split; [reflexivity|]. split; [exact Hall|].
  intros Hs. specialize (Hne Hs). destruct results as [|r results]; [congruence|].
  apply Forall_cons in Hall as [[Hr _] _]. simpl. now rewrite Hr.
Qed.

Lemma unsupported_steps_never_reach_the_driver_witness :
  exists results : list StepResult,
    executePlan Fixture.noService
      {| actions := Some [ {| type := "hover"; params := None; step_optional := None |} ] |}
      Fixture.ready
      = (Returns {| success := forallb res_success results; error := None;
                    data := Some {| data_actions := results |} |}, Fixture.ready)
    /\ Forall (fun r => res_success r = false
                        /\ res_error r = Some ("Unsupported action type: " +:+ res_type r))
              results
    /\ ([ {| type := "hover"; params := None; step_optional := None |} ] <> [] ->
        forallb res_success results = false).
Proof.
  apply (unsupported_steps_never_reach_the_driver Fixture.noService).
  repeat constructor; discriminate.
Defined.

(** ** Construction *)

(** X20.  What the constructor makes of the options stays for the life of
    the agent.  After any sequence of operations on a constructed agent the
    configured timeout is the number given when that is truthy (a negative
    number is), and 30000 when none, [0] or [NaN] was given; it is what a
    [waitForNavigation] called without a timeout hands to the script; the
    browser defaults to [playwright] and [headless] to false.  The output
    directory and the planning switch are the defaults
    ([./crawler-ai-output], on) only when the options have no such key:
    a key that is there wins, also when it is given as [undefined]. *)
Theorem constructed_agent_keeps_its_defaults {B} `{BrowserInterface B}
    (core : MidsceneCore) (opts : OptionsObject) (b : B) (d : Disk)
    (ops : list Operation) :
  let st := afterAll core ops (AIEnhancedAgent.constructor opts b d) in
  opt_timeout (options st)
    = Some (match opt_timeout (given_base opts) with
            | Some t => if JS.truthy_number t then t else 30000%float
            | None => 30000%float
            end)
  /\ (forall t ms, opt_timeout (given_base opts) = Some t ->
        isWhole t ms -> ms <> 0%Z -> opt_timeout (options st) = Some t)
  /\ (opt_timeout (given_base opts) = None
      \/ opt_timeout (given_base opts) = Some 0%float
      \/ opt_timeout (given_base opts) = Some nan ->
      opt_timeout (options st) = Some 30000%float)
  /\ waitArgument None st = opt_timeout (options st)
  /\ opt_browser (options st)
     = Some (match opt_browser (given_base opts) with Some k => k | None => playwright end)
  /\ opt_headless (options st)
     = Some (match opt_headless (given_base opts) with Some h => h | None => false end)
  /\ outputDir (aiOptions st)
     = match given_outputDir opts with
       | JS.absent => Some "./crawler-ai-output"
       | JS.undefined => None
       | JS.given dir => Some dir
       end
  /\ useAutonomousPlanning (aiOptions st)
     = match given_useAutonomousPlanning opts with
       | JS.absent => Some true
       | JS.undefined => None
       | JS.given planning => Some planning
       end.
Proof.
  intros st.
  destruct (configuration_kept core ops (AIEnhancedAgent.constructor opts b d))
    as [Ho Ha].
  fold st in Ho, Ha. unfold waitArgument. rewrite Ho, Ha. simpl.
  refine (conj _ (conj _ (conj _ (conj eq_refl (conj _ (conj _ (conj _ _))))))).
  - unfold JS.or_number.
    destruct (opt_timeout (given_base opts)) as [t|]; [|reflexivity].
    now destruct (JS.truthy_number t).
  - intros t ms -> Ht Hms. unfold JS.or_number.
    now rewrite (truthy_whole t ms Ht Hms).
  - intros [->|[->| ->]]; reflexivity.
  - now destruct (opt_browser (given_base opts)).
  - now destruct (opt_headless (given_base opts)).
  - now destruct (given_outputDir opts).
  - now destruct (given_useAutonomousPlanning opts).
Qed.

Lemma constructed_agent_keeps_its_defaults_witness :
  let opts :=
    {| given_base := {| opt_browser := None; opt_headless := None;
                        opt_timeout := Some (-1)%float; opt_userAgent := None |};
       given_outputDir := JS.undefined;
       given_useVisualUnderstanding := JS.absent;
       given_useAutonomousPlanning := JS.undefined |} in
  let st := afterAll Fixture.noService [op_initialize; op_close]
              (AIEnhancedAgent.constructor opts Fixture.healthy Fixture.emptyDisk) in
  opt_timeout (options st) = Some (-1)%float
  /\ outputDir (aiOptions st) = None
  /\ useAutonomousPlanning (aiOptions st) = None.
Proof.
  cbv zeta.
  pose proof (constructed_agent_keeps_its_defaults Fixture.noService
    {| given_base := {| opt_browser := None; opt_headless := None;
                        opt_timeout := Some (-1)%float; opt_userAgent := None |};
       given_outputDir := JS.undefined;
       given_useVisualUnderstanding := JS.absent;
       given_useAutonomousPlanning := JS.undefined |}
    Fixture.healthy Fixture.emptyDisk [op_initialize; op_close])
    as [_ [Hwhole [_ [_ [_ [_ [Hdir Hplanning]]]]]]].
  split; [|split; [exact Hdir | exact Hplanning]].
  apply (Hwhole (-1)%float (-1)%Z eq_refl); [vm_compute; reflexivity | discriminate].
Defined.

(** ** Saving a screenshot *)

(** X21.  [saveScreenshot] never throws.  It returns the empty string
    exactly when it wrote no file, and otherwise the path of the one file it
    added to the disk, with the bytes it was given.  With no output
    directory configured it does nothing at all. *)
Theorem saveScreenshot_reports_what_it_wrote {B}
    (now : Z) (screenshotData : Buffer) (st : Agent B) :
  exists (path : string) (st' : Agent B),
    saveScreenshot now screenshotData st = (Returns path, st')
    /\ (path = "" -> written (disk st') = written (disk st))
    /\ (path <> "" ->
        written (disk st') = (written (disk st) ++ [(path, screenshotData)])%list)
    /\ (JS.truthy_opt (outputDir (aiOptions st)) = false -> path = "" /\ st' = st).
Proof.
  unfold saveScreenshot.
  cbv beta iota zeta delta
    [bind get try_catch modify ret lift Node.mkdirSync Node.writeFileSync].
  simpl.
  destruct (JS.truthy_opt (outputDir (aiOptions st))) eqn:Hdir; simpl.
  2:{ exists "", st. repeat split; congruence. }
  destruct (Node.existsSync _ (disk st)); simpl.
  - destruct (refused (disk st) _) as [msg|]; simpl.
    + eexists "", _. repeat split; simpl; congruence.
    + eexists _, _. split; [reflexivity|]. repeat split; simpl; try congruence.
      intros E. now apply join_nonempty_path in E.
  - destruct (refused (disk st) (Node.join _ "screenshots")) as [msg|]; simpl.
    + eexists "", _. repeat split; simpl; congruence.
    + destruct (refused (disk st) _) as [msg|]; simpl.
      * eexists "", _. repeat split; simpl; congruence.
      * eexists _, _. split; [reflexivity|]. repeat split; simpl; try congruence.
        intros E. now apply join_nonempty_path in E.
Qed.

(** X22.  The constructor of [AIEnhancedAgent] does not touch the driver
    and writes no file: the agent it builds is not initialized, its log of
    driver calls is empty and its screenshot counter is zero.  It sees to
    the output directory, which is [./crawler-ai-output] when the options
    have no [outputDir] key and the directory the key names otherwise: a
    directory that exists is left alone, one that is missing is created,
    and when the creation is refused the error is swallowed and the disk is
    left as it was.  With the key given as [undefined] or as the empty
    string there is no output directory and the disk is left as it was. *)
Theorem constructor_prepares_the_output_directory {B} `{BrowserInterface B}
    (opts : OptionsObject) (b : B) (d : Disk) :
  let st := AIEnhancedAgent.constructor opts b d in
  let prepared (dir : string) :=
    dir <> ""
    /\ (Node.existsSync dir d = true -> disk st = d)
    /\ (Node.existsSync dir d = false ->
        match refused d dir with
        | Some _ => disk st = d
        | None =>
            disk st = mkDisk (directories d ++ [dir]) (written d) (refused d)
            /\ Node.existsSync dir (disk st) = true
        end) in
  isInitialized st = false /\ calls st = [] /\ screenshotCounter st = 0
  /\ browser st = b
  /\ written (disk st) = written d
  /\ match given_outputDir opts with
     | JS.absent => prepared "./crawler-ai-output"
     | JS.undefined => disk st = d
     | JS.given dir => (dir = "" -> disk st = d) /\ (dir <> "" -> prepared dir)
     end.
Proof.
  intros st prepared.
  assert (Hprepared : forall dir,
            dir <> "" -> disk st = ensureOutputDirectory dir d -> prepared dir
                         /\ written (disk st) = written d).
  { intros dir Hdir Hdisk. unfold prepared. rewrite Hdisk.
    unfold ensureOutputDirectory, Node.mkdirSync.
    destruct (Node.existsSync dir d) eqn:E.
    - refine (conj (conj Hdir (conj (fun _ => eq_refl) _)) eq_refl). discriminate.
    - destruct (refused d dir) as [msg|]; simpl.
      + refine (conj (conj Hdir (conj _ (fun _ => eq_refl))) eq_refl). discriminate.
      + refine (conj (conj Hdir (conj _ (fun _ => conj eq_refl _))) eq_refl);
          [discriminate|].
        unfold Node.existsSync. simpl.
        apply bool_decide_eq_true. apply elem_of_app. right. now left. }
  refine (conj eq_refl (conj eq_refl (conj eq_refl (conj eq_refl _)))).
  subst st. unfold AIEnhancedAgent.constructor in *. simpl in *.
  destruct (given_outputDir opts) as [| |dir]; simpl in *.
  - destruct (Hprepared "./crawler-ai-output") as [Hp Hw];
      [discriminate | reflexivity | now split].
  - now split.
  - destruct dir as [|c dir]; simpl in *.
    + split; [reflexivity|]. split; [reflexivity|congruence].
    + destruct (Hprepared (String c dir)) as [Hp Hw];
        [discriminate | reflexivity |].
      split; [exact Hw|]. split; [discriminate|]. intros _. exact Hp.
Qed.

Lemma constructor_prepares_the_output_directory_witness :
  let opts (key : JS.Key string) :=
    {| given_base := {| opt_browser := None; opt_headless := None;
                        opt_timeout := None; opt_userAgent := None |};
       given_outputDir := key;
       given_useVisualUnderstanding := JS.absent;
       given_useAutonomousPlanning := JS.absent |} in
  directories (disk (AIEnhancedAgent.constructor (opts JS.absent)
                       Fixture.healthy Fixture.emptyDisk))
    = ["./crawler-ai-output"]
  /\ disk (AIEnhancedAgent.constructor (opts JS.undefined)
             Fixture.healthy Fixture.emptyDisk)
     = Fixture.emptyDisk.
Proof.
  cbv zeta. split.
  - pose proof (constructor_prepares_the_output_directory
      {| given_base := {| opt_browser := None; opt_headless := None;
                          opt_timeout := None; opt_userAgent := None |};
         given_outputDir := JS.absent;
         given_useVisualUnderstanding := JS.absent;
         given_useAutonomousPlanning := JS.absent |}
      Fixture.healthy Fixture.emptyDisk) as [_ [_ [_ [_ [_ [_ [_ Hmissing]]]]]]].
    destruct (Hmissing eq_refl) as [-> _]. reflexivity.
  - exact (proj2 (proj2 (proj2 (proj2 (proj2
      (constructor_prepares_the_output_directory
         {| given_base := {| opt_browser := None; opt_headless := None;
                             opt_timeout := None; opt_userAgent := None |};
            given_outputDir := JS.undefined;
            given_useVisualUnderstanding := JS.absent;
            given_useAutonomousPlanning := JS.absent |}
         Fixture.healthy Fixture.emptyDisk)))))).
Defined.

(** ** Building the page context *)

